(** * podcast-creator: the generation pipeline, embedded and verified

    The development follows [src/podcast_creator]: configuration objects
    ([speakers.py], [speed.py], [emotions.py]), the pipeline stages of
    [nodes.py] and, for the dialect path, the synthesis back ends of
    [llm/tts.py] and [providers/qwen_tts.py], the dialect tags of
    [llm/dialect_utils.py] and the text preparation of [llm/soulx_tts.py].

    Pure code is embedded as functions.  Code that logs, sleeps, calls a
    collaborator or runs concurrently is embedded in a small free monad
    [Coro] of coroutines; a run against a world records a trace of events. *)

From Stdlib Require Import PrimFloat ZArith Lia Ascii DecimalString DecimalNat
  DecimalFacts.
From stdpp Require Import base option list strings gmap.

Set Default Proof Using "Type".
Local Open Scope Z_scope.
Local Open Scope string_scope.
Local Open Scope list_scope.

(* ================================================================== *)
(** * Part I.  Definitions                                             *)
(* ================================================================== *)

(** ** Python values shared by the stages *)

(** Natural-language text exchanged with the language model is a Python
    [str]: a sequence of Unicode code points, so that [len] counts
    characters.  Identifiers (names, voice ids, tags) are strings. *)
Definition Text := list N.

(** A [pathlib.Path] is the list of its components, root first. *)
Definition Path := list string.

Definition path_div (p : Path) (s : string) : Path := p ++ [s].
Infix "//" := path_div (at level 40, left associativity).

Inductive Exn : Type :=
| ValueError (msg : string)
| RuntimeError (msg : string) (cause : Exn)
| AssertionError (msg : string)
| IndexError
| KeyError (key : string)
| UnboundLocalError (var : string)
| ValidationError (msg : string)
| External (what : string).

(** Python truthiness of an optional string: [None] and [""] are false. *)
Definition truthy (o : option string) : bool :=
  match o with
  | Some s => negb (String.eqb s "")
  | None => false
  end.

(** An insertion-ordered [dict] with string keys, as an association list;
    [dict_get] is [d[k]] / [d.get(k)], [dict_keys] is [list(d.keys())]. *)
Definition Dict (V : Type) := list (string * V).

Fixpoint dict_get {V} (d : Dict V) (k : string) : option V :=
  match d with
  | [] => None
  | (k', v) :: d' => if String.eqb k' k then Some v else dict_get d' k
  end.

Definition dict_in {V} (k : string) (d : Dict V) : bool :=
  match dict_get d k with Some _ => true | None => false end.

Definition dict_keys {V} (d : Dict V) : list string := map fst d.
Definition dict_values {V} (d : Dict V) : list V := map snd d.

(** [len(set(xs))] for a list of strings. *)
Definition len_set (xs : list string) : nat :=
  size (list_to_set xs : gset string).

(** ** speakers.py *)

Record Speaker := {
  name : string;
  voice_id : string;
  backstory : string;
  personality : string;
  custom_voice : option string;
  custom_voice_filename : option string
}.

Record SpeakerProfile := {
  tts_provider : string;
  tts_model : string;
  speakers : list Speaker
}.

(** The identifier [validate_speakers] collects for one speaker. *)
Definition voice_key (speaker : Speaker) : string :=
  if String.eqb (voice_id speaker) "custom" && truthy (custom_voice speaker)
  then "custom:" ++ default "" (custom_voice speaker)
  else voice_id speaker.

Definition validate_speakers (v : list Speaker) : Exn + list Speaker :=
  if (length v <? 1)%nat || (4 <? length v)%nat then
    inl (ValueError "Must have between 1 and 4 speakers")
  else
    let names := map name v in
    if negb (length names =? len_set names)%nat then
      inl (ValueError "Speaker names must be unique")
    else
      let voice_ids := map voice_key v in
      if negb (length voice_ids =? len_set voice_ids)%nat then
        inl (ValueError
               "Voice IDs must be unique (or custom_voice paths must be unique)")
      else inr v.

(** Construction of a [SpeakerProfile]: pydantic runs the field validator
    and reports its [ValueError] as a validation error. *)
Definition make_SpeakerProfile (provider model : string) (v : list Speaker)
  : Exn + SpeakerProfile :=
  match validate_speakers v with
  | inr v' => inr {| tts_provider := provider; tts_model := model; speakers := v' |}
  | inl (ValueError msg) => inl (ValidationError msg)
  | inl e => inl e
  end.

Definition get_speaker_names (p : SpeakerProfile) : list string :=
  map name (speakers p).

(** Dict comprehensions: a later speaker overrides an earlier one. *)
Definition get_voice_mapping (p : SpeakerProfile) : gmap string string :=
  foldl (fun m s => <[name s := voice_id s]> m) ∅ (speakers p).

Definition get_custom_voice_mapping (p : SpeakerProfile) : gmap string string :=
  foldl (fun m s =>
           if truthy (custom_voice s)
           then <[name s := default "" (custom_voice s)]> m else m)
        ∅ (speakers p).

(** ** emotions.py *)

Record Emotion := {
  emotion_name : string;
  text : list string;
  category : list string;
  description : string
}.

Record EmotionConfig := {
  emotions : Dict Emotion;
  categories : list string
}.

(** ["\n".join(self.text)] *)
Definition get_voice_instructions (e : Emotion) : string :=
  String.concat (String (Ascii.ascii_of_nat 10) EmptyString) (text e).

Definition get_emotions_names (c : EmotionConfig) : list string :=
  dict_keys (emotions c).

Definition get_all_emotions (c : EmotionConfig) : list Emotion :=
  dict_values (emotions c).

Definition get_emotion (c : EmotionConfig) (nm : string) : Exn + Emotion :=
  match dict_get (emotions c) nm with
  | None => inl (ValueError ("Emotion '" ++ nm ++ "' not found."))
  | Some e => inr e
  end.

(** ** speed.py (the configuration record; [get_speed_name_value] logs,
    so it is defined with the coroutines below) *)

Record SpeedConfig := { speeds : Dict float }.

#[warnings="-inexact-float"]
Definition default_speeds : Dict float :=
  [("slow", 0.9%float); ("normal", 1.0%float); ("fast", 1.1%float)].

Definition load_speed_config : SpeedConfig := {| speeds := default_speeds |}.

Definition get_speed_names (c : SpeedConfig) : list string :=
  dict_keys (speeds c).

(** The conditions the data model puts on a speaker list: one to four
    speakers, pairwise distinct names, and pairwise distinct voice ids
    unless both speakers use ["custom"] with different references. *)
Definition distinct_names (v : list Speaker) : Prop :=
  forall i j a b, i <> j -> v !! i = Some a -> v !! j = Some b ->
    name a <> name b.

Definition distinct_voices (v : list Speaker) : Prop :=
  forall i j a b, i <> j -> v !! i = Some a -> v !! j = Some b ->
    voice_id a <> voice_id b \/
    (voice_id a = "custom" /\ voice_id b = "custom" /\
     custom_voice a <> custom_voice b).

Definition profile_ok (v : list Speaker) : Prop :=
  (1 <= length v <= 4)%nat /\ distinct_names v /\ distinct_voices v.

(** ** core.py data, as nodes.py uses it *)

Record Segment := {
  seg_name : string;
  seg_description : string;
  size : string
}.

Record Outline := { segments : list Segment }.

Record Dialogue := {
  speaker : string;
  dialogue : Text;
  emotion : option string;
  speed : option string
}.

(** The response object of the language model. *)
Record AIMessage := { content : Text }.

(** A content item: a string, a model response put in its place by the
    preprocessor, or any other object. *)
Inductive Item : Type :=
| IStr (s : Text)
| IMsg (m : AIMessage)
| IOther (tag : nat).

(** [content: Union[str, List[str]]] *)
Inductive Content : Type :=
| One (x : Item)
| Many (xs : list Item).

(** ** providers/tts_capability.py *)

Record TTSCapability := {
  supported_languages : list string;
  supports_instructions : bool;
  supports_custom_voice : bool;
  default_voices : list string;
  supports_voice_tags : bool;
  supported_dialects : option (list string);
  available_voice_tags : option (list string)
}.

(** ** state.py *)

Record PodcastState := {
  st_content : Content;
  st_briefing : Text;
  st_num_segments : Z;
  st_outline : option Outline;
  st_transcript : list Dialogue;
  st_audio_clips : list Path;
  st_final_output_file_path : option Path;
  st_output_dir : Path;
  st_episode_name : string;
  st_speaker_profile : option SpeakerProfile;
  st_emotions_config : option EmotionConfig;
  st_speed_config : option SpeedConfig;
  st_language : string;
  st_dialect : option string
}.

(** ** Prompts, requests and log records

    A rendered prompt is represented by its template and the values the
    template was rendered with. *)

Record OutlineData := {
  od_briefing : Text;
  od_num_segments : Z;
  od_context : Content;
  od_language : string;
  od_speakers : list Speaker
}.

Record TranscriptData := {
  td_briefing : Text;
  td_outline : Outline;
  td_context : Content;
  td_segment : Segment;
  td_is_final : bool;
  td_is_first : bool;
  td_is_middle : bool;
  td_turns : nat;
  td_language : string;
  td_dialect : option string;
  td_speakers : list Speaker;
  td_speaker_names : list string;
  td_emotions : list Emotion;
  td_emotions_names : list string;
  td_speed_names : list string;
  td_supports_voice_tags : bool;
  td_available_voice_tags : list string
}.

Inductive Prompt : Type :=
| judge_prompt (content : Text)
| summary_prompt (briefing content : Text)
| qa_prompt (content : Text)
| outline_prompt (d : OutlineData)
| transcript_prompt (d : TranscriptData).

(** [tts_kwargs]: the keyword options of one synthesis call; an absent
    key is [None]. *)
Record TtsKwargs := {
  instructions : option string;
  reference_audio : option string;
  kw_dialect : option string
}.

Definition no_kwargs : TtsKwargs :=
  {| instructions := None; reference_audio := None; kw_dialect := None |}.

(** The arguments of [agenerate_speech]. *)
Record SpeechRequest := {
  sr_text : Text;
  sr_voice : string;
  sr_output_file : Path;
  sr_kwargs : TtsKwargs
}.

Inductive Level := DEBUG | INFO | WARNING | ERROR.

(** What a log record reports (the message text is not modelled). *)
Inductive LogMsg : Type :=
| speed_not_found (nm : string) (available : list string)
| summarising (len : nat)
| summarised (len : nat)
| no_qa_needed (len : nat)
| judged (needs : bool)
| outline_parse_failed (attempt : nat) (e : Exn)
| outline_generated (n : nat)
| segment_started (i n : nat) (nm : string)
| transcript_parsed (n : nat)
| transcript_parse_failed (attempt : nat) (e : Exn)
| transcript_generated (n : nat)
| capability_found (provider : string) (tags : bool)
| capability_failed (provider : string) (e : Exn)
| batch_size_used (b : Z)
| generating_clips (total b : Z)
| batch_started (number total first last : Z)
| batch_completed (number total : Z)
| all_clips_generated (n : nat)
| clip_started (index : Z) (speaker : string)
| emotion_used (tag : string)
| custom_voice_used (p : string)
| dialect_used (d : string)
| clip_generated (p : Path)
| clip_attempt_failed (index : Z) (attempt : nat) (e : Exn)
| clip_failed (index : Z)
| dialect_unsupported (backend d : string)
| dialect_tag_removed (backend : string)
| instructions_unused (backend : string)
| language_detected (lang : string)
| voice_chosen (v : string)
| backend_error (backend : string) (e : Exn)
| other_msg (s : string).

(** ** Coroutines

    The commands a stage performs on the outside world.  [CPick] is the
    event loop choosing which unfinished task of a [gather] runs next. *)
Inductive Cmd : Type :=
| CLog (lvl : Level) (msg : LogMsg)
| CPrint (msg : LogMsg)
| CSleep (secs : nat)
| CPick (pending : list nat)
| CCreateLanguage (provider model : string) (max_tokens : nat) (json : bool)
| CInvoke (provider model : string) (prompt : Prompt)
| CCreateTts (provider model : string)
| CSpeech (provider model : string) (req : SpeechRequest)
| CMkdir (p : Path)
| CExists (p : string)
| CReadBase64 (p : string)
| CDetect (t : Text)
| CKokoroModel (t : Text) (voice lang : string) (speed : option float)
| CWavWrite (rate : N) (audio : list N)
| CConvert (wav : list N) (fmt : string) (rate : N)
| CDashScope (model : string) (t : Text) (voice language_type : string)
| CHttpGet (url : string)
| CWriteBytes (p : Path) (data : list N).

(** What each command answers; a collaborator that can fail answers an
    exception or a value. *)
Definition ret_ty (c : Cmd) : Type :=
  match c with
  | CLog _ _ | CPrint _ | CSleep _ => unit
  | CPick _ => nat
  | CCreateLanguage _ _ _ _ => Exn + unit
  | CInvoke _ _ _ => Exn + AIMessage
  | CCreateTts _ _ => Exn + option TTSCapability
  | CSpeech _ _ _ => Exn + unit
  | CMkdir _ => Exn + unit
  | CExists _ => Exn + bool
  | CReadBase64 _ => Exn + string
  | CDetect _ => Exn + string
  | CKokoroModel _ _ _ _ => Exn + list N
  | CWavWrite _ _ => Exn + list N
  | CConvert _ _ _ => Exn + (list N * string)
  | CDashScope _ _ _ _ => Exn + string
  | CHttpGet _ => Exn + list N
  | CWriteBytes _ _ => Exn + unit
  end.

Inductive Coro (A : Type) : Type :=
| Ret (a : A)
| Raise (e : Exn)
| Vis (c : Cmd) (k : ret_ty c -> Coro A).

Arguments Ret {A} a.
Arguments Raise {A} e.
Arguments Vis {A} c k.

Fixpoint bind {A B} (m : Coro A) (f : A -> Coro B) : Coro B :=
  match m with
  | Ret a => f a
  | Raise e => Raise e
  | Vis c k => Vis c (fun r => bind (k r) f)
  end.

#[global] Instance Coro_ret : MRet Coro := fun A a => Ret a.
#[global] Instance Coro_bind : MBind Coro := fun A B f m => bind m f.

(** [try: body except Exception as e: handler e] *)
Fixpoint try_except {A} (body : Coro A) (handler : Exn -> Coro A) : Coro A :=
  match body with
  | Ret a => Ret a
  | Raise e => handler e
  | Vis c k => Vis c (fun r => try_except (k r) handler)
  end.

Definition perform (c : Cmd) : Coro (ret_ty c) := Vis c Ret.

(** A collaborator's exception is raised in the coroutine awaiting it. *)
Definition lift_result {A} (r : Exn + A) : Coro A :=
  match r with
  | inl e => Raise e
  | inr a => Ret a
  end.

Definition log (lvl : Level) (msg : LogMsg) : Coro unit := perform (CLog lvl msg).
Definition print (msg : LogMsg) : Coro unit := perform (CPrint msg).
Definition sleep (secs : nat) : Coro unit := perform (CSleep secs).

(** A [for] loop with [break], over the loop's local variables [S]. *)
Inductive LoopCtl := Break | Continue.

Fixpoint for_loop {X S} (xs : list X) (body : X -> S -> Coro (LoopCtl * S))
    (s : S) : Coro S :=
  match xs with
  | [] => Ret s
  | x :: xs' =>
      r ← body x s;
      match r with
      | (Break, s') => Ret s'
      | (Continue, s') => for_loop xs' body s'
      end
  end.

(** ** Runs

    An event is a command with its answer; a world answers a command
    from the history so far. *)
Inductive Event : Type :=
| Ev (c : Cmd) (r : ret_ty c).

Definition Trace := list Event.

Definition World := Trace -> forall c : Cmd, ret_ty c.

Inductive Outcome (A : Type) : Type :=
| Returned (a : A)
| Raised (e : Exn).

Arguments Returned {A} a.
Arguments Raised {A} e.

Fixpoint run {A} (w : World) (m : Coro A) (h : Trace) : Outcome A * Trace :=
  match m with
  | Ret a => (Returned a, h)
  | Raise e => (Raised e, h)
  | Vis c k => let r := w h c in run w (k r) (h ++ [Ev c r])
  end.

(** The events a run from the empty history produces, and its outcome. *)
Definition trace_of {A} (w : World) (m : Coro A) : Trace := snd (run w m []).
Definition outcome_of {A} (w : World) (m : Coro A) : Outcome A := fst (run w m []).

(** [wp m t Q]: whatever the world answers, [m] started after the events
    [t] ends in an outcome and a trace that satisfy [Q]. *)
Fixpoint wp {A} (m : Coro A) (t : Trace) (Q : Outcome A -> Trace -> Prop) : Prop :=
  match m with
  | Ret a => Q (Returned a) t
  | Raise e => Q (Raised e) t
  | Vis c k => forall r, wp (k r) (t ++ [Ev c r]) Q
  end.

(** ** speed.py, continued *)

Definition get_speed_name_value (c : SpeedConfig) (nm : string) : Coro float :=
  if negb (dict_in nm (speeds c)) then
    let available := get_speed_names c in
    log WARNING (speed_not_found nm available);;
    mret 1.0%float
  else
    match dict_get (speeds c) nm with
    | Some v => mret v
    | None => Raise (KeyError nm)
    end.

(** The log records of a given level in a trace. *)
Definition logged (lvl : Level) (t : Trace) : list LogMsg :=
  omap (fun e => match e with
                 | Ev (CLog l m) _ =>
                     match lvl, l with
                     | DEBUG, DEBUG | INFO, INFO | WARNING, WARNING
                     | ERROR, ERROR => Some m
                     | _, _ => None
                     end
                 | _ => None
                 end) t.

(** The invocations of the language model in a trace, with the answers. *)
Definition model_call (e : Event) : option (Prompt * (Exn + AIMessage)) :=
  match e with
  | Ev c r =>
      match c return ret_ty c -> option (Prompt * (Exn + AIMessage)) with
      | CInvoke _ _ p => fun r => Some (p, r)
      | _ => fun _ => None
      end r
  end.

Definition model_calls (t : Trace) : list (Prompt * (Exn + AIMessage)) :=
  omap model_call t.

(** The pauses ([asyncio.sleep]) of a trace, in seconds. *)
Definition pauses (t : Trace) : list nat :=
  omap (fun e => match e with Ev (CSleep n) _ => Some n | _ => None end) t.

(** A world in which every collaborator succeeds with an empty answer. *)
Definition default_answer (c : Cmd) : ret_ty c :=
  match c with
  | CLog _ _ | CPrint _ | CSleep _ => tt
  | CPick _ => 0%nat
  | CCreateLanguage _ _ _ _ => inr tt
  | CInvoke _ _ _ => inr {| content := [] |}
  | CCreateTts _ _ => inr None
  | CSpeech _ _ _ => inr tt
  | CMkdir _ => inr tt
  | CExists _ => inr false
  | CReadBase64 _ => inr ""
  | CDetect _ => inr "en"
  | CKokoroModel _ _ _ _ => inr []
  | CWavWrite _ audio => inr audio
  | CConvert _ _ _ => inr ([], "audio/mpeg")
  | CDashScope _ _ _ _ => inr ""
  | CHttpGet _ => inr []
  | CWriteBytes _ _ => inr tt
  end.

Definition quiet_world : World := fun _ c => default_answer c.

(** ** Python string operations on text *)

(** [str.isspace] for one character (Unicode white space). *)
Definition isspace (c : N) : bool :=
  ((9 <=? c) && (c <=? 13) || (28 <=? c) && (c <=? 32) || (c =? 133)
   || (c =? 160) || (c =? 5760) || (8192 <=? c) && (c <=? 8202)
   || (c =? 8232) || (c =? 8233) || (c =? 8239) || (c =? 8287)
   || (c =? 12288))%N.

Fixpoint lstrip (s : Text) : Text :=
  match s with
  | c :: s' => if isspace c then lstrip s' else s
  | [] => []
  end.

(** [s.strip()] *)
Definition strip (s : Text) : Text :=
  reverse (lstrip (reverse (lstrip s))).

Fixpoint startswith (s p : Text) : bool :=
  match p, s with
  | [], _ => true
  | c :: p', d :: s' => (c =? d)%N && startswith s' p'
  | _ :: _, [] => false
  end.

(** [needle in hay] *)
Fixpoint contains (needle hay : Text) : bool :=
  startswith hay needle ||
  match hay with
  | [] => false
  | _ :: hay' => contains needle hay'
  end.

(** The two answers the judge prompt asks for: U+9700 U+8981 ("needed")
    and U+4E0D U+9700 U+8981 ("not needed"). *)
Definition xuyao : Text := [38656; 35201]%N.
Definition bu_xuyao : Text := [19981; 38656; 35201]%N.

(** ** nodes.py: content_transform_node *)

Record Configurable := {
  cfg_qa_provider : option string;
  cfg_qa_model : option string;
  cfg_outline_provider : option string;
  cfg_outline_model : option string;
  cfg_transcript_provider : option string;
  cfg_transcript_model : option string
}.

Definition no_config : Configurable :=
  {| cfg_qa_provider := None; cfg_qa_model := None;
     cfg_outline_provider := None; cfg_outline_model := None;
     cfg_transcript_provider := None; cfg_transcript_model := None |}.

(** [AIFactory.create_language(provider, model, config=...).to_langchain()];
    the model object is the pair of its provider and name. *)
Definition create_language (provider model : string) (max_tokens : nat)
    (json : bool) : Coro (string * string) :=
  Vis (CCreateLanguage provider model max_tokens json)
      (fun r => match r with inl e => Raise e | inr _ => Ret (provider, model) end).

(** [await model.ainvoke(prompt)] *)
Definition ainvoke (model : string * string) (p : Prompt) : Coro AIMessage :=
  Vis (CInvoke (fst model) (snd model) p) lift_result.

(** The body of the loop over a list content, for one item. *)
Definition transform_list_item (qa_model : string * string) (briefing : Text)
    (item : Item) (processed_items : list Item) : Coro (LoopCtl * list Item) :=
  match item with
  | IStr item_s =>
      if (5000 <? length (strip item_s))%nat then
        log INFO (summarising (length (strip item_s)));;
        log INFO (other_msg "summarising with the model");;
        summary_response ← ainvoke qa_model (summary_prompt briefing item_s);
        log INFO (summarised (length (content summary_response)));;
        mret (Continue, processed_items ++ [IMsg summary_response])
      else if (500 <=? length (strip item_s))%nat then
        print (no_qa_needed (length (strip item_s)));;
        mret (Continue, processed_items ++ [item])
      else
        judge_response ← ainvoke qa_model (judge_prompt item_s);
        if contains xuyao (content judge_response) then
          log INFO (judged true);;
          log INFO (other_msg "answering with the model");;
          qa_response ← ainvoke qa_model (qa_prompt item_s);
          mret (Continue, processed_items ++ [IMsg qa_response])
        else
          log INFO (judged false);;
          mret (Continue, processed_items ++ [item])
  | _ => mret (Continue, processed_items ++ [item])
  end.

Definition content_transform_node (state : PodcastState) (config : Configurable)
  : Coro Content :=
  log INFO (other_msg "content transform state keys");;
  log INFO (other_msg "checking content");;
  let qa_provider := default "openai" (cfg_qa_provider config) in
  let qa_model_name := default "gpt-4o-mini" (cfg_qa_model config) in
  let content_ := st_content state in
  let briefing := st_briefing state in
  qa_model ← create_language qa_provider qa_model_name 2000 false;
  match content_ with
  | One (IStr content_s) =>
      if (5000 <? length (strip content_s))%nat then
        log INFO (summarising (length (strip content_s)));;
        log INFO (other_msg "summarising with the model");;
        summary_response ← ainvoke qa_model (summary_prompt briefing content_s);
        log INFO (summarised (length (content summary_response)));;
        mret (One (IMsg summary_response))
      else if (500 <=? length (strip content_s))%nat then
        print (no_qa_needed (length (strip content_s)));;
        mret content_
      else
        judge_response ← ainvoke qa_model (judge_prompt content_s);
        if contains xuyao (content judge_response) then
          log INFO (judged true);;
          log INFO (other_msg "answering with the model");;
          qa_response ← ainvoke qa_model (qa_prompt content_s);
          mret (One (IMsg qa_response))
        else
          log INFO (judged false);;
          mret content_
  | Many items =>
      processed_items ← for_loop items (transform_list_item qa_model briefing) [];
      mret (Many processed_items)
  | One _ => mret content_
  end.

Definition with_content (state : PodcastState) (c : Content) : PodcastState :=
  {| st_content := c; st_briefing := st_briefing state;
     st_num_segments := st_num_segments state; st_outline := st_outline state;
     st_transcript := st_transcript state; st_audio_clips := st_audio_clips state;
     st_final_output_file_path := st_final_output_file_path state;
     st_output_dir := st_output_dir state;
     st_episode_name := st_episode_name state;
     st_speaker_profile := st_speaker_profile state;
     st_emotions_config := st_emotions_config state;
     st_speed_config := st_speed_config state;
     st_language := st_language state; st_dialect := st_dialect state |}.

(** The preprocessing rule for one string item: which model calls are
    made, with which answers, and what takes the item's place.  Lengths
    are taken after [strip].  A classifier answer that holds "not needed"
    is left open. *)
Definition raised_or {A} (r : Exn + AIMessage) (f : AIMessage -> A) : Outcome A :=
  match r with
  | inl e => Raised e
  | inr m => Returned (f m)
  end.

Inductive item_rule (briefing s : Text)
  : list (Prompt * (Exn + AIMessage)) -> Outcome Item -> Prop :=
| rule_summarise r :
    (5000 < length (strip s))%nat ->
    item_rule briefing s [(summary_prompt briefing s, r)] (raised_or r IMsg)
| rule_pass :
    (500 <= length (strip s) <= 5000)%nat ->
    item_rule briefing s [] (Returned (IStr s))
| rule_judge_fails e :
    (length (strip s) < 500)%nat ->
    item_rule briefing s [(judge_prompt s, inl e)] (Raised e)
| rule_judge_no m :
    (length (strip s) < 500)%nat ->
    contains xuyao (content m) = false ->
    item_rule briefing s [(judge_prompt s, inr m)] (Returned (IStr s))
| rule_judge_yes m r :
    (length (strip s) < 500)%nat ->
    contains xuyao (content m) = true ->
    contains bu_xuyao (content m) = false ->
    item_rule briefing s [(judge_prompt s, inr m); (qa_prompt s, r)]
              (raised_or r IMsg)
| rule_judge_open m calls o :
    (length (strip s) < 500)%nat ->
    contains bu_xuyao (content m) = true ->
    item_rule briefing s ((judge_prompt s, inr m) :: calls) o.

(** The rule for the items of a list, in order; the run stops at the
    first item whose model call fails. *)
Inductive items_rule (briefing : Text)
  : list Item -> list (Prompt * (Exn + AIMessage)) -> Outcome (list Item) -> Prop :=
| items_nil : items_rule briefing [] [] (Returned [])
| items_str s rest calls x calls' xs :
    item_rule briefing s calls (Returned x) ->
    items_rule briefing rest calls' (Returned xs) ->
    items_rule briefing (IStr s :: rest) (calls ++ calls') (Returned (x :: xs))
| items_str_fails s rest calls e :
    item_rule briefing s calls (Raised e) ->
    items_rule briefing (IStr s :: rest) calls (Raised e)
| items_rest_fails s rest calls x calls' e :
    item_rule briefing s calls (Returned x) ->
    items_rule briefing rest calls' (Raised e) ->
    items_rule briefing (IStr s :: rest) (calls ++ calls') (Raised e)
| items_msg m rest calls o :
    items_rule briefing rest calls o ->
    items_rule briefing (IMsg m :: rest) calls
               (match o with Returned xs => Returned (IMsg m :: xs) | Raised e => Raised e end)
| items_other n rest calls o :
    items_rule briefing rest calls o ->
    items_rule briefing (IOther n :: rest) calls
               (match o with Returned xs => Returned (IOther n :: xs) | Raised e => Raised e end).

(** ** core.py

    core.py is not under src/.  The pure helpers that nodes.py imports
    from it are parameters of the stages that use them. *)
Record Core := {
  clean_thinking_content : Text -> Text;
  outline_parser : Text -> Exn + Outline;
  (** the parsing of model text into dialogue records, before validation *)
  transcript_parser : Text -> Exn + list Dialogue
}.

Definition name_in (nm : string) (names : list string) : bool :=
  existsb (String.eqb nm) names.

Definition tag_in (tag : option string) (names : list string) : bool :=
  match tag with
  | None => true
  | Some nm => name_in nm names
  end.

(** A dialogue line within the configured vocabularies. *)
Definition dialogue_valid (speaker_names emotions_names speed_names : list string)
    (d : Dialogue) : bool :=
  name_in (speaker d) speaker_names &&
  tag_in (emotion d) emotions_names &&
  tag_in (speed d) speed_names.

(** Modelled from the spec: [create_validated_transcript_parser] of
    core.py, which is not under src/.  The spec's Validated Script Parser
    parses the model text into a list of Dialogue records and rejects the
    whole batch if any line's speaker, emotion or speed tag falls outside
    the configured vocabularies; partially valid output is not accepted.
    The result is the [transcript] field of the parsed object. *)
Definition create_validated_transcript_parser
    (parse : Text -> Exn + list Dialogue)
    (speaker_names emotions_names speed_names : list string)
    (raw : Text) : Exn + list Dialogue :=
  match parse raw with
  | inl e => inl e
  | inr lines =>
      if forallb (dialogue_valid speaker_names emotions_names speed_names) lines
      then inr lines
      else inl (ValueError "transcript names an unknown speaker, emotion or speed")
  end.

(** ** nodes.py: generate_outline_node

    Message texts that the source writes in Chinese are given in English. *)

Definition outline_attempt (core : Core) (r : Exn + AIMessage) : Exn + Outline :=
  match r with
  | inl e => inl e
  | inr outline_preview =>
      outline_parser core (clean_thinking_content core (content outline_preview))
  end.

Definition outline_fatal (e : Exn) : Exn :=
  RuntimeError "Outline parsing failed three times" e.

Definition generate_outline_node (core : Core) (state : PodcastState)
    (config : Configurable) : Coro Outline :=
  log INFO (other_msg "generate outline state keys");;
  log INFO (other_msg "Starting outline generation");;
  let outline_provider := default "openai" (cfg_outline_provider config) in
  let outline_model_name := default "gpt-4o-mini" (cfg_outline_model config) in
  outline_model ← create_language outline_provider outline_model_name 3000 true;
  let outline_prompt_text :=
    outline_prompt
      {| od_briefing := st_briefing state;
         od_num_segments := st_num_segments state;
         od_context := st_content state;
         od_language := st_language state;
         od_speakers := match st_speaker_profile state with
                        | Some p => speakers p
                        | None => []
                        end |} in
  outline_result ←
    for_loop (seq 0 3)
      (fun attempt (outline_result : option Outline) =>
         try_except
           (outline_preview ← ainvoke outline_model outline_prompt_text;
            parsed ← lift_result
              (outline_parser core
                 (clean_thinking_content core (content outline_preview)));
            mret (Break, Some parsed))
           (fun e =>
              log WARNING (outline_parse_failed (attempt + 1) e);;
              if (attempt =? 2)%nat then Raise (outline_fatal e)
              else sleep 1;; mret (Continue, outline_result)))
      None;
  match outline_result with
  | None => Raise (UnboundLocalError "outline_result")
  | Some outline_result =>
      log INFO (outline_generated (length (segments outline_result)));;
      mret outline_result
  end.

(** ** nodes.py: generate_transcript_node *)

Definition create_text_to_speech (provider model : string)
  : Coro (option TTSCapability) :=
  Vis (CCreateTts provider model) lift_result.

Definition py_assert (b : bool) (msg : string) : Coro unit :=
  if b then mret tt else Raise (AssertionError msg).

Definition turns_of (sz : string) : nat :=
  if String.eqb sz "short" then 2 else if String.eqb sz "medium" then 5 else 8.

Definition transcript_fatal (e : Exn) : Exn :=
  RuntimeError "Transcript parsing failed three times" e.

(** The values one segment's prompt is rendered with. *)
Record TranscriptEnv := {
  te_state : PodcastState;
  te_outline : Outline;
  te_profile : SpeakerProfile;
  te_emotions : EmotionConfig;
  te_speeds : SpeedConfig;
  te_supports_voice_tags : bool;
  te_available_voice_tags : list string
}.

Definition segment_prompt (env : TranscriptEnv) (i : nat) (segment : Segment)
  : Prompt :=
  let n := length (segments (te_outline env)) in
  let is_final := (i =? n - 1)%nat in
  let is_first := (i =? 0)%nat in
  let is_middle := negb is_first && negb is_final in
  transcript_prompt
    {| td_briefing := st_briefing (te_state env);
       td_outline := te_outline env;
       td_context := st_content (te_state env);
       td_segment := segment;
       td_is_final := is_final;
       td_is_first := is_first;
       td_is_middle := is_middle;
       td_turns := turns_of (size segment);
       td_language := st_language (te_state env);
       td_dialect := st_dialect (te_state env);
       td_speakers := speakers (te_profile env);
       td_speaker_names := get_speaker_names (te_profile env);
       td_emotions := get_all_emotions (te_emotions env);
       td_emotions_names := get_emotions_names (te_emotions env);
       td_speed_names := get_speed_names (te_speeds env);
       td_supports_voice_tags := te_supports_voice_tags env;
       td_available_voice_tags := te_available_voice_tags env |}.

Definition validated_transcript_parser (core : Core) (env : TranscriptEnv)
  : Text -> Exn + list Dialogue :=
  create_validated_transcript_parser (transcript_parser core)
    (get_speaker_names (te_profile env))
    (get_emotions_names (te_emotions env))
    (get_speed_names (te_speeds env)).

Definition transcript_attempt (core : Core) (env : TranscriptEnv)
    (r : Exn + AIMessage) : Exn + list Dialogue :=
  match r with
  | inl e => inl e
  | inr transcript_preview =>
      validated_transcript_parser core env
        (clean_thinking_content core (content transcript_preview))
  end.

(** The body of the loop over the outline's segments. *)
Definition transcript_segment (core : Core) (env : TranscriptEnv)
    (transcript_model : string * string) (entry : nat * Segment)
    (transcript : list Dialogue) : Coro (LoopCtl * list Dialogue) :=
  let '(i, segment) := entry in
  log INFO (segment_started (i + 1) (length (segments (te_outline env)))
                            (seg_name segment));;
  let transcript_prompt_rendered := segment_prompt env i segment in
  transcript ←
    for_loop (seq 0 3)
      (fun attempt (transcript : list Dialogue) =>
         try_except
           (transcript_preview ← ainvoke transcript_model transcript_prompt_rendered;
            result ← lift_result
              (validated_transcript_parser core env
                 (clean_thinking_content core (content transcript_preview)));
            log INFO (transcript_parsed (length result));;
            mret (Break, transcript ++ result))
           (fun e =>
              log WARNING (transcript_parse_failed (attempt + 1) e);;
              if (attempt =? 2)%nat then Raise (transcript_fatal e)
              else sleep 1;; mret (Continue, transcript)))
      transcript;
  mret (Continue, transcript).

Fixpoint enumerate_from {A} (i : nat) (l : list A) : list (nat * A) :=
  match l with
  | [] => []
  | x :: l' => (i, x) :: enumerate_from (S i) l'
  end.

Definition enumerate {A} (l : list A) : list (nat * A) := enumerate_from 0 l.

Definition generate_transcript_node (core : Core) (state : PodcastState)
    (config : Configurable) : Coro (list Dialogue) :=
  log INFO (other_msg "generate transcript state keys");;
  log INFO (other_msg "Starting transcript generation");;
  py_assert (bool_decide (is_Some (st_outline state))) "outline must be provided";;
  py_assert (bool_decide (is_Some (st_speaker_profile state)))
            "speaker_profile must be provided";;
  let transcript_provider := default "openai" (cfg_transcript_provider config) in
  let transcript_model_name := default "gpt-4o-mini" (cfg_transcript_model config) in
  transcript_model ← create_language transcript_provider transcript_model_name 5000 true;
  match st_speaker_profile state, st_emotions_config state,
        st_speed_config state, st_outline state with
  | None, _, _, _ => Raise (AssertionError "speaker_profile must be provided")
  | Some _, None, _, _ => Raise (AssertionError "emotions_config must be provided")
  | Some _, Some _, None, _ => Raise (AssertionError "speed_config must be provided")
  | Some _, Some _, Some _, None => Raise (AssertionError "outline must be provided")
  | Some speaker_profile, Some emotions_config, Some speed_config, Some outline =>
      caps ← try_except
        (capability ← create_text_to_speech (tts_provider speaker_profile)
                                            (tts_model speaker_profile);
         match capability with
         | Some capability =>
             log INFO (capability_found (tts_provider speaker_profile)
                                        (supports_voice_tags capability));;
             mret (supports_voice_tags capability,
                   default [] (available_voice_tags capability))
         | None => mret (false, [])
         end)
        (fun e =>
           log WARNING (capability_failed (tts_provider speaker_profile) e);;
           mret (false, []));
      let env := {| te_state := state; te_outline := outline;
                    te_profile := speaker_profile;
                    te_emotions := emotions_config; te_speeds := speed_config;
                    te_supports_voice_tags := fst caps;
                    te_available_voice_tags := snd caps |} in
      transcript ←
        for_loop (enumerate (segments outline))
                 (transcript_segment core env transcript_model) [];
      log INFO (transcript_generated (length transcript));;
      mret transcript
  end.

(** ** Retry loops as seen in a trace

    The attempts (a call with its answer) and the pauses of a trace. *)
Inductive Beat (Q R : Type) : Type :=
| Attempt (q : Q) (r : R)
| Pause (secs : nat).

Arguments Attempt {Q R} q r.
Arguments Pause {Q R} secs.

Definition model_beat (e : Event) : option (Beat Prompt (Exn + AIMessage)) :=
  match e with
  | Ev c r =>
      match c return ret_ty c -> option (Beat Prompt (Exn + AIMessage)) with
      | CInvoke _ _ p => fun r => Some (Attempt p r)
      | CSleep n => fun _ => Some (Pause n)
      | _ => fun _ => None
      end r
  end.

Definition model_beats (t : Trace) : list (Beat Prompt (Exn + AIMessage)) :=
  omap model_beat t.

(** [retry_rule pause q res fatal n beats o]: a loop that may still make
    [n] attempts at the call [q] makes them one after the other, pauses
    [pause] seconds after each failed attempt but the last, returns at the
    first attempt whose answer [res] accepts, and raises [fatal] of the
    last error when the last attempt fails too. *)
Inductive retry_rule {Q R A} (pause : nat) (q : Q) (res : R -> Exn + A)
    (fatal : Exn -> Exn) : nat -> list (Beat Q R) -> Outcome A -> Prop :=
| retry_ok n r a :
    res r = inr a ->
    retry_rule pause q res fatal (S n) [Attempt q r] (Returned a)
| retry_last r e :
    res r = inl e ->
    retry_rule pause q res fatal 1 [Attempt q r] (Raised (fatal e))
| retry_again n r e beats o :
    res r = inl e ->
    retry_rule pause q res fatal (S n) beats o ->
    retry_rule pause q res fatal (S (S n)) (Attempt q r :: Pause pause :: beats) o.

(** The rule for the segments of an outline from index [i] on: each
    segment has its own retry loop on its own prompt, the loops follow
    one another in segment order, the accepted batches are appended in
    that order, and the run stops at the first segment whose loop fails. *)
Inductive segments_rule (core : Core) (env : TranscriptEnv)
  : nat -> list Segment -> list (Beat Prompt (Exn + AIMessage)) ->
    Outcome (list Dialogue) -> Prop :=
| segments_nil i : segments_rule core env i [] [] (Returned [])
| segments_ok i segment rest beats batch beats' o :
    retry_rule 1 (segment_prompt env i segment) (transcript_attempt core env)
               transcript_fatal 3 beats (Returned batch) ->
    segments_rule core env (S i) rest beats' o ->
    segments_rule core env i (segment :: rest) (beats ++ beats')
      (match o with
       | Returned later => Returned (batch ++ later)
       | Raised e => Raised e
       end)
| segments_fail i segment rest beats e :
    retry_rule 1 (segment_prompt env i segment) (transcript_attempt core env)
               transcript_fatal 3 beats (Raised e) ->
    segments_rule core env i (segment :: rest) beats (Raised e).

(** ** nodes.py: generate_single_audio_clip *)

(** [f"{index:04d}"]: the decimal digits, padded with zeros on the left
    to a width of four (the sign of a negative number counts). *)
Definition decimal (n : nat) : string := NilZero.string_of_uint (Nat.to_uint n).

Fixpoint zeros (n : nat) : string :=
  match n with
  | O => ""
  | S n' => String "0"%char (zeros n')
  end.

Definition zfill (width : nat) (s : string) : string :=
  zeros (width - String.length s) ++ s.

Definition format_04d (index : Z) : string :=
  if (index <? 0)%Z then "-" ++ zfill 3 (decimal (Z.abs_nat index))
  else zfill 4 (decimal (Z.to_nat index)).

(** The number a string of decimal digits denotes. *)
Definition decimal_value (s : string) : option nat :=
  Nat.of_uint <$> NilZero.uint_of_string s.

(** [output_dir / "clips" / f"{index:04d}.mp3"] *)
Definition clip_file (output_dir : Path) (index : Z) : Path :=
  output_dir // "clips" // (format_04d index ++ ".mp3")%string.

Record DialogueInfo := {
  di_dialogue : Dialogue;
  di_index : Z;
  di_output_dir : Path;
  di_tts_provider : string;
  di_tts_model : string;
  di_voices : gmap string string;
  di_custom_voices : gmap string string;
  di_speaker_profile : SpeakerProfile;
  di_dialect : option string
}.

Definition audio_fatal (index : Z) (e : Exn) : Exn :=
  RuntimeError ("Audio generation failed after 5 attempts for clip "
                ++ format_04d index)%string e.

(** [await tts_model.agenerate_speech(text=..., voice=..., output_file=...,
    **tts_kwargs)] *)
Definition agenerate_speech (provider model : string) (req : SpeechRequest)
  : Coro unit :=
  Vis (CSpeech provider model req) lift_result.

Definition generate_single_audio_clip (dialogue_info : DialogueInfo)
    (emotions_config : option EmotionConfig) (speed_config : option SpeedConfig)
  : Coro Path :=
  let dialogue_ := di_dialogue dialogue_info in
  let index := di_index dialogue_info in
  let output_dir := di_output_dir dialogue_info in
  let voices := di_voices dialogue_info in
  let custom_voices := di_custom_voices dialogue_info in
  log INFO (clip_started index (speaker dialogue_));;
  let clips_dir := output_dir // "clips" in
  Vis (CMkdir clips_dir) lift_result;;
  let filename := (format_04d index ++ ".mp3")%string in
  let clip_path := clips_dir // filename in
  _ ← create_text_to_speech (di_tts_provider dialogue_info)
                            (di_tts_model dialogue_info);
  let tts_kwargs := no_kwargs in
  tts_kwargs ←
    (if truthy (emotion dialogue_) then
       log DEBUG (emotion_used (default "" (emotion dialogue_)));;
       mret {| instructions := emotion dialogue_;
               reference_audio := reference_audio tts_kwargs;
               kw_dialect := kw_dialect tts_kwargs |}
     else mret tts_kwargs);
  let speaker_name := speaker dialogue_ in
  tts_kwargs ←
    (if truthy (custom_voices !! speaker_name) then
       let custom_voice_path := default "" (custom_voices !! speaker_name) in
       (* [Path(custom_voice_path).exists()] raises [OSError] for a string
          that the file system does not take as a path. *)
       present ← Vis (CExists custom_voice_path) lift_result;
       if (present : bool) then
         b64_data ← Vis (CReadBase64 custom_voice_path) lift_result;
         log DEBUG (custom_voice_used custom_voice_path);;
         mret {| instructions := instructions tts_kwargs;
                 reference_audio := Some b64_data;
                 kw_dialect := kw_dialect tts_kwargs |}
       else
         log DEBUG (custom_voice_used custom_voice_path);;
         mret {| instructions := instructions tts_kwargs;
                 reference_audio := Some custom_voice_path;
                 kw_dialect := kw_dialect tts_kwargs |}
     else mret tts_kwargs);
  let voice_id := default "default" (voices !! speaker_name) in
  let dialect := di_dialect dialogue_info in
  tts_kwargs ←
    (if truthy dialect then
       log DEBUG (dialect_used (default "" dialect));;
       mret {| instructions := instructions tts_kwargs;
               reference_audio := reference_audio tts_kwargs;
               kw_dialect := dialect |}
     else mret tts_kwargs);
  for_loop (seq 0 5)
    (fun attempt (_ : unit) =>
       try_except
         (agenerate_speech (di_tts_provider dialogue_info)
                           (di_tts_model dialogue_info)
            {| sr_text := dialogue dialogue_; sr_voice := voice_id;
               sr_output_file := clip_path; sr_kwargs := tts_kwargs |};;
          log INFO (clip_generated clip_path);;
          mret (Break, tt))
         (fun e =>
            log WARNING (clip_attempt_failed index (attempt + 1) e);;
            if (attempt =? 4)%nat then
              log ERROR (clip_failed index);;
              Raise (audio_fatal index e)
            else sleep 3;; mret (Continue, tt)))
    tt;;
  mret clip_path.

(** The synthesis attempts and the pauses of a trace. *)
Definition speech_beat (e : Event) : option (Beat SpeechRequest (Exn + unit)) :=
  match e with
  | Ev c r =>
      match c return ret_ty c -> option (Beat SpeechRequest (Exn + unit)) with
      | CSpeech _ _ req => fun r => Some (Attempt req r)
      | CSleep n => fun _ => Some (Pause n)
      | _ => fun _ => None
      end r
  end.

Definition speech_beats (t : Trace) : list (Beat SpeechRequest (Exn + unit)) :=
  omap speech_beat t.

(** The requests of the synthesis calls of a trace. *)
Definition attempt_request {Q R} (b : Beat Q R) : option Q :=
  match b with
  | Attempt q _ => Some q
  | Pause _ => None
  end.

Definition speech_requests (t : Trace) : list SpeechRequest :=
  omap attempt_request (speech_beats t).

(** What one synthesis attempt yields for the clip at [path]. *)
Definition clip_attempt (path : Path) (r : Exn + unit) : Exn + Path :=
  match r with
  | inl e => inl e
  | inr _ => inr path
  end.

(** The request a clip's synthesis calls are made with, given the
    reference audio that was resolved for the speaker. *)
Definition clip_request (info : DialogueInfo) (ref : option string)
  : SpeechRequest :=
  {| sr_text := dialogue (di_dialogue info);
     sr_voice := default "default" (di_voices info !! speaker (di_dialogue info));
     sr_output_file := clip_file (di_output_dir info) (di_index info);
     sr_kwargs :=
       {| instructions := if truthy (emotion (di_dialogue info))
                          then emotion (di_dialogue info) else None;
          reference_audio := ref;
          kw_dialect := if truthy (di_dialect info)
                        then di_dialect info else None |} |}.

(** The preparations of a clip that can fail: making the directory,
    creating the speech model and, for a speaker with a custom voice,
    testing for the file and reading it. *)
Definition clip_setup (info : DialogueInfo) : list Cmd :=
  let custom := di_custom_voices info !! speaker (di_dialogue info) in
  [CMkdir (di_output_dir info // "clips");
   CCreateTts (di_tts_provider info) (di_tts_model info)]
  ++ (if truthy custom
      then [CExists (default "" custom); CReadBase64 (default "" custom)]
      else []).

(** A preparation that failed: its command and the error it answered. *)
Definition setup_failure (e : Event) : option (Cmd * Exn) :=
  match e with
  | Ev c r =>
      match c return ret_ty c -> option (Cmd * Exn) with
      | CMkdir p =>
          fun r => match r with inl e => Some (CMkdir p, e) | inr _ => None end
      | CCreateTts provider model =>
          fun r => match r with
                   | inl e => Some (CCreateTts provider model, e)
                   | inr _ => None
                   end
      | CExists p =>
          fun r => match r with inl e => Some (CExists p, e) | inr _ => None end
      | CReadBase64 p =>
          fun r => match r with
                   | inl e => Some (CReadBase64 p, e)
                   | inr _ => None
                   end
      | _ => fun _ => None
      end r
  end.

(** The existence tests and the file reads of a trace, each with the
    path and the answer. *)
Definition exists_call (e : Event) : option (string * (Exn + bool)) :=
  match e with
  | Ev c r =>
      match c return ret_ty c -> option (string * (Exn + bool)) with
      | CExists p => fun r => Some (p, r)
      | _ => fun _ => None
      end r
  end.

Definition read_call (e : Event) : option (string * (Exn + string)) :=
  match e with
  | Ev c r =>
      match c return ret_ty c -> option (string * (Exn + string)) with
      | CReadBase64 p => fun r => Some (p, r)
      | _ => fun _ => None
      end r
  end.

(** The reference audio of a clip's requests, as a run resolved it from
    the speaker's custom voice: none without a custom voice; the base64
    text of the file when the one existence test answered that the
    custom voice names a file; the configured string itself when the test
    answered that it names none. *)
Definition reference_resolved (custom : option string) (t : Trace)
    (ref : option string) : Prop :=
  match custom with
  | Some voice =>
      if truthy custom then
        (exists b64, omap exists_call t = [(voice, inr true)] /\
                     omap read_call t = [(voice, inr b64)] /\
                     ref = Some b64) \/
        (omap exists_call t = [(voice, inr false)] /\
         omap read_call t = [] /\ ref = Some voice)
      else ref = None
  | None => ref = None
  end.

(** ** llm/dialect_utils.py *)

(** The text of an ASCII string. *)
Definition text_of (s : string) : Text :=
  map Ascii.N_of_ascii (String.list_ascii_of_string s).

Definition DIALECT_TAGS : Dict string :=
  [("sichuan", "<|Sichuan|>"); ("sichuanese", "<|Sichuan|>");
   ("henan", "<|Henan|>"); ("henanese", "<|Henan|>");
   ("yue", "<|Yue|>"); ("yueyu", "<|Yue|>"); ("cantonese", "<|Yue|>");
   ("shanghainese", "<|Shanghai|>"); ("mandarin", ""); ("chinese", "")].

Fixpoint remove_first_tag (tags : list string) (t : Text) : Text :=
  match tags with
  | [] => t
  | tag :: tags' =>
      if negb (String.eqb tag "") && startswith t (text_of tag)
      then lstrip (drop (length (text_of tag)) t)
      else remove_first_tag tags' t
  end.

Definition remove_dialect_tag (t : Text) : Text :=
  remove_first_tag (dict_values DIALECT_TAGS) t.

(** ** llm/tts.py: KokoroTTSWrapper *)

(** The server's configuration and installation, as the wrapper reads
    them: [config.VOICE_MAPPINGS], and whether [dialect_utils] imports. *)
Record ServiceConfig := {
  VOICE_MAPPINGS : Dict (Dict string);
  dialect_utils_present : bool
}.

(** [re.search(r'[一-鿿]', text)] *)
Definition has_cjk (t : Text) : bool :=
  existsb (fun c => (19968 <=? c) && (c <=? 40959))%N t.

Definition _detect_language (t : Text) : Coro string :=
  if has_cjk t then mret "zh"
  else
    try_except
      (lang ← Vis (CDetect t) lift_result;
       if String.eqb lang "zh-cn" || String.eqb lang "zh-tw"
       then mret "zh" else mret "en")
      (fun e => log WARNING (other_msg "Language detection failed");;
                mret "auto").

(** [d[k]], raising [KeyError] *)
Definition dict_item {V} (d : Dict V) (k : string) : Coro V :=
  match dict_get d k with
  | Some v => mret v
  | None => Raise (KeyError k)
  end.

(** [AudioConverter.convert_format]: a failed conversion falls back to
    the WAV data. *)
Definition convert_format (wav_data : list N) (target_format : string)
    (sampling_rate : N) : Coro (list N * string) :=
  try_except
    (Vis (CConvert wav_data target_format sampling_rate) lift_result)
    (fun e => log ERROR (other_msg "Error converting audio format");;
              mret (wav_data, "audio/wav")).

Record SpeechArgs := {
  sa_text : Text;
  sa_voice : string;
  sa_output_format : string;
  sa_instructions : option string;
  sa_reference_audio : option string;
  sa_reference_text : option string;
  sa_speed : option float;
  sa_dialect : option string;
  sa_dialect_prompt : option string
}.

Definition kokoro_generate_speech (config : ServiceConfig) (a : SpeechArgs)
  : Coro (list N * string) :=
  try_except
    (processed_text ←
       (if dialect_utils_present config then
          let processed_text := remove_dialect_tag (sa_text a) in
          (if negb (bool_decide (processed_text = sa_text a))
           then log INFO (dialect_tag_removed "Kokoro") else mret tt);;
          mret processed_text
        else mret (sa_text a));
     detected_lang ← _detect_language processed_text;
     log INFO (language_detected detected_lang);;
     voice_map ← dict_item (VOICE_MAPPINGS config)
                   (if String.eqb detected_lang "zh" then "kokoro_zh" else "kokoro");
     fallback ← dict_item voice_map "default";
     let kokoro_voice := default fallback (dict_get voice_map (sa_voice a)) in
     log INFO (voice_chosen kokoro_voice);;
     (if truthy (sa_instructions a)
      then log INFO (instructions_unused "Kokoro") else mret tt);;
     (if truthy (sa_dialect a)
      then log WARNING (dialect_unsupported "Kokoro" (default "" (sa_dialect a)))
      else mret tt);;
     audio_array ← Vis (CKokoroModel processed_text kokoro_voice detected_lang
                                     (sa_speed a)) lift_result;
     log INFO (other_msg "Inference time");;
     wav_data ← Vis (CWavWrite 24000%N audio_array) lift_result;
     if negb (String.eqb (sa_output_format a) "wav")
     then convert_format wav_data (sa_output_format a) 24000%N
     else mret (wav_data, "audio/wav"))
    (fun e => log ERROR (backend_error "Kokoro" e);; Raise e).

(** ** providers/qwen_tts.py: QWenTextToSpeechModel *)

Record AudioResponse := {
  audio_data : list N;
  content_type : string;
  ar_model : string;
  ar_voice : string;
  ar_provider : string
}.

Definition qwen_failure (e : Exn) : Exn :=
  RuntimeError "Failed to generate speech" e.

(** [kwargs] holds the scheduler's options; it has no ["language_type"],
    so the pop yields its default ["Auto"]; the other options are dropped. *)
Definition qwen_generate_speech (model_name : string) (req : SpeechRequest)
  : Coro AudioResponse :=
  try_except
    (let language_type := "Auto" in
     print (other_msg "Qwen TTS request");;
     audio_url ← Vis (CDashScope model_name (sr_text req) (sr_voice req)
                                 language_type) lift_result;
     print (other_msg "Qwen TTS response");;
     audio_bytes ← Vis (CHttpGet audio_url) lift_result;
     Vis (CWriteBytes (sr_output_file req) audio_bytes) lift_result;;
     mret {| audio_data := audio_bytes; content_type := "audio/wav";
             ar_model := model_name; ar_voice := sr_voice req;
             ar_provider := "qwen" |})
    (fun e => log ERROR (backend_error "Qwen" e);; Raise (qwen_failure e)).

(** The [capability] property of the Qwen provider. *)
Definition qwen_capability : TTSCapability :=
  {| supported_languages := ["zh"; "en"];
     supports_instructions := false;
     supports_custom_voice := false;
     default_voices := ["Cherry"; "Jennifer"; "Katerina"; "Elias"; "Jada";
                        "Sunny"; "Kiki"; "Ethan"; "Nofish"; "Ryan"; "Dylan";
                        "Li"; "Marcus"; "Roy"; "Peter"; "Rocky"; "Eric"];
     supports_voice_tags := false;
     supported_dialects := Some ["mandarin"];
     available_voice_tags := Some [] |}.

(** A dialect the capability descriptor does not list. *)
Definition dialect_supported (cap : TTSCapability) (d : string) : bool :=
  name_in d (default [] (supported_dialects cap)).

(** The synthesis commands a back end issued to its engine. *)
Definition engine_call (e : Event) : option Cmd :=
  match e with
  | Ev (CKokoroModel t v l sp) _ => Some (CKokoroModel t v l sp)
  | Ev (CDashScope m t v l) _ => Some (CDashScope m t v l)
  | _ => None
  end.

Definition engine_calls (t : Trace) : list Cmd := omap engine_call t.

Definition succeeded {A} (r : Exn + A) : Prop :=
  match r with
  | inl _ => False
  | inr _ => True
  end.

(** Every collaborator that can fail answered with a value. *)
Definition answered (e : Event) : Prop :=
  match e with
  | Ev c r =>
      match c return ret_ty c -> Prop with
      | CLog _ _ | CPrint _ | CSleep _ | CPick _ => fun _ => True
      | CExists _ => fun r => succeeded r
      | CCreateLanguage _ _ _ _ => fun r => succeeded r
      | CInvoke _ _ _ => fun r => succeeded r
      | CCreateTts _ _ => fun r => succeeded r
      | CSpeech _ _ _ => fun r => succeeded r
      | CMkdir _ => fun r => succeeded r
      | CReadBase64 _ => fun r => succeeded r
      | CDetect _ => fun r => succeeded r
      | CKokoroModel _ _ _ _ => fun r => succeeded r
      | CWavWrite _ _ => fun r => succeeded r
      | CConvert _ _ _ => fun r => succeeded r
      | CDashScope _ _ _ _ => fun r => succeeded r
      | CHttpGet _ => fun r => succeeded r
      | CWriteBytes _ _ => fun r => succeeded r
      end r
  end.

(** The configuration has the voice tables the Kokoro wrapper reads. *)
Definition voices_configured (config : ServiceConfig) : Prop :=
  forall group, group = "kokoro" \/ group = "kokoro_zh" ->
    exists voice_map fallback,
      dict_get (VOICE_MAPPINGS config) group = Some voice_map /\
      dict_get voice_map "default" = Some fallback.

(** ** asyncio.gather

    [gather] runs its tasks interleaved: at every step the event loop
    picks one unfinished task, which performs its next command.  The
    first exception a task raises is raised by [gather] at once; when all
    tasks have returned, [gather] returns their results in task order.
    The steps are counted down from [fuel]; [None] reports that the count
    was too small. *)
Inductive Status (B : Type) : Type :=
| AllDone (results : list B)
| Failed (e : Exn)
| Running (pending : list nat).

Arguments AllDone {B} results.
Arguments Failed {B} e.
Arguments Running {B} pending.

(** The state of the tasks, the first of which has position [i]. *)
Fixpoint status_from {B} (i : nat) (tasks : list (Coro B)) : Status B :=
  match tasks with
  | [] => AllDone []
  | task :: rest =>
      match task, status_from (S i) rest with
      | Raise e, _ => Failed e
      | _, Failed e => Failed e
      | Ret b, AllDone results => AllDone (b :: results)
      | Ret _, Running pending => Running pending
      | Vis _ _, AllDone _ => Running [i]
      | Vis _ _, Running pending => Running (i :: pending)
      end
  end.

Fixpoint gather_steps {B} (fuel : nat) (tasks : list (Coro B))
  : Coro (option (list B)) :=
  match status_from 0 tasks with
  | Failed e => Raise e
  | AllDone results => Ret (Some results)
  | Running pending =>
      match fuel with
      | O => Ret None
      | S fuel' =>
          Vis (CPick pending)
              (fun choice : nat =>
                 let i := nth (choice mod length pending) pending 0%nat in
                 match tasks !! i with
                 | Some (Vis c k) =>
                     Vis c (fun r => gather_steps fuel' (<[i := k r]> tasks))
                 | _ => Ret None
                 end)
      end
  end.

(** An upper bound on the commands one clip task performs. *)
Definition clip_steps : nat := 32.

Definition gather (tasks : list (Coro Path)) : Coro (option (list Path)) :=
  gather_steps (clip_steps * length tasks) tasks.

(** ** nodes.py: generate_all_audio_node *)

(** [range(start, stop, step)]; [None] is the [ValueError] for a zero step. *)
Definition py_range (start stop step : Z) : option (list Z) :=
  if (step =? 0)%Z then None
  else
    let n := if (0 <? step)%Z then (stop - start + step - 1) / step
             else (start - stop - step - 1) / (- step) in
    Some (map (fun k => start + Z.of_nat k * step) (seq 0 (Z.to_nat n))).

(** [range(start, stop)] *)
Definition py_range1 (start stop : Z) : list Z :=
  map (fun k => start + Z.of_nat k) (seq 0 (Z.to_nat (stop - start))).

(** [l[i]]; a negative index counts from the end, [None] is [IndexError]. *)
Definition py_getitem {A} (l : list A) (i : Z) : option A :=
  if (i <? 0)%Z then
    if (Z.of_nat (length l) + i <? 0)%Z then None
    else l !! Z.to_nat (Z.of_nat (length l) + i)
  else l !! Z.to_nat i.

(** The values of the node that stay the same over the batches. *)
Record AudioEnv := {
  ae_transcript : list Dialogue;
  ae_output_dir : Path;
  ae_emotions_config : option EmotionConfig;
  ae_speed_config : option SpeedConfig;
  ae_batch_size : Z;
  ae_speaker_profile : SpeakerProfile;
  ae_dialect : option string
}.

Definition dialogue_info_of (env : AudioEnv) (i : Z) (line : Dialogue)
  : DialogueInfo :=
  {| di_dialogue := line; di_index := i;
     di_output_dir := ae_output_dir env;
     di_tts_provider := tts_provider (ae_speaker_profile env);
     di_tts_model := tts_model (ae_speaker_profile env);
     di_voices := get_voice_mapping (ae_speaker_profile env);
     di_custom_voices := get_custom_voice_mapping (ae_speaker_profile env);
     di_speaker_profile := ae_speaker_profile env;
     di_dialect := ae_dialect env |}.

(** The tasks created for the lines [batch_start .. batch_end - 1]. *)
Definition batch_tasks_of (env : AudioEnv) (batch_start batch_end : Z)
  : option (list (Coro Path)) :=
  mapM (fun i =>
          line ← py_getitem (ae_transcript env) i;
          Some (generate_single_audio_clip (dialogue_info_of env i line)
                  (ae_emotions_config env) (ae_speed_config env)))
       (py_range1 batch_start batch_end).

(** The body of the loop over the batch starts; the loop variable is
    [all_clip_paths], or [None] once a [gather] ran out of steps. *)
Definition audio_batch (env : AudioEnv) (batch_start : Z)
    (all_clip_paths : option (list Path))
  : Coro (LoopCtl * option (list Path)) :=
  let total_segments := Z.of_nat (length (ae_transcript env)) in
  let batch_size := ae_batch_size env in
  match all_clip_paths with
  | None => mret (Break, None)
  | Some all_clip_paths =>
      let batch_end := Z.min (batch_start + batch_size) total_segments in
      let batch_number := batch_start / batch_size + 1 in
      let total_batches := (total_segments + batch_size - 1) / batch_size in
      log INFO (batch_started batch_number total_batches batch_start
                              (batch_end - 1));;
      match batch_tasks_of env batch_start batch_end with
      | None => Raise IndexError
      | Some batch_tasks =>
          batch_clip_paths ← gather batch_tasks;
          match batch_clip_paths with
          | None => mret (Break, None)
          | Some batch_clip_paths =>
              log INFO (batch_completed batch_number total_batches);;
              (if (batch_end <? total_segments)%Z then sleep 1 else mret tt);;
              mret (Continue, Some (all_clip_paths ++ batch_clip_paths))
          end
      end
  end.

(** What the node reads from the state before its loop. *)
Definition audio_env (state : PodcastState) (batch_size : Z)
    (profile : SpeakerProfile) : AudioEnv :=
  {| ae_transcript := st_transcript state;
     ae_output_dir := st_output_dir state;
     ae_emotions_config := st_emotions_config state;
     ae_speed_config := st_speed_config state;
     ae_batch_size := batch_size;
     ae_speaker_profile := profile;
     ae_dialect := st_dialect state |}.

(** [TTS_BATCH_SIZE] is the value of the environment variable, read as
    an integer, when it is set. *)
Definition generate_all_audio_node (state : PodcastState)
    (TTS_BATCH_SIZE : option Z) : Coro (option (list Path)) :=
  let transcript := st_transcript state in
  let total_segments := Z.of_nat (length transcript) in
  let batch_size := default 5 TTS_BATCH_SIZE in
  log INFO (batch_size_used batch_size);;
  match st_speaker_profile state with
  | None => Raise (AssertionError "speaker_profile must be provided")
  | Some speaker_profile =>
      let env := audio_env state batch_size speaker_profile in
      log INFO (generating_clips total_segments batch_size);;
      match py_range 0 total_segments batch_size with
      | None => Raise (ValueError "range() arg 3 must not be zero")
      | Some batch_starts =>
          all_clip_paths ← for_loop batch_starts (audio_batch env) (Some []);
          match all_clip_paths with
          | None => mret None
          | Some all_clip_paths =>
              log INFO (all_clips_generated (length all_clip_paths));;
              mret (Some all_clip_paths)
          end
      end
  end.

(** The batches the node schedules: the index lists of its [gather]s. *)
Definition schedule (total batch_size : Z) : list (list Z) :=
  map (fun batch_start =>
         py_range1 batch_start (Z.min (batch_start + batch_size) total))
      (default [] (py_range 0 total batch_size)).

(** The events that mark a line's start and its end in a trace: the
    first log record of its task, and the record of its clip or of its
    final failure. *)
Definition starts_line (e : Event) : option Z :=
  match e with
  | Ev (CLog INFO (clip_started index _)) _ => Some index
  | _ => None
  end.

Definition line_finished (output_dir : Path) (index : Z) (e : Event) : Prop :=
  e = Ev (CLog INFO (clip_generated (clip_file output_dir index))) tt \/
  e = Ev (CLog ERROR (clip_failed index)) tt.

(** No line of a later batch starts before every line of an earlier
    batch has finished. *)
Definition batches_in_order (output_dir : Path) (batches : list (list Z))
    (t : Trace) : Prop :=
  forall p q earlier later i j pre e post,
    (p < q)%nat -> batches !! p = Some earlier -> batches !! q = Some later ->
    i ∈ earlier -> j ∈ later ->
    t = pre ++ e :: post -> starts_line e = Some j ->
    exists e', e' ∈ pre /\ line_finished output_dir i e'.

(** The lines started in a trace, batch by batch.  A batch begins at
    each announcement of one (the record "Processing batch ..."), and
    holds the lines started from there up to the next announcement, in
    the order in which they started.  [batch_step] keeps the batches
    latest first, each with its latest line first. *)
Definition cmd_announces (c : Cmd) : bool :=
  match c with
  | CLog INFO (batch_started _ _ _ _) => true
  | _ => false
  end.

Definition announces_batch (e : Event) : bool :=
  match e with
  | Ev c _ => cmd_announces c
  end.

Definition batch_step (bs : list (list Z)) (e : Event) : list (list Z) :=
  if announces_batch e then [] :: bs
  else match starts_line e, bs with
       | Some j, current :: earlier => (j :: current) :: earlier
       | _, _ => bs
       end.

Definition batches_started (t : Trace) : list (list Z) :=
  reverse (reverse <$> foldl batch_step [] t).

(** ** What a task does, whatever it is answered

    [obeys P Q R seen task]: every event of [task] satisfies [P]; when
    [task] returns, its result satisfies [R] and an event satisfying [Q]
    has been seen, before the task or among its own events. *)
Fixpoint obeys {B} (P Q : Event -> Prop) (R : B -> Prop) (seen : Prop)
    (task : Coro B) : Prop :=
  match task with
  | Ret b => seen /\ R b
  | Raise _ => True
  | Vis c k => forall r, P (Ev c r) /\ obeys P Q R (seen \/ Q (Ev c r)) (k r)
  end.

(** [bounded n task]: [task] performs at most [n] commands. *)
Fixpoint bounded {B} (n : nat) (task : Coro B) : Prop :=
  match task with
  | Ret _ | Raise _ => True
  | Vis _ k =>
      match n with
      | O => False
      | S n' => forall r, bounded n' (k r)
      end
  end.

Definition is_pick (e : Event) : Prop :=
  match e with
  | Ev (CPick _) _ => True
  | _ => False
  end.

(** The line a command starts.  [silent task]: [task] starts no line and
    announces no batch.  [starts_once task]: [task] does so at most with
    its first command, which can start a line, [pending_start task]. *)
Definition cmd_start (c : Cmd) : option Z :=
  match c with
  | CLog INFO (clip_started index _) => Some index
  | _ => None
  end.

Fixpoint silent {B} (task : Coro B) : Prop :=
  match task with
  | Vis c k =>
      cmd_start c = None /\ cmd_announces c = false /\ forall r, silent (k r)
  | _ => True
  end.

Definition starts_once {B} (task : Coro B) : Prop :=
  match task with
  | Vis c k => cmd_announces c = false /\ forall r, silent (k r)
  | _ => True
  end.

Definition pending_start {B} (task : Coro B) : option Z :=
  match task with
  | Vis c _ => cmd_start c
  | _ => None
  end.

(** The same with batches told by the index: line [i] is in batch
    [i / batch_size]. *)
Definition lines_in_order (output_dir : Path) (batch_size : Z) (t : Trace)
  : Prop :=
  forall pre e post j i,
    t = pre ++ e :: post -> starts_line e = Some j ->
    0 <= i -> i / batch_size < j / batch_size ->
    exists e', e' ∈ pre /\ line_finished output_dir i e'.

(** Every failed attempt of a trace is followed by a pause and a new
    attempt at the same call, or is the last beat of a run that ends in
    the fatal error. *)
Definition retried_or_fatal {Q R A} (pause : nat) (failed : R -> Prop)
    (fatal : Exn -> Exn) (beats : list (Beat Q R)) (o : Outcome A) : Prop :=
  forall pre q r post, beats = pre ++ Attempt q r :: post -> failed r ->
    (exists r' post', post = Pause pause :: Attempt q r' :: post') \/
    (post = [] /\ exists e, o = Raised (fatal e)).

(** A model answer whose parsed lines include one outside the configured
    vocabularies. *)
Definition rejected (core : Core) (env : TranscriptEnv) (r : Exn + AIMessage)
  : Prop :=
  exists m lines,
    r = inr m /\
    transcript_parser core (clean_thinking_content core (content m)) = inr lines /\
    forallb (dialogue_valid (get_speaker_names (te_profile env))
                            (get_emotions_names (te_emotions env))
                            (get_speed_names (te_speeds env))) lines = false.

(** The lines of the accepted answers of a trace, in order. *)
Definition accepted_lines (core : Core) (env : TranscriptEnv)
    (beats : list (Beat Prompt (Exn + AIMessage))) : list Dialogue :=
  flat_map (fun b => match b with
                     | Attempt _ r =>
                         match transcript_attempt core env r with
                         | inr batch => batch
                         | inl _ => []
                         end
                     | Pause _ => []
                     end) beats.

(** ** Concrete inputs used by the examples *)

Definition empty_state : PodcastState :=
  {| st_content := Many []; st_briefing := []; st_num_segments := 0;
     st_outline := None; st_transcript := []; st_audio_clips := [];
     st_final_output_file_path := None; st_output_dir := ["out"];
     st_episode_name := "episode"; st_speaker_profile := None;
     st_emotions_config := None; st_speed_config := None;
     st_language := "English"; st_dialect := None |}.

(** 4999 letters followed by two spaces: 5001 characters. *)
Definition padded_item : Text := repeat 97%N 4999 ++ [32; 32]%N.

(** A world whose language model always answers "not needed". *)
Definition world_not_needed : World :=
  fun _ c =>
    match c return ret_ty c with
    | CInvoke _ _ _ => inr {| content := bu_xuyao |}
    | c' => default_answer c'
    end.

(** A world in which the first [n] synthesis calls fail. *)
Definition speech_failures (n : nat) : World :=
  fun h c =>
    match c return ret_ty c with
    | CSpeech _ _ _ =>
        if (length (speech_requests h) <? n)%nat
        then inl (External "synthesis backend unavailable")
        else inr tt
    | c' => default_answer c'
    end.

Definition excited : Emotion :=
  {| emotion_name := "excited";
     text := ["Voice: bright and energetic"; "Pacing: quick"];
     category := ["positive"];
     description := "High-energy delivery" |}.

Definition emotions0 : EmotionConfig :=
  {| emotions := [("excited", excited)]; categories := ["positive"] |}.

Definition alice : Speaker :=
  {| name := "Alice"; voice_id := "nova"; backstory := ""; personality := "";
     custom_voice := None; custom_voice_filename := None |}.

Definition profile0 : SpeakerProfile :=
  {| tts_provider := "kokoro"; tts_model := "Kokoro-82M"; speakers := [alice] |}.

Definition line0 : Dialogue :=
  {| speaker := "Alice"; dialogue := [72; 105]%N;
     emotion := Some "excited"; speed := None |}.

Definition info0 : DialogueInfo :=
  {| di_dialogue := line0; di_index := 0; di_output_dir := ["out"];
     di_tts_provider := "kokoro"; di_tts_model := "Kokoro-82M";
     di_voices := get_voice_mapping profile0;
     di_custom_voices := get_custom_voice_mapping profile0;
     di_speaker_profile := profile0; di_dialect := Some "cantonese" |}.

Definition service0 : ServiceConfig :=
  {| VOICE_MAPPINGS :=
       [("kokoro", [("default", "af_heart"); ("nova", "af_nova")]);
        ("kokoro_zh", [("default", "zf_xiaoxiao")])];
     dialect_utils_present := true |}.

(** The arguments the server passes on for [info0]'s line. *)
Definition args0 : SpeechArgs :=
  {| sa_text := dialogue line0; sa_voice := "nova"; sa_output_format := "mp3";
     sa_instructions := Some "excited"; sa_reference_audio := None;
     sa_reference_text := None; sa_speed := Some 1.0%float;
     sa_dialect := Some "cantonese"; sa_dialect_prompt := None |}.

(** Three lines by one speaker, with a profile. *)
Definition state3 : PodcastState :=
  {| st_content := Many []; st_briefing := []; st_num_segments := 0;
     st_outline := None; st_transcript := [line0; line0; line0];
     st_audio_clips := []; st_final_output_file_path := None;
     st_output_dir := ["out"]; st_episode_name := "episode";
     st_speaker_profile := Some profile0; st_emotions_config := None;
     st_speed_config := None; st_language := "English"; st_dialect := None |}.

(** A second speaker, with a custom voice, and a line of hers. *)
Definition bob : Speaker :=
  {| name := "Bob"; voice_id := "custom"; backstory := ""; personality := "";
     custom_voice := Some "voices/bob.wav";
     custom_voice_filename := Some "bob.wav" |}.

Definition profile1 : SpeakerProfile :=
  {| tts_provider := "kokoro"; tts_model := "Kokoro-82M";
     speakers := [alice; bob] |}.

Definition line1 : Dialogue :=
  {| speaker := "Bob"; dialogue := [72; 111]%N;
     emotion := None; speed := None |}.

(** A world in which the files asked about exist and hold four bytes. *)
Definition voice_files : World :=
  fun _ c =>
    match c return ret_ty c with
    | CExists _ => inr true
    | CReadBase64 _ => inr "UklGRg=="
    | c' => default_answer c'
    end.

(** A world in which no string is taken as a path. *)
Definition no_paths : World :=
  fun _ c =>
    match c return ret_ty c with
    | CExists _ => inl (External "OSError: File name too long")
    | c' => default_answer c'
    end.

(** A world whose language detector fails, and arguments with an
    English text and no dialect. *)
Definition detector_down : World :=
  fun _ c =>
    match c return ret_ty c with
    | CDetect _ => inl (External "LangDetectException")
    | c' => default_answer c'
    end.

Definition args_en : SpeechArgs :=
  {| sa_text := [72; 105]%N; sa_voice := "nova"; sa_output_format := "wav";
     sa_instructions := None; sa_reference_audio := None;
     sa_reference_text := None; sa_speed := Some 1.0%float;
     sa_dialect := None; sa_dialect_prompt := None |}.

(** Twelve lines by one speaker, with a profile. *)
Definition state12 : PodcastState :=
  {| st_content := Many []; st_briefing := []; st_num_segments := 0;
     st_outline := None; st_transcript := repeat line0 12;
     st_audio_clips := []; st_final_output_file_path := None;
     st_output_dir := ["out"]; st_episode_name := "episode";
     st_speaker_profile := Some profile0; st_emotions_config := None;
     st_speed_config := None; st_language := "English"; st_dialect := None |}.

(** A world whose event loop takes the pending tasks in turn. *)
Definition round_robin : World :=
  fun h c =>
    match c return ret_ty c with
    | CPick _ => (length h / 2)%nat
    | c' => default_answer c'
    end.

(** ** Statements used by the theorems *)

(** The creations of a language model in a trace, each with its
    arguments and its answer. *)
Definition language_call (e : Event)
  : option (string * string * nat * bool * (Exn + unit)) :=
  match e with
  | Ev c r =>
      match c return ret_ty c ->
                     option (string * string * nat * bool * (Exn + unit)) with
      | CCreateLanguage provider model max_tokens json =>
          fun r => Some (provider, model, max_tokens, json, r)
      | _ => fun _ => None
      end r
  end.

Definition language_calls (t : Trace)
  : list (string * string * nat * bool * (Exn + unit)) :=
  omap language_call t.

(** What [wp] has to establish for one string item, as a list item. *)
Definition item_post (briefing s : Text) (acc : list Item)
    (o : Outcome (LoopCtl * list Item)) (d : Trace) : Prop :=
  language_calls d = [] /\
  exists oi, item_rule briefing s (model_calls d) oi /\
    o = match oi with
        | Returned x => Returned (Continue, acc ++ [x])
        | Raised e => Raised e
        end.

(** The same for the items of a list, after the events [t]. *)
Definition items_post (briefing : Text) (items acc : list Item) (t : Trace)
    (o : Outcome (list Item)) (t' : Trace) : Prop :=
  exists d oi, t' = t ++ d /\ language_calls d = [] /\
    items_rule briefing items (model_calls d) oi /\
    o = match oi with
        | Returned xs => Returned (acc ++ xs)
        | Raised e => Raised e
        end.

(** The data the outline prompt is rendered with. *)
Definition outline_data (state : PodcastState) : OutlineData :=
  {| od_briefing := st_briefing state;
     od_num_segments := st_num_segments state;
     od_context := st_content state;
     od_language := st_language state;
     od_speakers := match st_speaker_profile state with
                    | Some p => speakers p
                    | None => []
                    end |}.

(** The number of attempts and the pauses among the beats of a trace. *)
Fixpoint attempts_in {Q R} (beats : list (Beat Q R)) : nat :=
  match beats with
  | [] => 0
  | Attempt _ _ :: beats' => S (attempts_in beats')
  | Pause _ :: beats' => attempts_in beats'
  end.

Fixpoint pauses_in {Q R} (beats : list (Beat Q R)) : list nat :=
  match beats with
  | [] => []
  | Attempt _ _ :: beats' => pauses_in beats'
  | Pause n :: beats' => n :: pauses_in beats'
  end.

(** What [wp] has to establish for one segment of the outline. *)
Definition segment_post (core : Core) (env : TranscriptEnv) (i : nat)
    (segment : Segment) (acc : list Dialogue)
    (o : Outcome (LoopCtl * list Dialogue)) (d : Trace) : Prop :=
  language_calls d = [] /\
  exists ob,
    retry_rule 1 (segment_prompt env i segment) (transcript_attempt core env)
               transcript_fatal 3 (model_beats d) ob /\
    o = match ob with
        | Returned batch => Returned (Continue, acc ++ batch)
        | Raised e => Raised e
        end.

(** A run of the Transcript Generator, up to its loop over the
    segments.  Without an outline or without a speaker profile the run
    raises an [AssertionError] and creates no model.  Otherwise it creates
    the language model once; when the creation fails, its error ends the
    run; when it succeeds, a missing emotion or speed configuration
    raises an [AssertionError]; and a run with all four goes through the
    segments, of which it does [segments_run env], for the environment
    [env] of the state, the outline and the configurations, with some
    answer [caps] of the capability query.  No model call is made in a
    run that does not reach the segments. *)
Definition transcript_run (state : PodcastState) (cfg : Configurable)
    (o : Outcome (list Dialogue)) (t : Trace)
    (segments_run : TranscriptEnv -> Prop) : Prop :=
  match st_outline state, st_speaker_profile state with
  | None, _ =>
      o = Raised (AssertionError "outline must be provided") /\
      language_calls t = [] /\ model_beats t = []
  | Some _, None =>
      o = Raised (AssertionError "speaker_profile must be provided") /\
      language_calls t = [] /\ model_beats t = []
  | Some outline, Some profile =>
      exists r,
        language_calls t
        = [(default "openai" (cfg_transcript_provider cfg),
            default "gpt-4o-mini" (cfg_transcript_model cfg),
            5000%nat, true, r)] /\
        match r with
        | inl e => o = Raised e /\ model_beats t = []
        | inr _ =>
            match st_emotions_config state, st_speed_config state with
            | None, _ =>
                o = Raised (AssertionError "emotions_config must be provided")
                /\ model_beats t = []
            | Some _, None =>
                o = Raised (AssertionError "speed_config must be provided")
                /\ model_beats t = []
            | Some emotions_config, Some speed_config =>
                exists caps : bool * list string,
                  segments_run
                    {| te_state := state; te_outline := outline;
                       te_profile := profile;
                       te_emotions := emotions_config;
                       te_speeds := speed_config;
                       te_supports_voice_tags := fst caps;
                       te_available_voice_tags := snd caps |}
            end
        end
  end.

(** The text the Kokoro wrapper hands to its engine. *)
Definition kokoro_text (config : ServiceConfig) (a : SpeechArgs) : Text :=
  if dialect_utils_present config then remove_dialect_tag (sa_text a)
  else sa_text a.

(** An event of the line at [index]: if it marks a start, it is that
    line's. *)
Definition of_line (index : Z) (e : Event) : Prop :=
  forall j, starts_line e = Some j -> j = index.

(** The lines below [bound] have finished in [t]. *)
Definition finished_below (dir : Path) (bound : Z) (t : Trace) : Prop :=
  forall i, 0 <= i < bound -> exists e, e ∈ t /\ line_finished dir i e.

(** ** Python string operations on identifiers

    An identifier (a dialect name, a key of a table) is a string of code
    points below 256; the operations below are Python's on such strings. *)

(** [str.lower] for one code point below 256: the letters A to Z and the
    capital letters of Latin-1, U+00C0 to U+00DE without the sign U+00D7,
    are moved up by 32. *)
Definition lower_char (c : ascii) : ascii :=
  let n := N_of_ascii c in
  if ((65 <=? n) && (n <=? 90)
      || (192 <=? n) && (n <=? 222) && negb (n =? 215))%N
  then ascii_of_N (n + 32) else c.

(** [s.lower()] *)
Definition str_lower (s : string) : string :=
  String.string_of_list_ascii (map lower_char (String.list_ascii_of_string s)).

Fixpoint lstrip_chars (l : list ascii) : list ascii :=
  match l with
  | c :: l' => if isspace (N_of_ascii c) then lstrip_chars l' else l
  | [] => []
  end.

Definition strip_chars (l : list ascii) : list ascii :=
  reverse (lstrip_chars (reverse (lstrip_chars l))).

(** [s.strip()] *)
Definition str_strip (s : string) : string :=
  String.string_of_list_ascii (strip_chars (String.list_ascii_of_string s)).

(** ** llm/dialect_utils.py, continued *)

Definition SUPPORTED_DIALECTS : list string :=
  ["mandarin"; "sichuan"; "sichuanese"; "henan"; "henanese"; "yue";
   "cantonese"; "shanghainese"].

Definition get_dialect_tag (dialect : option string) : string :=
  if negb (truthy dialect) then ""
  else
    let dialect_lower := str_strip (str_lower (default "" dialect)) in
    default "" (dict_get DIALECT_TAGS dialect_lower).

(** The loop that drops another tag from the head of the text is the
    loop of [remove_dialect_tag]. *)
Definition add_dialect_tag_to_text (text : Text) (dialect : option string)
  : Text :=
  if negb (truthy dialect)
     || String.eqb (str_lower (default "" dialect)) "mandarin"
  then text
  else
    let dialect_tag := get_dialect_tag dialect in
    if String.eqb dialect_tag "" then text
    else if startswith text (text_of dialect_tag) then text
    else text_of dialect_tag ++ remove_first_tag (dict_values DIALECT_TAGS) text.

Fixpoint detect_first (items : Dict string) (text : Text) : option string :=
  match items with
  | [] => None
  | (dialect, tag) :: items' =>
      if negb (String.eqb tag "") && startswith text (text_of tag)
      then Some dialect
      else detect_first items' text
  end.

Definition detect_dialect_from_text (text : Text) : option string :=
  detect_first DIALECT_TAGS text.

Definition alias_map : Dict string :=
  [("yueyu", "yue"); ("cantonese", "yue"); ("chinese", "mandarin");
   ("sichuanese", "sichuan"); ("henanese", "henan")].

Definition normalize_dialect_name (dialect : option string) : option string :=
  if negb (truthy dialect) then None
  else
    let dialect_lower := str_strip (str_lower (default "" dialect)) in
    Some (default dialect_lower (dict_get alias_map dialect_lower)).

Definition is_dialect_supported (dialect : option string) : bool :=
  if negb (truthy dialect) then false
  else
    let dialect_lower := str_strip (str_lower (default "" dialect)) in
    name_in dialect_lower SUPPORTED_DIALECTS || dict_in dialect_lower DIALECT_TAGS.

(** The prompt texts of [get_default_dialect_prompt], by code points:
    each is a dialect tag followed by a sentence in the dialect. *)
Definition default_prompts : Dict (list Text) :=
  [("sichuan",
    [text_of "<|Sichuan|>" ++
       [35201; 24471; 35201; 24471; 65281; 21069; 22836; 20960; 20010; 32781;
        27915; 30424; 65292; 25105; 21518; 33050; 23601; 32972; 36215; 38138;
        30422; 21367; 21435; 26223; 24503; 38215; 32781; 27877; 24052; 65292;
        24052; 36866; 24471; 21898; 32769; 22825; 29239; 65281]%N;
     text_of "<|Sichuan|>" ++
       [21710; 21727; 21890; 65292; 36825; 20010; 25630; 21453; 20102; 22139;
        65281; 40657; 31070; 35805; 37324; 22836; 21809; 26354; 23376; 30340;
        29579; 20108; 28010; 26089; 20843; 30334; 24180; 23601; 22312; 40644;
        22303; 39640; 22369; 21564; 31206; 33108; 21949; 65292; 28216; 25103;
        32452; 19987; 38376; 36305; 20999; 24405; 30340; 21407; 27748; 21407;
        27700; 65292; 21548; 24471; 20154; 27735; 27611; 20799; 37117; 31435;
        36215; 26469; 65281]%N]);
   ("henan",
    [text_of "<|Henan|>" ++
       [20474; 36825; 19981; 26159; 24597; 24641; 36335; 19978; 19981; 24471;
        21170; 20799; 22043; 65281; 37027; 26223; 24503; 38215; 29943; 27877;
        21487; 23047; 36149; 30528; 21737; 65292; 24471; 20808; 25343; 21681;
        27827; 21335; 20154; 36825; 23454; 35802; 21170; 20799; 32473; 23427;
        25545; 36879; 21949; 12290]%N;
     text_of "<|Henan|>" ++
       [24641; 36825; 24819; 27861; 30495; 38393; 25402; 65281; 38485; 21271;
        27665; 35875; 27604; 40657; 31070; 35805; 26089; 20960; 30334; 24180;
        37117; 26377; 20102; 65292; 21681; 21487; 19981; 20852; 36825; 24324;
        39072; 20498; 21834; 65292; 20013; 19981; 65311; 24641; 36825; 24819;
        27861; 30495; 38393; 25402; 65281; 37027; 38485; 21271; 27665; 35875;
        22312; 40644; 22303; 39640; 22369; 21709; 20102; 20960; 30334; 24180;
        65292; 21643; 33021; 35828; 26159; 36319; 40657; 31070; 35805; 23398;
        30340; 21671; 65311; 21681; 24471; 25226; 36825; 20107; 20799; 25419;
        30452; 21949; 65292; 20013; 19981; 20013; 65281]%N]);
   ("yue",
    [text_of "<|Yue|>" ++
       [30495; 20418; 20871; 35762; 38169; 21834; 65281; 25856; 23665; 28369;
        38634; 22021; 35821; 35328; 19987; 23478; 20960; 24052; 38381; 65292;
        37117; 21780; 21450; 25105; 21548; 26085; 25302; 25104; 21103; 36523;
        23478; 21435; 26223; 24503; 38215; 29609; 27877; 24052; 65292; 21602;
        38138; 30495; 31995; 21457; 21698; 30333; 26085; 26790; 21679; 65281]%N;
     text_of "<|Yue|>" ++
       [21674; 25630; 38169; 21834; 65281; 38485; 21271; 27665; 35875; 21709;
        24230; 21809; 21655; 20960; 21313; 24180; 65292; 40657; 31070; 35805;
        36793; 26377; 21633; 22823; 38754; 21834; 65311; 20320; 20272; 20322;
        21707; 25220; 28216; 25103; 21673; 65281]%N]);
   ("shanghai",
    [text_of "<|Shanghai|>" ++
       [20396; 35762; 24471; 23545; 20010; 65281; 38463; 25289; 19978; 28023;
        20154; 20570; 20107; 20307; 23601; 26159; 22134; 35748; 30495; 65292;
        21247; 20250; 24471; 39532; 34382; 20010; 12290]%N;
     text_of "<|Shanghai|>" ++
       [35205; 30606; 35762; 20843; 35762; 65281; 36825; 20010; 20107; 20307;
        38463; 25289; 32769; 26089; 23601; 26195; 24471; 21202; 65292; 21247;
        26159; 29616; 22312; 25165; 26195; 24471; 20010; 12290]%N])].

(** [x or y] for strings *)
Definition str_or (x : option string) (y : string) : string :=
  if truthy x then default "" x else y.

(** The result is the prompt text, [[]] for the empty string; indexing
    the prompts with a negative [speaker_index] counts from the end and
    can raise [IndexError]. *)
Definition get_default_dialect_prompt (dialect : option string)
    (speaker_index : Z) : Exn + Text :=
  if negb (truthy dialect)
     || String.eqb (str_lower (default "" dialect)) "mandarin"
  then inr []
  else
    let dialect_lower := str_strip (str_lower (default "" dialect)) in
    let normalized_dialect :=
      str_or (normalize_dialect_name (Some dialect_lower)) dialect_lower in
    let prompts := default [] (dict_get default_prompts normalized_dialect) in
    if negb (bool_decide (prompts = []))
       && (speaker_index <? Z.of_nat (length prompts))%Z
    then match py_getitem prompts speaker_index with
         | Some prompt => inr prompt
         | None => inl IndexError
         end
    else match prompts with
         | prompt :: _ => inr prompt
         | [] => inr []
         end.

(** ** llm/soulx_tts.py: convert_voice_tags_to_soulx_format *)

(** The body of a voice tag at the head of [s], up to its closing
    bracket: what [[^\[\]<>]*\]] matches there. *)
Fixpoint tag_body (s : Text) : option Text :=
  match s with
  | [] => None
  | c :: s' =>
      if (c =? 93)%N then Some []
      else if ((c =? 91) || (c =? 60) || (c =? 62))%N then None
      else cons c <$> tag_body s'
  end.

(** [re.sub(r'(?<!<)\[([^\[\]<>]+)\]', replace_tag, text)], read from the
    left: [prev] is the character before the head of [s], and the first
    [skip] characters of [s] belong to the match that was just replaced. *)
Fixpoint sub_voice_tags (skip : nat) (prev : option N) (s : Text) : Text :=
  match s with
  | [] => []
  | c :: s' =>
      match skip with
      | S skip' => sub_voice_tags skip' (Some c) s'
      | O =>
          match (if (c =? 91)%N && negb (bool_decide (prev = Some 60%N))
                 then tag_body s' else None) with
          | Some (t :: tag) =>
              [60; 124]%N ++ (t :: tag) ++ [124; 62]%N
              ++ sub_voice_tags (S (length (t :: tag))) (Some c) s'
          | _ => c :: sub_voice_tags 0 (Some c) s'
          end
      end
  end.

Definition convert_voice_tags_to_soulx_format (text : Text) : Text :=
  if bool_decide (text = []) then text else sub_voice_tags 0 None text.

(** ** llm/soulx_tts.py: the data item of SoulXTTS.generate_speech

    [generate_speech] prepares a data item from its parameter and then
    runs the model on it; the preparation is embedded here, with
    [dialect_utils] imported.  Of the parameter, the fields the
    preparation reads. *)
Record SoulXTTSParam := {
  sx_text : Text;
  sx_spk_audio_prompt : string;
  sx_spk_text_prompt : option Text;
  sx_dialect : option string;
  sx_dialect_prompt : option Text
}.

(** The dictionary [dataitem]; the key ["dialect_prompt_text"] is absent
    when [item_dialect_prompt_text] is [None]. *)
Record DataItem := {
  item_key : string;
  item_prompt_text : list Text;
  item_prompt_wav : list string;
  item_text : list Text;
  item_spk : list Z;
  item_dialect_prompt_text : option (list Text)
}.

(** Truthiness of an optional text: [None] and the empty text are false. *)
Definition truthy_text (o : option Text) : bool :=
  match o with
  | Some (_ :: _) => true
  | _ => false
  end.

Definition soulx_dataitem (param : SoulXTTSParam) : Exn + DataItem :=
  let spk_text_prompt :=
    if truthy_text (sx_spk_text_prompt param)
    then default [] (sx_spk_text_prompt param) else [] in
  let dataitem (use_dialect_prompt : bool) (dialect_prompt_text : option Text)
               (processed_text : Text) : Exn + DataItem :=
    let processed_text := convert_voice_tags_to_soulx_format processed_text in
    inr {| item_key := "soulx_tts_001";
           item_prompt_text := [spk_text_prompt];
           item_prompt_wav := [sx_spk_audio_prompt param];
           item_text := [processed_text];
           item_spk := [0];
           item_dialect_prompt_text :=
             if use_dialect_prompt && truthy_text dialect_prompt_text
             then Some [default [] dialect_prompt_text] else None |} in
  let processed_text := sx_text param in
  if truthy (sx_dialect param) then
    let normalized_dialect := normalize_dialect_name (sx_dialect param) in
    if truthy normalized_dialect
       && negb (String.eqb (default "" normalized_dialect) "mandarin")
    then
      match (if truthy_text (sx_dialect_prompt param)
             then inr (default [] (sx_dialect_prompt param))
             else get_default_dialect_prompt normalized_dialect 0) with
      | inl e => inl e
      | inr dialect_prompt_text =>
          dataitem (truthy_text (Some dialect_prompt_text))
                   (Some dialect_prompt_text)
                   (add_dialect_tag_to_text processed_text normalized_dialect)
      end
    else dataitem false None processed_text
  else dataitem false None processed_text.

(** ** speakers.py, continued *)

(** [Speaker.validate_name], on the text of the name. *)
Definition validate_name (v : Text) : Exn + Text :=
  if bool_decide (v = []) || (length (strip v) =? 0)%nat
  then inl (ValueError "Speaker name cannot be empty")
  else inr (strip v).

Definition get_speaker_by_name (p : SpeakerProfile) (nm : string)
  : Exn + Speaker :=
  match find (fun speaker => String.eqb (name speaker) nm) (speakers p) with
  | Some speaker => inr speaker
  | None => inl (ValueError ("Speaker '" ++ nm ++ "' not found in profile"))
  end.

Record SpeakerConfig := { profiles : Dict SpeakerProfile }.

Definition validate_profiles (v : Dict SpeakerProfile)
  : Exn + Dict SpeakerProfile :=
  if (length v =? 0)%nat
  then inl (ValueError "At least one speaker profile must be defined")
  else inr v.

(** Construction of a [SpeakerConfig], as for [SpeakerProfile]. *)
Definition make_SpeakerConfig (v : Dict SpeakerProfile) : Exn + SpeakerConfig :=
  match validate_profiles v with
  | inr v' => inr {| profiles := v' |}
  | inl (ValueError msg) => inl (ValidationError msg)
  | inl e => inl e
  end.

Definition get_profile (c : SpeakerConfig) (profile_name : string)
  : Exn + SpeakerProfile :=
  match dict_get (profiles c) profile_name with
  | Some p => inr p
  | None =>
      inl (ValueError ("Speaker profile '" ++ profile_name ++ "' not found"))
  end.

Definition list_profiles (c : SpeakerConfig) : list string :=
  dict_keys (profiles c).

(** ** emotions.py, continued *)

Definition get_default_emotion (c : EmotionConfig) : Exn + Emotion :=
  get_emotion c "Neutral".

(** ** Further statements used by the theorems *)

(** The items of a content, and which of them are strings. *)
Definition content_items (c : Content) : list Item :=
  match c with
  | One x => [x]
  | Many xs => xs
  end.

Definition is_one (c : Content) : bool :=
  match c with
  | One _ => true
  | Many _ => false
  end.

Definition is_text_item (x : Item) : bool :=
  match x with
  | IStr _ => true
  | _ => false
  end.

(** A model call that was answered, and one that failed. *)
Definition call_answered (call : Prompt * (Exn + AIMessage)) : Prop :=
  succeeded call.2.

(** The model calls of a run that does not retry: calls that were
    answered, followed at most by one failed call, whose error is the
    outcome of the run. *)
Definition no_retry {A} (calls : list (Prompt * (Exn + AIMessage)))
    (o : Outcome A) : Prop :=
  exists good,
    Forall call_answered good /\
    (calls = good \/ exists p e, calls = good ++ [(p, inl e)] /\ o = Raised e).

(** What the preprocessor does with one item, appended to [acc]. *)
Definition item_kept_or_replaced (item : Item) (acc : list Item)
    (o : Outcome (LoopCtl * list Item)) (d : Trace) : Prop :=
  pauses d = [] /\
  (length (model_calls d) <= if is_text_item item then 2 else 0)%nat /\
  no_retry (model_calls d) o /\
  forall ctl acc', o = Returned (ctl, acc') ->
    ctl = Continue /\
    exists y, acc' = acc ++ [y] /\
      (y = item \/ exists s m, item = IStr s /\ y = IMsg m).

(** The same for the items of a list. *)
Definition items_kept_or_replaced (items acc : list Item) (t : Trace)
    (o : Outcome (list Item)) (t' : Trace) : Prop :=
  exists d, t' = t ++ d /\
    pauses d = [] /\
    (length (model_calls d) <= 2 * length (filter is_text_item items))%nat /\
    no_retry (model_calls d) o /\
    forall acc', o = Returned acc' ->
      exists ys, acc' = acc ++ ys /\ length ys = length items /\
        forall i x y, items !! i = Some x -> ys !! i = Some y ->
          y = x \/ exists s m, x = IStr s /\ y = IMsg m.

(** The capability queries of a run, each with the provider asked for
    and the answer; and what the first of them answered about voice tags:
    [(False, [])] unless a capability was obtained. *)
Definition tts_answer (e : Event)
  : option (string * (Exn + option TTSCapability)) :=
  match e with
  | Ev c r =>
      match c return ret_ty c -> option (string * (Exn + option TTSCapability))
      with
      | CCreateTts provider _ => fun r => Some (provider, r)
      | _ => fun _ => None
      end r
  end.

Definition voice_tag_support (t : Trace) : bool * list string :=
  match head (omap tts_answer t) with
  | Some (_, inr (Some capability)) =>
      (supports_voice_tags capability,
       default [] (available_voice_tags capability))
  | _ => (false, [])
  end.

(** The voice-tag fields a prompt was rendered with. *)
Definition prompt_voice_tags (p : Prompt) : option (bool * list string) :=
  match p with
  | transcript_prompt d =>
      Some (td_supports_voice_tags d, td_available_voice_tags d)
  | _ => None
  end.

(** The voice and the custom voice of the speaker that a line names in
    a profile; ["default"] and none when the profile has no such speaker. *)
Definition voice_of (p : SpeakerProfile) (line : Dialogue) : string :=
  match get_speaker_by_name p (speaker line) with
  | inr s => voice_id s
  | inl _ => "default"
  end.

Definition custom_voice_of (p : SpeakerProfile) (line : Dialogue)
  : option string :=
  match get_speaker_by_name p (speaker line) with
  | inr s => custom_voice s
  | inl _ => None
  end.

(** The voice the Kokoro wrapper selects for a detected language and a
    requested voice:
    [voice_map = config.VOICE_MAPPINGS["kokoro_zh" if detected_lang == "zh" else "kokoro"]]
    and [voice_map.get(voice, voice_map["default"])], whose default is
    evaluated first. *)
Definition kokoro_voice_for (config : ServiceConfig) (lang voice : string)
  : Exn + string :=
  let group := if String.eqb lang "zh" then "kokoro_zh" else "kokoro" in
  match dict_get (VOICE_MAPPINGS config) group with
  | None => inl (KeyError group)
  | Some voice_map =>
      match dict_get voice_map "default" with
      | None => inl (KeyError "default")
      | Some fallback => inr (default fallback (dict_get voice_map voice))
      end
  end.

(** The texts a run gave to the language detector, each with the
    detector's answer. *)
Definition detect_call (e : Event) : option (Text * (Exn + string)) :=
  match e with
  | Ev c r =>
      match c return ret_ty c -> option (Text * (Exn + string)) with
      | CDetect t => fun r => Some (t, r)
      | _ => fun _ => None
      end r
  end.

(** The files a run wrote, with the bytes written. *)
Definition written (e : Event) : option (Path * list N) :=
  match e with
  | Ev c r =>
      match c return ret_ty c -> option (Path * list N) with
      | CWriteBytes p data =>
          fun r => match r with inr _ => Some (p, data) | inl _ => None end
      | _ => fun _ => None
      end r
  end.

(** The WAV data a run obtained, and the conversions it asked for, each
    with its input, its target format and its answer. *)
Definition wav_answer (e : Event) : option (list N) :=
  match e with
  | Ev c r =>
      match c return ret_ty c -> option (list N) with
      | CWavWrite _ _ =>
          fun r => match r with inr wav => Some wav | inl _ => None end
      | _ => fun _ => None
      end r
  end.

Definition conversion (e : Event)
  : option (list N * string * N * (Exn + (list N * string))) :=
  match e with
  | Ev c r =>
      match c return ret_ty c ->
                     option (list N * string * N * (Exn + (list N * string)))
      with
      | CConvert wav fmt rate => fun r => Some (wav, fmt, rate, r)
      | _ => fun _ => None
      end r
  end.

(** The language the Kokoro wrapper makes of the detector's answer. *)
Definition language_of (r : Exn + string) : string :=
  match r with
  | inr lang =>
      if String.eqb lang "zh-cn" || String.eqb lang "zh-tw" then "zh" else "en"
  | inl _ => "auto"
  end.

(** What a run of the Kokoro wrapper did and how it ended, for the
    language [lang] it detected: without asking the detector for a text
    with a CJK character, and from the detector's one answer otherwise,
    with a warning when the detector failed. *)
Definition kokoro_selected (config : ServiceConfig) (a : SpeechArgs)
    (lang : string) (o : Outcome (list N * string)) (t : Trace) : Prop :=
  let text := kokoro_text config a in
  (if has_cjk text then omap detect_call t = [] /\ lang = "zh"
   else exists r,
     omap detect_call t = [(text, r)] /\ lang = language_of r /\
     (In (other_msg "Language detection failed") (logged WARNING t)
      <-> exists e, r = inl e)) /\
  In (language_detected lang) (logged INFO t) /\
  match kokoro_voice_for config lang (sa_voice a) with
  | inl e => o = Raised e /\ engine_calls t = []
  | inr v => engine_calls t = [CKokoroModel text v lang (sa_speed a)]
  end.

(** How a run of the Kokoro wrapper ended: an error was logged last and
    re-raised, or the audio returned is the converted WAV data, and the
    WAV data itself when no conversion was asked for or the conversion
    failed. *)
Definition kokoro_ended (a : SpeechArgs) (o : Outcome (list N * string))
    (t : Trace) : Prop :=
  match o with
  | Raised e => last t = Some (Ev (CLog ERROR (backend_error "Kokoro" e)) tt)
  | Returned res =>
      ~ (exists e, In (backend_error "Kokoro" e) (logged ERROR t)) /\
      exists wav, omap wav_answer t = [wav] /\
        if String.eqb (sa_output_format a) "wav"
        then res = (wav, "audio/wav") /\ omap conversion t = []
        else exists r,
          omap conversion t = [(wav, sa_output_format a, 24000%N, r)] /\
          res = match r with
                | inr converted => converted
                | inl _ => (wav, "audio/wav")
                end
  end.

(** How a run of the Qwen provider ended: an error was logged last and
    raised wrapped in a [RuntimeError], with no file written; or the
    bytes returned are the bytes written to the output file. *)
Definition qwen_ended (model_name : string) (req : SpeechRequest)
    (o : Outcome AudioResponse) (t : Trace) : Prop :=
  match o with
  | Raised e' =>
      exists e, e' = qwen_failure e /\
        last t = Some (Ev (CLog ERROR (backend_error "Qwen" e)) tt) /\
        omap written t = []
  | Returned r =>
      omap written t = [(sr_output_file req, audio_data r)] /\
      content_type r = "audio/wav" /\ ar_voice r = sr_voice req /\
      ar_model r = model_name /\ logged ERROR t = []
  end.

(* ================================================================== *)
(** * Part II.  Theorems                                               *)
(* ================================================================== *)

Lemma len_set_le (xs : list string) : (len_set xs <= length xs)%nat.
Proof.
  unfold len_set. induction xs as [|x xs IH]; cbn [list_to_set foldr length].
  - rewrite size_empty. lia.
  - destruct (decide (x ∈ xs)) as [Hin|Hnin].
    + assert ({[x]} ∪ list_to_set xs = (list_to_set xs : gset string)) as ->
        by set_solver.
      lia.
    + rewrite size_union by set_solver. rewrite size_singleton. lia.
Qed.

Lemma len_set_NoDup (xs : list string) :
  length xs = len_set xs <-> NoDup xs.
Proof.
  split.
  - induction xs as [|x xs IH]; [constructor|].
    unfold len_set in *. cbn [list_to_set foldr length]. intros Hlen.
    pose proof (len_set_le xs) as Hle. unfold len_set in Hle.
    destruct (decide (x ∈ xs)) as [Hin|Hnin].
    + exfalso.
      assert ({[x]} ∪ list_to_set xs = (list_to_set xs : gset string)) as Heq
        by set_solver.
      rewrite Heq in Hlen. lia.
    + constructor; [done|]. apply IH.
      rewrite size_union in Hlen by set_solver.
      rewrite size_singleton in Hlen. lia.
  - intros Hnd. unfold len_set. symmetry. by apply size_list_to_set.
Qed.

#[local] Arguments Nat.ltb : simpl never.
#[local] Arguments Nat.leb : simpl never.

(** ** Runs and weakest preconditions *)

Lemma wp_mono {A} (m : Coro A) t (Q Q' : Outcome A -> Trace -> Prop) :
  (forall o t', Q o t' -> Q' o t') -> wp m t Q -> wp m t Q'.
Proof.
  intros HQ. revert t.
  induction m as [a|e|c k IH]; intros t; simpl; intros H;
    [by apply HQ | by apply HQ | intros r; by apply IH].
Qed.

Lemma wp_bind {A B} (m : Coro A) (f : A -> Coro B) t Q :
  wp m t (fun o t' =>
            match o with
            | Returned a => wp (f a) t' Q
            | Raised e => Q (Raised e) t'
            end) ->
  wp (m ≫= f) t Q.
Proof.
  revert t.
  induction m as [a|e|c k IH]; intros t; simpl; intros H;
    [done | done | intros r; by apply IH].
Qed.

(** A fact proved from the empty trace holds after any prefix. *)
Lemma wp_frame {A} (m : Coro A) t0 t (Q : Outcome A -> Trace -> Prop) :
  wp m t Q -> wp m (t0 ++ t) (fun o t' => exists d, t' = t0 ++ d /\ Q o d).
Proof.
  revert t.
  induction m as [a|e|c k IH]; intros t; simpl; intros H;
    [by eauto | by eauto |].
  intros r. rewrite <- app_assoc. apply IH, H.
Qed.

Lemma wp_frame_nil {A} (m : Coro A) t0 (Q : Outcome A -> Trace -> Prop) :
  wp m [] Q -> wp m t0 (fun o t' => exists d, t' = t0 ++ d /\ Q o d).
Proof. intros H. rewrite <- (app_nil_r t0) at 1. by apply wp_frame. Qed.

(** Every run is one of the executions [wp] speaks about. *)
Lemma wp_run {A} (m : Coro A) t Q (w : World) :
  wp m t Q -> Q (fst (run w m t)) (snd (run w m t)).
Proof.
  revert t.
  induction m as [a|e|c k IH]; intros t; simpl; intros H;
    [done | done | apply IH, H].
Qed.

Lemma wp_sound {A} (m : Coro A) Q (w : World) :
  wp m [] Q -> Q (outcome_of w m) (trace_of w m).
Proof. apply wp_run. Qed.

(** ** SpeakerProfile (speakers.py) *)

Lemma NoDup_map_lookup {A B} (f : A -> B) (l : list A) :
  NoDup (map f l) ->
  forall i j a b, i <> j -> l !! i = Some a -> l !! j = Some b -> f a <> f b.
Proof.
  intros Hnd i j a b Hij Ha Hb Heq. apply Hij.
  eapply (proj1 (NoDup_alt (map f l)) Hnd i j (f a)).
  - change (map f l) with (f <$> l). by rewrite list_lookup_fmap, Ha.
  - change (map f l) with (f <$> l). by rewrite list_lookup_fmap, Hb, Heq.
Qed.

Lemma voice_key_same (a b : Speaker) :
  voice_id a = voice_id b -> custom_voice a = custom_voice b ->
  voice_key a = voice_key b.
Proof. unfold voice_key. by intros -> ->. Qed.

Lemma voice_key_plain (a : Speaker) :
  voice_id a <> "custom" -> voice_key a = voice_id a.
Proof.
  intros Hne. unfold voice_key.
  destruct (String.eqb_spec (voice_id a) "custom"); [done|reflexivity].
Qed.

Lemma validate_speakers_ok (v v' : list Speaker) :
  validate_speakers v = inr v' -> v' = v /\ profile_ok v.
Proof.
  unfold validate_speakers.
  destruct ((length v <? 1)%nat || (4 <? length v)%nat) eqn:Hlen; [done|].
  destruct (negb (length (map name v) =? len_set (map name v))%nat) eqn:Hn; [done|].
  destruct (negb (length (map voice_key v) =? len_set (map voice_key v))%nat)
    eqn:Hv; [done|].
  intros [= <-]. split; [done|].
  apply orb_false_iff in Hlen as [H1 H4].
  apply Nat.ltb_ge in H1, H4.
  apply negb_false_iff, Nat.eqb_eq, len_set_NoDup in Hn, Hv.
  split; [lia|]. split.
  - intros i j a b. by apply NoDup_map_lookup.
  - intros i j a b Hij Ha Hb.
    pose proof (NoDup_map_lookup _ _ Hv i j a b Hij Ha Hb) as Hkey.
    destruct (decide (voice_id a = voice_id b)) as [Hid|Hid]; [|by left].
    right. destruct (decide (voice_id a = "custom")) as [Hc|Hc].
    + split; [done|]. split; [congruence|].
      intros Hcv. by apply Hkey, voice_key_same.
    + exfalso. apply Hkey.
      rewrite !voice_key_plain; congruence.
Qed.

Lemma validate_speakers_error (v : list Speaker) (e : Exn) :
  validate_speakers v = inl e -> exists msg, e = ValueError msg.
Proof.
  unfold validate_speakers.
  repeat (match goal with |- context [if ?b then _ else _] => destruct b end);
    intros [= <-]; eauto.
Qed.

(** C9. A speaker profile that is constructed has one to four speakers,
    pairwise distinct speaker names, and pairwise distinct voice ids
    except for speakers that use the voice id "custom" with different
    custom-voice references; constructing a profile from a speaker list
    that breaks one of these conditions fails with a validation error. *)
Theorem C9_speaker_profile_invariant (provider model : string) (v : list Speaker) :
  (forall p, make_SpeakerProfile provider model v = inr p ->
             speakers p = v /\ profile_ok (speakers p)) /\
  (~ profile_ok v ->
   exists msg, make_SpeakerProfile provider model v = inl (ValidationError msg)).
Proof.
  unfold make_SpeakerProfile.
  destruct (validate_speakers v) as [e|v'] eqn:Hval.
  - split.
    + intros p. destruct e; discriminate.
    + intros _. apply validate_speakers_error in Hval as [msg ->]. eauto.
  - apply validate_speakers_ok in Hval as [-> Hok]. split.
    + intros p [= <-]. done.
    + intros Hbad. by destruct Hbad.
Qed.

(** ** SpeedConfig (speed.py) *)

Lemma dict_get_None {V} (d : Dict V) (k : string) :
  dict_get d k = None <-> ~ In k (dict_keys d).
Proof.
  induction d as [|[k' v] d IH]; simpl; [tauto|].
  destruct (String.eqb_spec k' k) as [->|Hne].
  - split; [done|]. intros H. destruct H. by left.
  - rewrite IH. split; [intros H [?|?]; [done|by apply H]|tauto].
Qed.

(** C10. For a speed name that is not a key of the configuration,
    [get_speed_name_value] logs one warning and returns the neutral
    multiplier 1.0 without raising; for a configured name it returns
    the configured multiplier and logs nothing. *)
Theorem C10_speed_name_value (c : SpeedConfig) (nm : string) (w : World) :
  (~ In nm (get_speed_names c) ->
     outcome_of w (get_speed_name_value c nm) = Returned 1.0%float /\
     logged WARNING (trace_of w (get_speed_name_value c nm)) =
       [speed_not_found nm (get_speed_names c)]) /\
  (forall v, dict_get (speeds c) nm = Some v ->
     outcome_of w (get_speed_name_value c nm) = Returned v /\
     trace_of w (get_speed_name_value c nm) = []).
Proof.
  unfold get_speed_name_value, dict_in, outcome_of, trace_of. split.
  - intros Hnot. apply dict_get_None in Hnot. rewrite Hnot. by simpl.
  - intros v Hv. rewrite Hv. by simpl.
Qed.

(** ** Content Preprocessor (content_transform_node) *)

Lemma model_calls_app (t1 t2 : Trace) :
  model_calls (t1 ++ t2) = model_calls t1 ++ model_calls t2.
Proof. apply omap_app. Qed.

Ltac by_rule oi := exists oi; split; [ | reflexivity ].

Lemma language_calls_app (t1 t2 : Trace) :
  language_calls (t1 ++ t2) = language_calls t1 ++ language_calls t2.
Proof. apply omap_app. Qed.

Lemma transform_list_item_rule qa briefing s acc :
  wp (transform_list_item qa briefing (IStr s) acc) [] (item_post briefing s acc).
Proof.
  unfold transform_list_item, item_post.
  destruct (5000 <? length (strip s))%nat eqn:Hlong.
  { apply Nat.ltb_lt in Hlong. simpl. intros [] [] [e|m]; simpl.
    - split; [done|].
      by_rule (@Raised Item e). by apply (rule_summarise _ _ (inl e)).
    - intros []. split; [done|].
      by_rule (Returned (IMsg m)). by apply (rule_summarise _ _ (inr m)). }
  apply Nat.ltb_ge in Hlong.
  destruct (500 <=? length (strip s))%nat eqn:Hmid.
  { apply Nat.leb_le in Hmid. simpl. intros []. split; [done|].
    by_rule (Returned (IStr s)). by apply rule_pass. }
  apply Nat.leb_gt in Hmid. simpl. intros [e|m]; simpl.
  { split; [done|]. by_rule (@Raised Item e). by apply rule_judge_fails. }
  destruct (contains xuyao (content m)) eqn:Hyes; simpl.
  - intros [] [] r.
    destruct (contains bu_xuyao (content m)) eqn:Hno.
    + destruct r as [e|m']; simpl; (split; [done|]).
      * by_rule (@Raised Item e). by apply rule_judge_open.
      * by_rule (Returned (IMsg m')). by apply rule_judge_open.
    + destruct r as [e|m']; simpl; (split; [done|]).
      * by_rule (@Raised Item e). by apply (rule_judge_yes _ _ m (inl e)).
      * by_rule (Returned (IMsg m')). by apply (rule_judge_yes _ _ m (inr m')).
  - intros []. split; [done|]. by_rule (Returned (IStr s)). by apply rule_judge_no.
Qed.

Lemma transform_items_rule qa briefing items : forall acc t,
  wp (for_loop items (transform_list_item qa briefing) acc) t
     (items_post briefing items acc t).
Proof.
  induction items as [|item items IH]; intros acc t.
  - simpl. exists [], (Returned []). rewrite !app_nil_r. repeat split. constructor.
  - cbn [for_loop]. apply wp_bind. destruct item as [s|m|n].
    + eapply wp_mono; [|apply wp_frame_nil, transform_list_item_rule].
      intros o t' (d & -> & Hlang & oi & Hrule & ->). destruct oi as [x|e].
      * eapply wp_mono; [|apply IH].
        intros o t' (d' & oi' & -> & Hlang' & Hrest & ->).
        exists (d ++ d').
        rewrite model_calls_app, language_calls_app, Hlang, Hlang', app_assoc.
        destruct oi' as [xs|e].
        -- exists (Returned (x :: xs)). split; [done|]. split; [done|].
           split; [by constructor|]. by rewrite <- app_assoc.
        -- exists (Raised e). split; [done|]. split; [done|].
           split; [by eapply items_rest_fails|done].
      * exists d, (Raised e). split; [done|]. split; [done|].
        split; [by constructor|done].
    + simpl. eapply wp_mono; [|apply IH].
      intros o t' (d' & oi' & -> & Hlang' & Hrest & ->).
      exists d'. eexists. split; [done|]. split; [done|].
      split; [by apply items_msg|].
      destruct oi'; [by rewrite <- app_assoc|done].
    + simpl. eapply wp_mono; [|apply IH].
      intros o t' (d' & oi' & -> & Hlang' & Hrest & ->).
      exists d'. eexists. split; [done|]. split; [done|].
      split; [by apply items_other|].
      destruct oi'; [by rewrite <- app_assoc|done].
Qed.

Lemma content_transform_str_rule state cfg s :
  wp (content_transform_node (with_content state (One (IStr s))) cfg) []
     (fun o t =>
        exists r,
          language_calls t
          = [(default "openai" (cfg_qa_provider cfg),
              default "gpt-4o-mini" (cfg_qa_model cfg), 2000%nat, false, r)] /\
          match r with
          | inl e => o = Raised e /\ model_calls t = []
          | inr _ =>
              exists oi, item_rule (st_briefing state) s (model_calls t) oi /\
                o = match oi with
                    | Returned x => Returned (One x)
                    | Raised e => Raised e
                    end
          end).
Proof.
  unfold content_transform_node. simpl. intros [] [] [e|[]]; simpl.
  { by exists (inl e). }
  destruct (5000 <? length (strip s))%nat eqn:Hlong.
  { apply Nat.ltb_lt in Hlong. simpl. intros [] [] [e|m]; simpl; [|intros []];
      (exists (inr tt); split; [done|]).
    - by_rule (@Raised Item e). by apply (rule_summarise _ _ (inl e)).
    - by_rule (Returned (IMsg m)). by apply (rule_summarise _ _ (inr m)). }
  apply Nat.ltb_ge in Hlong.
  destruct (500 <=? length (strip s))%nat eqn:Hmid.
  { apply Nat.leb_le in Hmid. simpl. intros []. exists (inr tt). split; [done|].
    by_rule (Returned (IStr s)). by apply rule_pass. }
  apply Nat.leb_gt in Hmid. simpl. intros [e|m]; simpl.
  { exists (inr tt). split; [done|].
    by_rule (@Raised Item e). by apply rule_judge_fails. }
  destruct (contains xuyao (content m)) eqn:Hyes; simpl.
  - intros [] [] r.
    destruct (contains bu_xuyao (content m)) eqn:Hno.
    + destruct r as [e|m']; simpl; (exists (inr tt); split; [done|]).
      * by_rule (@Raised Item e). by apply rule_judge_open.
      * by_rule (Returned (IMsg m')). by apply rule_judge_open.
    + destruct r as [e|m']; simpl; (exists (inr tt); split; [done|]).
      * by_rule (@Raised Item e). by apply (rule_judge_yes _ _ m (inl e)).
      * by_rule (Returned (IMsg m')). by apply (rule_judge_yes _ _ m (inr m')).
  - intros []. exists (inr tt). split; [done|].
    by_rule (Returned (IStr s)). by apply rule_judge_no.
Qed.

Lemma content_transform_list_rule state cfg items :
  wp (content_transform_node (with_content state (Many items)) cfg) []
     (fun o t =>
        exists r,
          language_calls t
          = [(default "openai" (cfg_qa_provider cfg),
              default "gpt-4o-mini" (cfg_qa_model cfg), 2000%nat, false, r)] /\
          match r with
          | inl e => o = Raised e /\ model_calls t = []
          | inr _ =>
              exists oi, items_rule (st_briefing state) items (model_calls t) oi /\
                o = match oi with
                    | Returned xs => Returned (Many xs)
                    | Raised e => Raised e
                    end
          end).
Proof.
  unfold content_transform_node. simpl. intros [] [] [e|[]]; simpl.
  { by exists (inl e). }
  apply (wp_bind (for_loop _ _ _)).
  eapply wp_mono; [|apply transform_items_rule].
  intros o t' (d & oi & -> & Hlang & Hrule & ->).
  destruct oi as [xs|e]; simpl;
    (exists (inr tt); split;
       [unfold language_calls in *; simpl; by rewrite Hlang|]).
  - by exists (Returned xs).
  - by exists (Raised e).
Qed.

(** C2 (as amended). The Content Preprocessor creates its language model
    once, with the configured provider and model; when the creation
    fails, its error ends the run before any model call.  Otherwise, for
    every string content item, alone or in a list, exactly one branch
    applies, in this order, with lengths taken after stripping white
    space: above 5000 characters one summarisation call is made and the
    summary takes the item's place; from 500 to 5000 characters the item
    is kept and no call is made; below 500 one classifier call is made,
    and the item is kept when the answer does not hold the word for
    "needed", while an answer that holds it (and not the word for "not
    needed") leads to a second call whose answer takes the item's place.
    Items of a list are treated one after the other by the same rule. *)
Theorem C2_preprocessor_branches (w : World) (state : PodcastState)
    (cfg : Configurable) :
  (forall s,
     let m := content_transform_node (with_content state (One (IStr s))) cfg in
     exists r,
       language_calls (trace_of w m)
       = [(default "openai" (cfg_qa_provider cfg),
           default "gpt-4o-mini" (cfg_qa_model cfg), 2000%nat, false, r)] /\
       match r with
       | inl e => outcome_of w m = Raised e /\ model_calls (trace_of w m) = []
       | inr _ =>
           exists oi,
             item_rule (st_briefing state) s (model_calls (trace_of w m)) oi /\
             outcome_of w m = match oi with
                              | Returned x => Returned (One x)
                              | Raised e => Raised e
                              end
       end) /\
  (forall items,
     let m := content_transform_node (with_content state (Many items)) cfg in
     exists r,
       language_calls (trace_of w m)
       = [(default "openai" (cfg_qa_provider cfg),
           default "gpt-4o-mini" (cfg_qa_model cfg), 2000%nat, false, r)] /\
       match r with
       | inl e => outcome_of w m = Raised e /\ model_calls (trace_of w m) = []
       | inr _ =>
           exists oi,
             items_rule (st_briefing state) items (model_calls (trace_of w m)) oi /\
             outcome_of w m = match oi with
                              | Returned xs => Returned (Many xs)
                              | Raised e => Raised e
                              end
       end).
Proof.
  split.
  - intros s m. exact (wp_sound m _ w (content_transform_str_rule state cfg s)).
  - intros items m.
    exact (wp_sound m _ w (content_transform_list_rule state cfg items)).
Qed.

(** An item of 5001 characters, two of them trailing spaces, is longer
    than 5000 characters and yet is kept as it is, without any model
    call: the length that counts is the stripped one. *)
Lemma C2_padded_item_not_summarised :
  (5000 < length padded_item)%nat /\
  model_calls (trace_of quiet_world
     (content_transform_node (with_content empty_state (One (IStr padded_item)))
                             no_config)) = [] /\
  outcome_of quiet_world
     (content_transform_node (with_content empty_state (One (IStr padded_item)))
                             no_config) = Returned (One (IStr padded_item)).
Proof. vm_compute. repeat split. lia. Qed.

(** The classifier's "not needed" holds the word "needed": the node
    tests for the latter, so the second call is made all the same. *)
Example not_needed_is_read_as_needed :
  map fst (model_calls (trace_of world_not_needed
     (content_transform_node (with_content empty_state (One (IStr [63%N])))
                             no_config)))
  = [judge_prompt [63%N]; qa_prompt [63%N]].
Proof. reflexivity. Qed.

(** ** Outline Generator and Transcript Generator *)

Lemma model_beats_app (t1 t2 : Trace) :
  model_beats (t1 ++ t2) = model_beats t1 ++ model_beats t2.
Proof. apply omap_app. Qed.

(** What a retry rule says in numbers: at most [n] attempts, one pause
    of [pause] seconds between two attempts and none elsewhere. *)
Lemma retry_rule_counts {Q R A} pause (q : Q) (res : R -> Exn + A) fatal n beats o :
  retry_rule pause q res fatal n beats o ->
  (1 <= attempts_in beats <= n)%nat /\
  pauses_in beats = repeat pause (attempts_in beats - 1) /\
  (forall e, o = Raised e -> attempts_in beats = n).
Proof.
  induction 1 as [n r a Hr|r e Hr|n r e beats o Hr Hrule IH]; simpl.
  - repeat split; [lia|lia|done].
  - repeat split; lia.
  - destruct IH as ((H1 & Hn) & Hp & He). repeat split; [lia|lia| |].
    + rewrite Hp. replace (attempts_in beats - 0)%nat with (S (attempts_in beats - 1))
        by lia. done.
    + intros e' ->. by rewrite (He e' eq_refl).
Qed.

(** Walks through the (at most three or five) attempts of a retry loop. *)
Ltac retry_walk :=
  repeat (simpl;
          match goal with
          | |- forall _ : unit, _ => intros []
          | |- forall _ : Exn + _, _ => intros [?e|?m]
          | |- context [lift_result ?x] => destruct x eqn:?
          end).

Ltac retry_solve :=
  first [ eapply retry_ok; simpl; eassumption
        | eapply retry_ok; reflexivity
        | eapply retry_last; simpl; first [eassumption | reflexivity]
        | eapply retry_again; [simpl; first [eassumption | reflexivity] | retry_solve] ].

Lemma generate_outline_rule core state cfg :
  wp (generate_outline_node core state cfg) []
     (fun o t =>
        exists r,
          language_calls t
          = [(default "openai" (cfg_outline_provider cfg),
              default "gpt-4o-mini" (cfg_outline_model cfg), 3000%nat, true, r)] /\
          match r with
          | inl e => o = Raised e /\ model_beats t = []
          | inr _ =>
              retry_rule 1 (outline_prompt (outline_data state))
                         (outline_attempt core) outline_fatal 3
                         (model_beats t) o
          end).
Proof.
  unfold generate_outline_node, outline_data. simpl. intros [] [] [e|[]]; simpl.
  { by exists (inl e). }
  retry_walk; (exists (inr tt); split; [reflexivity|]); retry_solve.
Qed.

Lemma transcript_segment_rule core env model i segment acc :
  wp (transcript_segment core env model (i, segment) acc) []
     (segment_post core env i segment acc).
Proof.
  unfold transcript_segment, segment_post. simpl. intros [].
  retry_walk; (split; [reflexivity|]); eexists;
    (split; [retry_solve | reflexivity]).
Qed.

Lemma transcript_segments_rule core env model segs : forall i acc t,
  wp (for_loop (enumerate_from i segs) (transcript_segment core env model) acc) t
     (fun o t' => exists d os,
          t' = t ++ d /\ language_calls d = [] /\
          segments_rule core env i segs (model_beats d) os /\
          o = match os with
              | Returned later => Returned (acc ++ later)
              | Raised e => Raised e
              end).
Proof.
  induction segs as [|segment segs IH]; intros i acc t.
  - simpl. exists [], (Returned []). rewrite !app_nil_r.
    split; [done|]. split; [done|]. split; [constructor|done].
  - cbn [enumerate_from for_loop]. apply wp_bind.
    eapply wp_mono; [|apply wp_frame_nil, transcript_segment_rule].
    intros o t' (d & -> & Hlang & ob & Hrule & ->). destruct ob as [batch|e].
    + eapply wp_mono; [|apply IH].
      intros o t' (d' & os & -> & Hlang' & Hrest & ->).
      exists (d ++ d').
      rewrite model_beats_app, language_calls_app, Hlang, Hlang', app_assoc.
      eexists. split; [done|]. split; [done|]. split; [by eapply segments_ok|].
      destruct os; [by rewrite <- app_assoc|done].
    + exists d, (Raised e). split; [done|]. split; [done|].
      split; [by constructor|done].
Qed.

Lemma generate_transcript_rule core state cfg :
  wp (generate_transcript_node core state cfg) []
     (fun o t =>
        transcript_run state cfg o t
          (fun env => segments_rule core env 0 (segments (te_outline env))
                                    (model_beats t) o)).
Proof.
  unfold generate_transcript_node, transcript_run. simpl. intros [] [].
  destruct (st_outline state) as [outline|] eqn:Hout; simpl; [|done].
  destruct (st_speaker_profile state) as [profile|] eqn:Hprof; simpl; [|done].
  intros [e|[]]; simpl; [by exists (inl e)|].
  destruct (st_emotions_config state) as [emo|] eqn:Hemo; simpl;
    [|by exists (inr tt)].
  destruct (st_speed_config state) as [spd|] eqn:Hspd; simpl;
    [|by exists (inr tt)].
  assert (forall (caps : bool * list string) t0,
    model_beats t0 = [] ->
    language_calls t0
    = [(default "openai" (cfg_transcript_provider cfg),
        default "gpt-4o-mini" (cfg_transcript_model cfg), 5000%nat, true,
        inr tt)] ->
    wp (for_loop (enumerate (segments outline))
          (transcript_segment core
             {| te_state := state; te_outline := outline; te_profile := profile;
                te_emotions := emo; te_speeds := spd;
                te_supports_voice_tags := fst caps;
                te_available_voice_tags := snd caps |}
             (default "openai" (cfg_transcript_provider cfg),
              default "gpt-4o-mini" (cfg_transcript_model cfg))) []
          ≫= (fun transcript =>
                log INFO (transcript_generated (length transcript));;
                mret transcript)) t0
       (fun o t =>
          exists r,
            language_calls t
            = [(default "openai" (cfg_transcript_provider cfg),
                default "gpt-4o-mini" (cfg_transcript_model cfg), 5000%nat,
                true, r)] /\
            match r with
            | inl e => o = Raised e /\ model_beats t = []
            | inr _ =>
                exists caps' : bool * list string,
                  segments_rule core
                    {| te_state := state; te_outline := outline;
                       te_profile := profile; te_emotions := emo;
                       te_speeds := spd;
                       te_supports_voice_tags := fst caps';
                       te_available_voice_tags := snd caps' |}
                    0 (segments outline) (model_beats t) o
            end))
    as Hloop.
  { intros caps t0 Ht0 Hl0. apply wp_bind.
    eapply wp_mono; [|apply transcript_segments_rule].
    intros o t' (d & os & -> & Hlang & Hrule & ->). destruct os as [tr|e]; simpl.
    - intros []. exists (inr tt).
      rewrite !language_calls_app, Hl0, Hlang. split; [done|].
      exists caps. rewrite !model_beats_app, Ht0. simpl. by rewrite app_nil_r.
    - exists (inr tt). rewrite !language_calls_app, Hl0, Hlang.
      split; [done|].
      exists caps. by rewrite !model_beats_app, Ht0. }
  intros [e|[cap|]]; simpl.
  - intros []. by apply (Hloop (false, [])).
  - intros []. by apply (Hloop (_, _)).
  - by apply (Hloop (false, [])).
Qed.

(** C4. The Outline Generator creates its language model once; when the
    creation fails, its error ends the run before any model call, and
    otherwise it makes the model call on the outline prompt of the state
    and parses its answer at most three times, pauses one second after a
    failed attempt before the next, and raises a fatal error when the
    third attempt fails too.  The Transcript Generator raises an
    [AssertionError] without an outline, a speaker profile, an emotion or
    a speed configuration, passes on the error of a failed creation of
    its language model, and makes no model call in these runs; in every
    other run it goes through the outline's segments: the attempts for a
    segment, at most three with the same pauses and the same fatal error,
    are all made on that segment's prompt, the segments' loops follow one
    another in outline order, and the transcript is the batches accepted
    for the segments, in that order. *)
Theorem C4_bounded_retry_per_stage_and_segment (w : World) (core : Core)
    (state : PodcastState) (cfg : Configurable) :
  (let m := generate_outline_node core state cfg in
   exists r,
     language_calls (trace_of w m)
     = [(default "openai" (cfg_outline_provider cfg),
         default "gpt-4o-mini" (cfg_outline_model cfg), 3000%nat, true, r)] /\
     match r with
     | inl e => outcome_of w m = Raised e /\ model_beats (trace_of w m) = []
     | inr _ =>
         retry_rule 1 (outline_prompt (outline_data state))
                    (outline_attempt core) outline_fatal 3
                    (model_beats (trace_of w m)) (outcome_of w m)
     end) /\
  (let m := generate_transcript_node core state cfg in
   transcript_run state cfg (outcome_of w m) (trace_of w m)
     (fun env => segments_rule core env 0 (segments (te_outline env))
                               (model_beats (trace_of w m)) (outcome_of w m))).
Proof.
  split.
  - intros m. exact (wp_sound m _ w (generate_outline_rule core state cfg)).
  - intros m. exact (wp_sound m _ w (generate_transcript_rule core state cfg)).
Qed.

(** ** Validated Script Parser *)

Lemma validated_parser_whole_or_nothing parse sn en spn raw lines :
  create_validated_transcript_parser parse sn en spn raw = inr lines <->
  parse raw = inr lines /\ forallb (dialogue_valid sn en spn) lines = true.
Proof.
  unfold create_validated_transcript_parser.
  destruct (parse raw) as [e|parsed]; [by split; [|intros []]|].
  destruct (forallb _ parsed) eqn:Hall.
  - split; [by intros [= <-]|by intros [[= <-] _]].
  - split; [done|]. intros [[= <-] Hall']. congruence.
Qed.

Lemma rejected_fails core env r :
  rejected core env r -> exists e, transcript_attempt core env r = inl e.
Proof.
  intros (m & lines & -> & Hparse & Hbad). simpl.
  unfold validated_transcript_parser, create_validated_transcript_parser.
  rewrite Hparse, Hbad. eauto.
Qed.

Lemma retry_rule_head {Q R A} pause (q : Q) (res : R -> Exn + A) fatal n beats o :
  retry_rule pause q res fatal n beats o ->
  exists r rest, beats = Attempt q r :: rest.
Proof. destruct 1; eauto. Qed.

Lemma retry_rule_retried {Q R A} pause (q : Q) (res : R -> Exn + A) fatal n beats o :
  retry_rule pause q res fatal n beats o ->
  retried_or_fatal pause (fun r => exists e, res r = inl e) fatal beats o.
Proof.
  induction 1 as [n r a Hr|r e Hr|n r e beats o Hr Hrule IH];
    intros pre q' r' post Heq [e' Hfail].
  - destruct pre as [|b [|b' pre]]; simplify_eq/=. congruence.
  - destruct pre as [|b [|b' pre]]; simplify_eq/=.
    right. split; [done|]. exists e'. congruence.
  - destruct pre as [|b [|b' pre]]; simplify_eq/=.
    + left. apply retry_rule_head in Hrule as (r2 & rest & ->). eauto.
    + by eapply IH; eauto.
Qed.

Lemma segments_rule_retried core env i segs beats o :
  segments_rule core env i segs beats o ->
  retried_or_fatal 1 (rejected core env) transcript_fatal beats o.
Proof.
  induction 1 as [i|i segment rest beats batch beats' o Hseg Hrest IH
                  |i segment rest beats e Hseg];
    intros pre q r post Heq Hrej.
  - by destruct pre.
  - apply app_eq_inv in Heq as [(k & Hb & Hk)|(k & -> & Hb)].
    + destruct k as [|b k]; simpl in Hk.
      * destruct (IH [] q r post) as [Hretry|(-> & e & ->)]; [by rewrite <- Hk|done|..].
        -- by left.
        -- right. eauto.
      * injection Hk as <- ->.
        destruct (retry_rule_retried _ _ _ _ _ _ _ Hseg pre q r k Hb
                    (rejected_fails _ _ _ Hrej)) as [(r' & post' & ->)|(_ & e & [=])].
        left. by exists r', (post' ++ beats').
    + destruct (IH k q r post Hb Hrej) as [Hretry|(-> & e & ->)].
      * by left.
      * right. eauto.
  - by eapply (retry_rule_retried _ _ _ _ _ _ _ Hseg), rejected_fails.
Qed.

Lemma accepted_lines_app core env b1 b2 :
  accepted_lines core env (b1 ++ b2)
  = accepted_lines core env b1 ++ accepted_lines core env b2.
Proof. unfold accepted_lines. apply flat_map_app. Qed.

Lemma retry_rule_accepted core env q n beats batch :
  retry_rule 1 q (transcript_attempt core env) transcript_fatal n beats
             (Returned batch) ->
  accepted_lines core env beats = batch /\
  forallb (dialogue_valid (get_speaker_names (te_profile env))
                          (get_emotions_names (te_emotions env))
                          (get_speed_names (te_speeds env))) batch = true.
Proof.
  intros H. remember (Returned batch) as o eqn:Ho.
  induction H as [n r a Hr|r e Hr|n r e beats o Hr Hrule IH]; simplify_eq/=.
  - unfold accepted_lines. simpl. rewrite Hr, app_nil_r. split; [done|].
    destruct r as [e|m]; [done|]. simpl in Hr.
    by apply validated_parser_whole_or_nothing in Hr as [_ Hall].
  - destruct (IH eq_refl) as [Hacc Hall]. split; [|done].
    unfold accepted_lines in *. simpl. by rewrite Hr.
Qed.

Lemma segments_rule_accepted core env i segs beats tr :
  segments_rule core env i segs beats (Returned tr) ->
  tr = accepted_lines core env beats /\
  Forall (fun d => dialogue_valid (get_speaker_names (te_profile env))
                                  (get_emotions_names (te_emotions env))
                                  (get_speed_names (te_speeds env)) d = true) tr.
Proof.
  intros H. remember (Returned tr) as o eqn:Ho. revert tr Ho.
  induction H as [i|i segment rest beats batch beats' o Hseg Hrest IH
                  |i segment rest beats e Hseg]; intros tr Ho.
  - injection Ho as <-. by split.
  - destruct o as [later|e]; [|done]. injection Ho as <-.
    destruct (IH later eq_refl) as [-> Hvalid].
    apply retry_rule_accepted in Hseg as [Hacc Hall].
    rewrite accepted_lines_app, Hacc. split; [done|].
    apply Forall_app. split; [|done].
    apply Forall_forall. intros d Hd. apply list_elem_of_In in Hd.
    by apply (proj1 (forallb_forall _ _) Hall).
  - done.
Qed.

Lemma transcript_run_mono state cfg o t (P Q : TranscriptEnv -> Prop) :
  (forall env, P env -> Q env) ->
  transcript_run state cfg o t P -> transcript_run state cfg o t Q.
Proof.
  intros HPQ. unfold transcript_run.
  destruct (st_outline state), (st_speaker_profile state); try done.
  intros (r & Hr & H). exists r. split; [done|].
  destruct r as [e|u]; [done|].
  destruct (st_emotions_config state), (st_speed_config state); try done.
  destruct H as (caps & H). exists caps. by apply HPQ.
Qed.

(** C8. The Validated Script Parser accepts a segment's output only when
    every parsed line names a configured speaker and, where present, a
    configured emotion and speed; otherwise it rejects the whole output.
    A run of the Transcript Generator that has an outline, a speaker
    profile, its language model and both configurations goes through the
    outline's segments in order, making for each segment up to three
    attempts on that segment's prompt; in it a rejected output is
    followed by a one-second pause and a new attempt on the same
    segment's prompt, or, at the third attempt, by the fatal error; and a
    transcript that is returned is made of the lines of the accepted
    outputs only, each of them whole.  Any other run raises the
    [AssertionError] of the missing value or the error of the failed
    creation of the model, and makes no model call. *)
Theorem C8_whole_batch_rejected_and_retried (w : World) (core : Core)
    (state : PodcastState) (cfg : Configurable) :
  (forall parse sn en spn raw lines,
     create_validated_transcript_parser parse sn en spn raw = inr lines <->
     parse raw = inr lines /\ forallb (dialogue_valid sn en spn) lines = true) /\
  (let m := generate_transcript_node core state cfg in
   transcript_run state cfg (outcome_of w m) (trace_of w m)
     (fun env =>
        segments_rule core env 0 (segments (te_outline env))
                      (model_beats (trace_of w m)) (outcome_of w m) /\
        retried_or_fatal 1 (rejected core env) transcript_fatal
                         (model_beats (trace_of w m)) (outcome_of w m) /\
        forall tr, outcome_of w m = Returned tr ->
          tr = accepted_lines core env (model_beats (trace_of w m)) /\
          Forall (fun d => dialogue_valid (get_speaker_names (te_profile env))
                             (get_emotions_names (te_emotions env))
                             (get_speed_names (te_speeds env)) d = true) tr)).
Proof.
  split; [intros; apply validated_parser_whole_or_nothing|].
  intros m.
  pose proof (wp_sound m _ w (generate_transcript_rule core state cfg)) as Hrun.
  revert Hrun. apply transcript_run_mono.
  intros env Hrule. split; [done|]. split.
  - by eapply segments_rule_retried.
  - intros tr Htr. rewrite Htr in Hrule. by eapply segments_rule_accepted.
Qed.

(** ** Audio Synthesis Scheduler: one clip *)

Ltac clip_walk :=
  repeat (simpl;
          match goal with
          | |- forall _ : unit, _ => intros []
          | |- forall _ : bool, _ => intros []
          | |- forall _ : Exn + _, _ => intros [?e|?m]
          | |- context [if truthy ?x then _ else _] => destruct (truthy x) eqn:?
          | |- context [if ?b then _ else _] => is_var b; destruct b
          end).

Ltac in_list := solve [simpl; repeat first [left; reflexivity | right]].

Lemma generate_single_audio_clip_rule info emo spd :
  wp (generate_single_audio_clip info emo spd) []
     (fun o t =>
        (exists c e,
           last t ≫= setup_failure = Some (c, e) /\ In c (clip_setup info) /\
           o = Raised e /\ speech_beats t = []) \/
        (omap setup_failure t = [] /\
         exists ref,
           reference_resolved
             (di_custom_voices info !! speaker (di_dialogue info)) t ref /\
           retry_rule 3 (clip_request info ref)
                      (clip_attempt (clip_file (di_output_dir info) (di_index info)))
                      (audio_fatal (di_index info)) 5 (speech_beats t) o)).
Proof.
  unfold generate_single_audio_clip, clip_request, clip_file, clip_setup.
  generalize (di_custom_voices info !! speaker (di_dialogue info)).
  intros custom. clip_walk.
  all: first
    [ left; eexists _, _; split; [reflexivity|];
      split; [in_list|split; reflexivity]
    | right; split; [reflexivity|]; eexists; split; [|retry_solve];
      unfold reference_resolved; destruct custom as [cv|]; try done;
      match goal with H : truthy (Some _) = _ |- _ => rewrite H end;
      first [ reflexivity
            | left; eexists; split; [reflexivity|split; reflexivity]
            | right; split; [reflexivity|split; reflexivity] ] ].
Qed.

Lemma retry_rule_requests {Q R A} pause (q : Q) (res : R -> Exn + A) fatal n beats o :
  retry_rule pause q res fatal n beats o ->
  Forall (fun q' => q' = q) (omap attempt_request beats).
Proof.
  induction 1 as [n r a Hr|r e Hr|n r e beats o Hr Hrule IH]; simpl;
    repeat constructor; done.
Qed.

(** Every synthesis call of a clip is made with the clip's request. *)
Lemma clip_requests_rule (w : World) info emo spd :
  Forall (fun req => exists ref, req = clip_request info ref)
         (speech_requests (trace_of w (generate_single_audio_clip info emo spd))).
Proof.
  unfold speech_requests.
  destruct (wp_sound _ _ w (generate_single_audio_clip_rule info emo spd))
    as [(c & e & _ & _ & _ & ->)|(_ & ref & _ & Hrule)]; [constructor|].
  eapply Forall_impl; [by eapply retry_rule_requests|].
  intros req ->. by exists ref.
Qed.

(** C3. A clip task first makes the clips directory and creates the
    speech model and, for a speaker with a custom voice, tests for the
    file and reads it when it is there.  When one of these preparations
    fails, its error ends the task at once and no synthesis call is made.
    When none fails, the synthesis call of the line is made, on the
    line's request, at most five times, with a pause of three seconds
    after a failed attempt before the next: when the fifth attempt fails
    too the fatal error is raised, and when an attempt succeeds, the
    fifth included, the clip's path is returned and no error is raised. *)
Theorem C3_synthesis_retry (w : World) (info : DialogueInfo)
    (emo : option EmotionConfig) (spd : option SpeedConfig) :
  let m := generate_single_audio_clip info emo spd in
  let t := trace_of w m in
  (exists c e,
     last t ≫= setup_failure = Some (c, e) /\ In c (clip_setup info) /\
     outcome_of w m = Raised e /\ speech_beats t = []) \/
  (omap setup_failure t = [] /\
   exists ref,
     reference_resolved (di_custom_voices info !! speaker (di_dialogue info))
                        t ref /\
     retry_rule 3 (clip_request info ref)
                (clip_attempt (clip_file (di_output_dir info) (di_index info)))
                (audio_fatal (di_index info)) 5
                (speech_beats t) (outcome_of w m)).
Proof.
  intros m t.
  exact (wp_sound m _ w (generate_single_audio_clip_rule info emo spd)).
Qed.

(** Four failures followed by a success: five attempts, four pauses of
    three seconds, and the clip. *)
Example four_failures_then_success :
  outcome_of (speech_failures 4) (generate_single_audio_clip info0 None None)
    = Returned ["out"; "clips"; "0000.mp3"] /\
  attempts_in (speech_beats (trace_of (speech_failures 4)
                 (generate_single_audio_clip info0 None None))) = 5%nat /\
  pauses (trace_of (speech_failures 4)
            (generate_single_audio_clip info0 None None)) = [3; 3; 3; 3]%nat.
Proof. vm_compute. done. Qed.

(** Five failures: the fatal error, after five attempts. *)
Example five_failures_are_fatal :
  outcome_of (speech_failures 5) (generate_single_audio_clip info0 None None)
    = Raised (audio_fatal 0 (External "synthesis backend unavailable")) /\
  attempts_in (speech_beats (trace_of (speech_failures 5)
                 (generate_single_audio_clip info0 None None))) = 5%nat.
Proof. vm_compute. done. Qed.

(** C6. A dialogue line tagged "excited", with an emotion configuration
    that describes "excited" by a description and by voice instructions:
    the synthesis call receives as its "instructions" option the tag
    name itself, which is neither of the configured texts. *)
Theorem C6_instructions_carry_the_tag_name :
  map (fun req => instructions (sr_kwargs req))
      (speech_requests (trace_of quiet_world
         (generate_single_audio_clip info0 (Some emotions0) None)))
    = [Some "excited"] /\
  get_emotion emotions0 "excited" = inr excited /\
  get_voice_instructions excited <> "excited" /\
  description excited <> "excited".
Proof. vm_compute. repeat split; discriminate. Qed.

(** For every line and every world: the "instructions" option is the
    line's emotion tag when the line has one, and is absent otherwise;
    the emotion configuration is not consulted. *)
Lemma clip_instructions_rule (w : World) info emo spd :
  Forall (fun req => instructions (sr_kwargs req) =
                     if truthy (emotion (di_dialogue info))
                     then emotion (di_dialogue info) else None)
         (speech_requests (trace_of w (generate_single_audio_clip info emo spd))).
Proof.
  eapply Forall_impl; [apply clip_requests_rule|]. by intros req [ref ->].
Qed.

(** ** Dialect path: scheduler and back ends *)

Lemma clip_dialect_rule (w : World) info emo spd :
  Forall (fun req => kw_dialect (sr_kwargs req) =
                     if truthy (di_dialect info) then di_dialect info else None)
         (speech_requests (trace_of w (generate_single_audio_clip info emo spd))).
Proof.
  eapply Forall_impl; [apply clip_requests_rule|]. by intros req [ref ->].
Qed.

Ltac backend_walk :=
  repeat (simpl;
          match goal with
          | |- forall _ : unit, _ => intros []
          | |- forall _ : Exn + _, _ => intros [?e|?x]
          | H : dict_get ?d ?k = Some _ |- context [dict_get ?d ?k] => rewrite H
          | |- context [if ?b then _ else _] => destruct b eqn:?
          end).

(** A run that did not return holds an event that was not answered. *)
Ltac unanswered H :=
  repeat (apply Forall_cons in H as [? H]); simpl in *; tauto.

Lemma kokoro_dialect_rule config a d :
  d <> "" -> sa_dialect a = Some d -> voices_configured config ->
  wp (kokoro_generate_speech config a) []
     (fun o t =>
        In (dialect_unsupported "Kokoro" d) (logged WARNING t) /\
        (exists v lang,
           engine_calls t = [CKokoroModel (kokoro_text config a) v lang (sa_speed a)]) /\
        (Forall answered t -> exists x, o = Returned x)).
Proof.
  intros Hd Ha Hcfg.
  destruct (Hcfg "kokoro" (or_introl eq_refl)) as (vm & fb & Hvm & Hfb).
  destruct (Hcfg "kokoro_zh" (or_intror eq_refl)) as (vmz & fbz & Hvmz & Hfbz).
  assert (truthy (sa_dialect a) = true) as Htr.
  { rewrite Ha. simpl. by destruct (String.eqb_spec d ""). }
  unfold kokoro_generate_speech, kokoro_text, _detect_language, dict_item,
    convert_format.
  rewrite Htr, Ha.
  destruct (dialect_utils_present config);
    backend_walk;
    (split; [simpl; tauto|]);
    (split; [by eexists _, _|]);
    intros Hall; first [by eexists | unanswered Hall].
Qed.

Lemma qwen_dialect_rule model req :
  wp (qwen_generate_speech model req) []
     (fun o t =>
        logged WARNING t = [] /\
        engine_calls t = [CDashScope model (sr_text req) (sr_voice req) "Auto"] /\
        (Forall answered t -> exists x, o = Returned x)).
Proof.
  unfold qwen_generate_speech.
  backend_walk; (split; [done|]); (split; [done|]);
    intros Hall; first [by eexists | unanswered Hall].
Qed.

Lemma clip_answered_rule info emo spd :
  wp (generate_single_audio_clip info emo spd) []
     (fun o t =>
        Forall answered t ->
        o = Returned (clip_file (di_output_dir info) (di_index info)) /\
        exists ref, speech_requests t = [clip_request info ref]).
Proof.
  unfold generate_single_audio_clip, clip_request, clip_file.
  clip_walk.
  all: intros Hall;
    first [ split; [reflexivity|]; eexists; reflexivity | unanswered Hall ].
Qed.

(** C7 (as amended). Requesting a dialect never fails the line by itself:
    a clip task for a line with a dialect returns the line's clip, after
    one synthesis request, whenever its collaborators answer.  Every
    synthesis request of the task carries the dialect as its "dialect"
    option.  Given such a request, the Kokoro back end logs a warning
    that names the dialect and asks its engine for the text with no
    dialect, and returns the audio whenever its collaborators answer.
    The Qwen provider drops the option: it logs no warning, asks its
    engine for the text with no dialect, and returns the audio whenever
    its collaborators answer. *)
Theorem C7_dialect_passed_on_and_never_fatal (w w' : World) (d : string)
    (info : DialogueInfo) (emo : option EmotionConfig) (spd : option SpeedConfig)
    (config : ServiceConfig) (model : string) :
  d <> "" -> di_dialect info = Some d -> voices_configured config ->
  let m := generate_single_audio_clip info emo spd in
  (Forall answered (trace_of w m) ->
   outcome_of w m = Returned (clip_file (di_output_dir info) (di_index info)) /\
   exists ref, speech_requests (trace_of w m) = [clip_request info ref]) /\
  forall req, In req (speech_requests (trace_of w m)) ->
    kw_dialect (sr_kwargs req) = Some d /\
    (forall a : SpeechArgs,
       sa_text a = sr_text req -> sa_voice a = sr_voice req ->
       sa_dialect a = kw_dialect (sr_kwargs req) ->
       let k := kokoro_generate_speech config a in
       In (dialect_unsupported "Kokoro" d) (logged WARNING (trace_of w' k)) /\
       (exists v lang,
          engine_calls (trace_of w' k)
          = [CKokoroModel (kokoro_text config a) v lang (sa_speed a)]) /\
       (Forall answered (trace_of w' k) ->
        exists x, outcome_of w' k = Returned x)) /\
    (let q := qwen_generate_speech model req in
     logged WARNING (trace_of w' q) = [] /\
     engine_calls (trace_of w' q)
     = [CDashScope model (sr_text req) (sr_voice req) "Auto"] /\
     (Forall answered (trace_of w' q) -> exists x, outcome_of w' q = Returned x)).
Proof.
  intros Hd Hinfo Hcfg m. split.
  - exact (wp_sound m _ w (clip_answered_rule info emo spd)).
  - intros req Hreq.
    assert (kw_dialect (sr_kwargs req) = Some d) as Hkw.
    { pose proof (clip_dialect_rule w info emo spd) as Hall.
      rewrite Forall_forall in Hall. apply list_elem_of_In in Hreq.
      rewrite (Hall req Hreq), Hinfo.
      simpl. by destruct (String.eqb_spec d ""). }
    split; [done|]. split.
    + intros a _ _ Ha k. rewrite Hkw in Ha.
      exact (wp_sound k _ w' (kokoro_dialect_rule config a d Hd Ha Hcfg)).
    + intros q. exact (wp_sound q _ w' (qwen_dialect_rule model req)).
Qed.

Lemma service0_voices_configured : voices_configured service0.
Proof.
  intros group [->| ->]; simpl; eauto.
Defined.

Lemma C7_witness :
  let m := generate_single_audio_clip info0 None None in
  (Forall answered (trace_of quiet_world m) ->
   outcome_of quiet_world m
   = Returned (clip_file (di_output_dir info0) (di_index info0)) /\
   exists ref, speech_requests (trace_of quiet_world m)
               = [clip_request info0 ref]) /\
  forall req, In req (speech_requests (trace_of quiet_world m)) ->
    kw_dialect (sr_kwargs req) = Some "cantonese" /\
    (forall a : SpeechArgs,
       sa_text a = sr_text req -> sa_voice a = sr_voice req ->
       sa_dialect a = kw_dialect (sr_kwargs req) ->
       let k := kokoro_generate_speech service0 a in
       In (dialect_unsupported "Kokoro" "cantonese")
          (logged WARNING (trace_of quiet_world k)) /\
       (exists v lang,
          engine_calls (trace_of quiet_world k)
          = [CKokoroModel (kokoro_text service0 a) v lang (sa_speed a)]) /\
       (Forall answered (trace_of quiet_world k) ->
        exists x, outcome_of quiet_world k = Returned x)) /\
    (let q := qwen_generate_speech "qwen3-tts-flash" req in
     logged WARNING (trace_of quiet_world q) = [] /\
     engine_calls (trace_of quiet_world q)
     = [CDashScope "qwen3-tts-flash" (sr_text req) (sr_voice req) "Auto"] /\
     (Forall answered (trace_of quiet_world q) ->
      exists x, outcome_of quiet_world q = Returned x)).
Proof.
  apply (C7_dialect_passed_on_and_never_fatal quiet_world quiet_world
           "cantonese" info0 None None service0 "qwen3-tts-flash").
  - discriminate.
  - reflexivity.
  - exact service0_voices_configured.
Defined.

(** The line of [info0] with the dialect "cantonese", in a world whose
    collaborators all answer: the clip is returned after one request,
    and the Kokoro back end, given that request's text, voice and
    dialect, warns and returns audio. *)
Example cantonese_line_is_synthesised :
  outcome_of quiet_world (generate_single_audio_clip info0 None None)
  = Returned ["out"; "clips"; "0000.mp3"] /\
  map (fun req => kw_dialect (sr_kwargs req))
      (speech_requests (trace_of quiet_world
         (generate_single_audio_clip info0 None None)))
  = [Some "cantonese"] /\
  logged WARNING (trace_of quiet_world (kokoro_generate_speech service0 args0))
  = [dialect_unsupported "Kokoro" "cantonese"] /\
  outcome_of quiet_world (kokoro_generate_speech service0 args0)
  = Returned ([], "audio/mpeg").
Proof. vm_compute. done. Qed.

(** The Qwen provider is given the dialect "cantonese", which its
    capability descriptor does not list: the clip is produced and no
    warning is logged. *)
Lemma C7_qwen_logs_no_warning :
  kw_dialect (sr_kwargs (clip_request info0 None)) = Some "cantonese" /\
  dialect_supported qwen_capability "cantonese" = false /\
  logged WARNING (trace_of quiet_world
     (qwen_generate_speech "qwen3-tts-flash" (clip_request info0 None))) = [] /\
  outcome_of quiet_world
     (qwen_generate_speech "qwen3-tts-flash" (clip_request info0 None))
  = Returned {| audio_data := []; content_type := "audio/wav";
                ar_model := "qwen3-tts-flash"; ar_voice := "nova";
                ar_provider := "qwen" |}.
Proof. vm_compute. done. Qed.

(** ** asyncio.gather *)

Lemma obeys_mono {B} (P Q : Event -> Prop) (R : B -> Prop) task :
  forall seen seen' : Prop,
    (seen -> seen') -> obeys P Q R seen task -> obeys P Q R seen' task.
Proof.
  induction task as [b|e|c k IH]; intros seen seen' Himp; simpl.
  - intros [Hs Hr]. auto.
  - done.
  - intros H r. destruct (H r) as [HP Hk]. split; [done|].
    eapply IH; [|exact Hk]. tauto.
Qed.

Lemma status_from_AllDone {B} (tasks : list (Coro B)) : forall i results,
  status_from i tasks = AllDone results -> tasks = map Ret results.
Proof.
  induction tasks as [|task tasks IH]; intros i results; simpl.
  - by intros [= <-].
  - destruct task as [b|e|c k]; destruct (status_from (S i) tasks) eqn:Hst;
      try done.
    intros [= <-]. simpl. f_equal. by eapply IH.
Qed.

Lemma status_from_Running {B} (tasks : list (Coro B)) : forall i pending,
  status_from i tasks = Running pending ->
  pending <> [] /\
  forall p, p ∈ pending ->
    exists c k, (i <= p)%nat /\ tasks !! (p - i)%nat = Some (Vis c k).
Proof.
  induction tasks as [|task tasks IH]; intros i pending; simpl; [done|].
  destruct task as [b|e|c k]; destruct (status_from (S i) tasks) eqn:Hst;
    try done; intros [= <-].
  - destruct (IH _ _ Hst) as [Hne Hp]. split; [done|].
    intros p Hin. destruct (Hp p Hin) as (c & k & Hle & Hlk).
    exists c, k. split; [lia|].
    replace (p - i)%nat with (S (p - S i)) by lia. done.
  - split; [done|]. intros p ->%list_elem_of_singleton.
    exists c, k. split; [lia|]. by rewrite Nat.sub_diag.
  - destruct (IH _ _ Hst) as [Hne Hp]. split; [done|].
    intros p [->|Hin]%elem_of_cons.
    + exists c, k. split; [lia|]. by rewrite Nat.sub_diag.
    + destruct (Hp p Hin) as (c' & k' & Hle & Hlk).
      exists c', k'. split; [lia|].
      replace (p - i)%nat with (S (p - S i)) by lia. done.
Qed.

Lemma picked_is_pending {B} (tasks : list (Coro B)) pending choice :
  status_from 0 tasks = Running pending ->
  exists c k,
    tasks !! nth (choice mod length pending) pending 0%nat = Some (Vis c k).
Proof.
  intros Hst. destruct (status_from_Running _ _ _ Hst) as [Hne Hp].
  assert (nth (choice mod length pending) pending 0%nat ∈ pending) as Hin.
  { apply list_elem_of_In, nth_In, Nat.mod_upper_bound.
    by destruct pending. }
  destruct (Hp _ Hin) as (c & k & _ & Hlk). rewrite Nat.sub_0_r in Hlk. eauto.
Qed.

(** The rule of [gather]: its events are the event loop's picks and
    events of its tasks; when it returns, it returns one result per task,
    in task order, and every task has done what it does before it
    returns. *)
Lemma gather_steps_rule {B} (P Q : nat -> Event -> Prop) (R : nat -> B -> Prop)
    fuel : forall (tasks : list (Coro B)) t,
  (forall i task, tasks !! i = Some task ->
     obeys (P i) (Q i) (R i) (exists e, e ∈ t /\ Q i e) task) ->
  wp (gather_steps fuel tasks) t
     (fun o t' => exists d,
        t' = t ++ d /\
        Forall (fun e => is_pick e \/ exists i, (i < length tasks)%nat /\ P i e) d /\
        forall results, o = Returned (Some results) ->
          length results = length tasks /\
          forall i r, results !! i = Some r ->
            R i r /\ exists e, e ∈ t' /\ Q i e).
Proof.
  induction fuel as [|fuel IH]; intros tasks t Hob; cbn [gather_steps];
    destruct (status_from 0 tasks) as [results|e|pending] eqn:Hst; simpl.
  1, 4: (exists []; rewrite app_nil_r; split; [done|]; split; [constructor|];
         intros results' [= <-]; apply status_from_AllDone in Hst as ->;
         split; [by rewrite length_map|]; intros i r Hr;
         specialize (Hob i (Ret r)); simpl in Hob;
         change (map Ret results) with (Ret <$> results) in Hob;
         rewrite list_lookup_fmap, Hr in Hob;
         destruct (Hob eq_refl) as [Hseen HR]; by split).
  1, 3: (exists []; rewrite app_nil_r; split; [done|];
         split; [constructor|done]).
  - exists []. rewrite app_nil_r. split; [done|]. split; [constructor|done].
  - intros choice.
    destruct (picked_is_pending tasks pending choice Hst) as (c & k & Hlk).
    rewrite Hlk. simpl. intros r.
    set (i := nth (choice mod length pending) pending 0%nat) in *.
    pose proof (lookup_lt_Some _ _ _ Hlk) as Hlt.
    destruct (Hob i _ Hlk r) as [HP Hk].
    eapply wp_mono; [|apply IH].
    + intros o t' (d & -> & Hd & Hres).
      exists (Ev (CPick pending) choice :: Ev c r :: d).
      split; [by rewrite <- !app_assoc|].
      rewrite length_insert in Hd, Hres. split; [|done].
      constructor; [by left|]. constructor; [right; eauto|done].
    + intros i' task' Hlk'.
      destruct (decide (i' = i)) as [->|Hne].
      * rewrite list_lookup_insert_eq in Hlk' by done. injection Hlk' as <-.
        eapply obeys_mono; [|exact Hk].
        intros [(e & He & HQ)|HQ].
        -- exists e. split; [|done]. rewrite !elem_of_app. auto.
        -- exists (Ev c r). split; [|done]. rewrite !elem_of_app.
           right. by apply list_elem_of_singleton.
      * rewrite list_lookup_insert_ne in Hlk' by done.
        eapply obeys_mono; [|exact (Hob i' task' Hlk')].
        intros (e & He & HQ). exists e. split; [|done].
        rewrite !elem_of_app. auto.
Qed.

Lemma sum_list_insert (l : list nat) i x y :
  l !! i = Some x -> (sum_list (<[i := y]> l) + x = sum_list l + y)%nat.
Proof.
  revert i. induction l as [|z l IH]; intros [|i]; simpl; try done.
  - intros [= ->]. lia.
  - intros Hl. specialize (IH i Hl). lia.
Qed.

(** With a step for every command of every task, [gather] does not run
    out of steps. *)
Lemma gather_steps_fuel {B} fuel : forall (tasks : list (Coro B)) budget t,
  Forall2 (fun task n => bounded n task) tasks budget ->
  (sum_list budget <= fuel)%nat ->
  wp (gather_steps fuel tasks) t (fun o _ => o <> Returned None).
Proof.
  induction fuel as [|fuel IH]; intros tasks budget t Hb Hsum; cbn [gather_steps];
    destruct (status_from 0 tasks) as [results|e|pending] eqn:Hst; simpl;
    try done.
  - exfalso.
    destruct (picked_is_pending tasks pending 0 Hst) as (c & k & Hlk).
    destruct (Forall2_lookup_l _ _ _ _ _ Hb Hlk) as (n & Hn & Hbound).
    destruct n as [|n]; [done|].
    pose proof (sum_list_insert budget _ _ 0 Hn). lia.
  - intros choice.
    destruct (picked_is_pending tasks pending choice Hst) as (c & k & Hlk).
    rewrite Hlk. simpl. intros r.
    set (i := nth (choice mod length pending) pending 0%nat) in *.
    destruct (Forall2_lookup_l _ _ _ _ _ Hb Hlk) as (n & Hn & Hbound).
    destruct n as [|n]; [done|]. simpl in Hbound.
    apply (IH _ (<[i := n]> budget)).
    + apply Forall2_insert; [done|]. apply Hbound.
    + pose proof (sum_list_insert budget _ _ n Hn). lia.
Qed.

Lemma wp_and {A} (m : Coro A) t (Q1 Q2 : Outcome A -> Trace -> Prop) :
  wp m t Q1 -> wp m t Q2 -> wp m t (fun o t' => Q1 o t' /\ Q2 o t').
Proof.
  revert t. induction m as [a|e|c k IH]; intros t; simpl; [done|done|].
  intros H1 H2 r. apply IH; [apply H1|apply H2].
Qed.

(** ** Audio Synthesis Scheduler: the clip tasks of a batch *)

Ltac task_walk :=
  repeat (simpl;
          match goal with
          | |- forall _ : unit, _ => intros []
          | |- forall _ : bool, _ => intros []
          | |- forall _ : Exn + _, _ => intros [?e|?m]
          | |- _ /\ _ => split
          | |- context [if truthy ?x then _ else _] => destruct (truthy x) eqn:?
          | |- context [if ?b then _ else _] => is_var b; destruct b
          end).

Lemma clip_task_obeys info emo spd :
  obeys (of_line (di_index info))
        (line_finished (di_output_dir info) (di_index info))
        (fun path => path = clip_file (di_output_dir info) (di_index info))
        False
        (generate_single_audio_clip info emo spd).
Proof.
  unfold generate_single_audio_clip, of_line, line_finished, clip_file.
  task_walk;
    first [ done
          | by intros j [= <-]
          | by intros j [=]
          | right; by left ].
Qed.

Lemma clip_task_bounded info emo spd :
  bounded clip_steps (generate_single_audio_clip info emo spd).
Proof.
  unfold generate_single_audio_clip, clip_steps.
  task_walk; done.
Qed.

Lemma py_range1_length a b : length (py_range1 a b) = Z.to_nat (b - a).
Proof. unfold py_range1. by rewrite length_map, length_seq. Qed.

Lemma py_range1_lookup a b (k : nat) :
  (k < Z.to_nat (b - a))%nat -> py_range1 a b !! k = Some (a + Z.of_nat k).
Proof.
  intros Hk. unfold py_range1.
  change (map ?f ?l) with (f <$> l).
  rewrite list_lookup_fmap, lookup_seq_lt by done. done.
Qed.

Lemma py_range1_elem a b x : x ∈ py_range1 a b <-> a <= x < b.
Proof.
  unfold py_range1. change (map ?f ?l) with (f <$> l).
  rewrite list_elem_of_fmap. split.
  - intros (k & -> & Hk). apply elem_of_seq in Hk. lia.
  - intros Hx. exists (Z.to_nat (x - a)). split; [lia|].
    apply elem_of_seq. lia.
Qed.

Lemma py_range1_app a b c :
  a <= b <= c -> py_range1 a b ++ py_range1 b c = py_range1 a c.
Proof.
  intros Habc. apply list_eq. intros k.
  destruct (decide (k < Z.to_nat (b - a))%nat) as [Hk|Hk].
  - rewrite lookup_app_l by (rewrite py_range1_length; lia).
    rewrite !py_range1_lookup by lia. done.
  - rewrite lookup_app_r by (rewrite py_range1_length; lia).
    rewrite py_range1_length.
    destruct (decide (k < Z.to_nat (c - a))%nat) as [Hk'|Hk'].
    + rewrite !py_range1_lookup by lia. f_equal. lia.
    + rewrite !lookup_ge_None_2; [done|rewrite py_range1_length; lia..].
Qed.

Lemma py_range_positive total b :
  0 < b ->
  py_range 0 total b
  = Some (map (fun k => 0 + Z.of_nat k * b)
              (seq 0 (Z.to_nat ((total + b - 1) / b)))).
Proof.
  intros Hb. unfold py_range.
  destruct (Z.eqb_spec b 0) as [->|_]; [lia|].
  destruct (Z.ltb_spec 0 b); [|lia].
  by rewrite Z.sub_0_r.
Qed.

Lemma lines_in_order_snoc dir b t e :
  lines_in_order dir b t ->
  (forall j i, starts_line e = Some j -> 0 <= i -> i / b < j / b ->
     exists e', e' ∈ t /\ line_finished dir i e') ->
  lines_in_order dir b (t ++ [e]).
Proof.
  intros Ht He pre e0 post j i Heq Hstart Hi Hlt.
  destruct post as [|x post _] using rev_ind.
  - apply app_inj_tail in Heq as [<- <-]. eauto.
  - rewrite app_comm_cons, app_assoc in Heq.
    apply app_inj_tail in Heq as [-> _]. by eapply Ht.
Qed.

Lemma lines_in_order_app dir b t d :
  lines_in_order dir b t ->
  Forall (fun e => forall j i, starts_line e = Some j -> 0 <= i -> i / b < j / b ->
                     exists e', e' ∈ t /\ line_finished dir i e') d ->
  lines_in_order dir b (t ++ d).
Proof.
  revert t. induction d as [|e d IH]; intros t Ht Hd.
  - by rewrite app_nil_r.
  - apply Forall_cons in Hd as [He Hd].
    rewrite (cons_middle e t d), app_assoc. apply IH.
    + by apply lines_in_order_snoc.
    + eapply Forall_impl; [exact Hd|]. intros e0 H0 j i Hs Hi Hlt.
      destruct (H0 j i Hs Hi Hlt) as (e' & He' & Hfin).
      exists e'. split; [|done]. apply elem_of_app. by left.
Qed.

Lemma batch_tasks_of_lookup env s e tasks :
  batch_tasks_of env s e = Some tasks ->
  length tasks = Z.to_nat (e - s) /\
  forall k task, tasks !! k = Some task ->
    exists line,
      task = generate_single_audio_clip
               (dialogue_info_of env (s + Z.of_nat k) line)
               (ae_emotions_config env) (ae_speed_config env).
Proof.
  unfold batch_tasks_of. intros Hm. apply mapM_Some in Hm. split.
  - by rewrite <- (Forall2_length _ _ _ Hm), py_range1_length.
  - intros k task Hk.
    destruct (Forall2_lookup_r _ _ _ _ _ Hm Hk) as (i & Hi & Hf).
    pose proof (lookup_lt_Some _ _ _ Hi) as Hlt.
    rewrite py_range1_length in Hlt.
    rewrite py_range1_lookup in Hi by done. injection Hi as <-.
    destruct (py_getitem (ae_transcript env) (s + Z.of_nat k)) as [line|];
      simplify_eq/=. eauto.
Qed.

Lemma finished_below_app dir bound t d :
  finished_below dir bound t -> finished_below dir bound (t ++ d).
Proof.
  intros H i Hi. destruct (H i Hi) as (e & He & Hfin).
  exists e. split; [|done]. apply elem_of_app. by left.
Qed.

Lemma same_batch (b k j : Z) : 0 < b -> k * b <= j < k * b + b -> j / b = k.
Proof. intros Hb Hj. symmetry. apply (Z.div_unique j b k (j - k * b)); lia. Qed.

Lemma earlier_batch (b k i : Z) : 0 < b -> 0 <= i -> i / b < k -> i < k * b.
Proof.
  intros Hb Hi Hlt. pose proof (Z.mul_succ_div_gt i b Hb). nia.
Qed.

(** One batch: the lines of the batch run under [gather]; nothing of
    them starts before the earlier lines have finished; when the batch
    returns, its lines have finished and their clips are appended. *)
Lemma audio_batch_rule env (k : nat) acc t :
  let b := ae_batch_size env in
  let total := Z.of_nat (length (ae_transcript env)) in
  let dir := ae_output_dir env in
  let s := 0 + Z.of_nat k * b in
  let e := Z.min (s + b) total in
  0 < b -> s < total ->
  lines_in_order dir b t -> finished_below dir s t ->
  wp (audio_batch env s (Some acc)) t
     (fun o t' =>
        lines_in_order dir b t' /\
        forall ctl paths, o = Returned (ctl, paths) ->
          ctl = Continue /\
          paths = Some (acc ++ map (clip_file dir) (py_range1 s e)) /\
          finished_below dir e t').
Proof.
  intros b total dir s e Hb Hs Hord Hfin.
  unfold audio_batch. fold b total dir. fold e. simpl. intros [].
  assert (lines_in_order dir b
            (t ++ [Ev (CLog INFO (batch_started (s / b + 1)
                     ((total + b - 1) / b) s (e - 1))) tt])) as Hord1.
  { apply lines_in_order_snoc; [done|]. by intros j i [=]. }
  destruct (batch_tasks_of env s e) as [tasks|] eqn:Htasks; simpl;
    [|split; [done|]; by intros ctl paths [=]].
  apply batch_tasks_of_lookup in Htasks as [Hlen Htask].
  apply wp_bind. unfold gather.
  eapply wp_mono;
    [|apply wp_and;
      [apply (gather_steps_rule
                (fun i => of_line (s + Z.of_nat i))
                (fun i => line_finished dir (s + Z.of_nat i))
                (fun i path => path = clip_file dir (s + Z.of_nat i)))
      |apply (gather_steps_fuel _ _ (replicate (length tasks) clip_steps))]].
  - intros o t' [(d & -> & Hd & Hres) Hfuel].
    assert (lines_in_order dir b
              ((t ++ [Ev (CLog INFO (batch_started (s / b + 1)
                  ((total + b - 1) / b) s (e - 1))) tt]) ++ d)) as Hord2.
    { apply lines_in_order_app; [done|].
      eapply Forall_impl; [exact Hd|].
      intros ev [Hpick|(i' & Hi' & Hline)] j i Hstart Hi Hlt.
      - destruct ev as [[] ?]; done.
      - rewrite (Hline j Hstart) in Hlt.
        rewrite (same_batch b (Z.of_nat k) (s + Z.of_nat i')) in Hlt by lia.
        destruct (Hfin i) as (e' & He' & Hfin').
        { pose proof (earlier_batch b (Z.of_nat k) i Hb Hi Hlt). lia. }
        exists e'. split; [|done]. apply elem_of_app. by left. }
    destruct o as [[results|]|ex]; simpl; [|done|].
    + intros []. destruct (Hres results eq_refl) as [Hlenr Hr].
      assert (forall t2, finished_below dir e
                (((t ++ [Ev (CLog INFO (batch_started (s / b + 1)
                    ((total + b - 1) / b) s (e - 1))) tt]) ++ d) ++ t2))
        as Hfin2.
      { intros t2 i Hi. destruct (decide (i < s)) as [Hlt|Hge].
        - destruct (Hfin i) as (e' & He' & Hfin'); [lia|].
          exists e'. split; [|done]. rewrite !elem_of_app. auto.
        - destruct (lookup_lt_is_Some_2 results (Z.to_nat (i - s)))
            as [r Hlk]; [lia|].
          destruct (Hr _ _ Hlk) as [_ (e' & He' & Hfin')].
          exists e'. split; [by apply elem_of_app; left|].
          by replace (s + Z.of_nat (Z.to_nat (i - s))) with i in Hfin' by lia. }
      assert (results = map (clip_file dir) (py_range1 s e)) as ->.
      { apply list_eq. intros i. change (map ?f ?l) with (f <$> l).
        rewrite list_lookup_fmap.
        destruct (decide (i < length results)%nat) as [Hi|Hi].
        - destruct (lookup_lt_is_Some_2 results i Hi) as [r Hlk].
          rewrite Hlk. destruct (Hr _ _ Hlk) as [-> _].
          rewrite py_range1_lookup by lia. done.
        - rewrite !lookup_ge_None_2; [done| |lia].
          rewrite py_range1_length. lia. }
      destruct (e <? total)%Z; simpl.
      * intros []. split.
        -- apply lines_in_order_snoc; [|by intros j i [=]].
           apply lines_in_order_snoc; [done|]. by intros j i [=].
        -- intros ctl paths [= <- <-]. split; [done|]. split; [done|].
           rewrite <- app_assoc. apply Hfin2.
      * split.
        -- apply lines_in_order_snoc; [done|]. by intros j i [=].
        -- intros ctl paths [= <- <-]. split; [done|]. split; [done|].
           apply Hfin2.
    + split; [done|]. by intros ctl paths [=].
  - intros i task Hlk. destruct (Htask i task Hlk) as (line & ->).
    eapply obeys_mono;
      [|exact (clip_task_obeys (dialogue_info_of env (s + Z.of_nat i) line)
                 (ae_emotions_config env) (ae_speed_config env))].
    done.
  - apply Forall2_replicate_r; [done|].
    apply Forall_lookup. intros i task Hlk.
    destruct (Htask i task Hlk) as (line & ->). apply clip_task_bounded.
  - rewrite sum_list_replicate. lia.
Qed.

(** The loop over the batch starts [k * b], for [k] from [k0] on. *)
Lemma audio_loop_rule env : forall (n k0 : nat) acc t,
  let b := ae_batch_size env in
  let total := Z.of_nat (length (ae_transcript env)) in
  let dir := ae_output_dir env in
  0 < b ->
  (n = 0%nat \/ (Z.of_nat (k0 + n) - 1) * b < total) ->
  lines_in_order dir b t ->
  finished_below dir (Z.min (Z.of_nat k0 * b) total) t ->
  acc = map (clip_file dir) (py_range1 0 (Z.min (Z.of_nat k0 * b) total)) ->
  wp (for_loop (map (fun k => 0 + Z.of_nat k * b) (seq k0 n))
               (audio_batch env) (Some acc)) t
     (fun o t' =>
        lines_in_order dir b t' /\
        forall paths, o = Returned paths ->
          paths = Some (map (clip_file dir)
                            (py_range1 0 (Z.min (Z.of_nat (k0 + n) * b) total)))).
Proof.
  induction n as [|n IH]; intros k0 acc t b total dir Hb Hlast Hord Hfin Hacc.
  - simpl. split; [done|]. intros paths [= <-]. by rewrite Nat.add_0_r, Hacc.
  - cbn [seq map for_loop]. apply wp_bind.
    assert (0 + Z.of_nat k0 * b < total) as Hs by (destruct Hlast; [done|nia]).
    assert (Z.min (Z.of_nat k0 * b) total = 0 + Z.of_nat k0 * b) as Hmin by lia.
    rewrite Hmin in Hfin, Hacc.
    eapply wp_mono; [|by apply (audio_batch_rule env k0 acc t)].
    intros o t' [Hord' Hres]. fold b total dir in Hres.
    destruct o as [[ctl paths]|ex]; [|split; [done|by intros paths [=]]].
    destruct (Hres ctl paths eq_refl) as (-> & -> & Hfin').
    assert (Z.min (0 + Z.of_nat k0 * b + b) total
            = Z.min (Z.of_nat (S k0) * b) total) as Hnext by (f_equal; lia).
    rewrite Hnext in Hfin'.
    eapply wp_mono; [|apply (IH (S k0)); try done].
    + intros o t'' [Hord'' Hres'']. split; [done|].
      intros paths Hp. rewrite (Hres'' paths Hp).
      by replace (S k0 + n)%nat with (k0 + S n)%nat by lia.
    + destruct n as [|n]; [by left|right].
      destruct Hlast as [?|Hlast]; [done|].
      by replace (S k0 + S n)%nat with (k0 + S (S n))%nat by lia.
    + rewrite Hacc, <- map_app, Hnext. f_equal.
      apply py_range1_app. lia.
Qed.

Lemma generate_all_audio_rule state (b : Z) :
  0 < b ->
  wp (generate_all_audio_node state (Some b)) []
     (fun o t =>
        lines_in_order (st_output_dir state) b t /\
        forall paths, o = Returned paths ->
          paths = Some (map (clip_file (st_output_dir state))
                            (py_range1 0 (Z.of_nat (length (st_transcript state)))))).
Proof.
  intros Hb. unfold generate_all_audio_node. simpl. intros [].
  assert (forall t : Trace, omap starts_line t = [] ->
            lines_in_order (st_output_dir state) b t) as Hquiet.
  { intros t Ht pre e post j i -> Hstart _ _.
    rewrite omap_app in Ht. simpl in Ht. rewrite Hstart in Ht.
    by destruct (omap starts_line pre). }
  destruct (st_speaker_profile state) as [profile|]; simpl;
    [|split; [by apply Hquiet|by intros paths [=]]].
  intros []. rewrite py_range_positive by done. simpl.
  set (total := Z.of_nat (length (st_transcript state))).
  apply wp_bind.
  eapply wp_mono;
    [|apply (audio_loop_rule (audio_env state b profile)
               (Z.to_nat ((total + b - 1) / b)) 0 [])]; simpl; fold total.
  - intros o t' [Hord Hres].
    assert (Z.min (Z.of_nat (Z.to_nat ((total + b - 1) / b)) * b) total = total)
      as Hall.
    { pose proof (Z.mul_succ_div_gt (total + b - 1) b Hb).
      pose proof (Z.div_pos (total + b - 1) b). lia. }
    rewrite Hall in Hres.
    destruct o as [[paths|]|ex]; simpl.
    + intros []. split.
      * apply lines_in_order_snoc; [done|]. by intros j i [=].
      * intros paths' [= <-]. by apply Hres.
    + split; [done|]. intros paths [= <-]. by apply Hres.
    + split; [done|]. by intros paths [=].
  - done.
  - destruct (decide (total = 0)) as [Hz|Hnz].
    + left. rewrite Hz. simpl. rewrite Z.div_small by lia. done.
    + right. pose proof (Z.mul_div_le (total + b - 1) b Hb).
      pose proof (Z.div_pos (total + b - 1) b). lia.
  - by apply Hquiet.
  - intros i Hi. lia.
  - by replace (Z.min (Z.of_nat 0 * b) total) with 0 by lia.
Qed.

(** ** Clip file names *)

Lemma to_uint_nonnil (n : nat) : Nat.to_uint n <> Decimal.Nil.
Proof.
  rewrite <- (DecimalNat.Unsigned.of_to n) at 1.
  rewrite DecimalNat.Unsigned.to_of. apply DecimalFacts.unorm_nonnil.
Qed.

Lemma decimal_value_decimal (n : nat) : decimal_value (decimal n) = Some n.
Proof.
  unfold decimal_value, decimal.
  rewrite NilZero.usu by apply to_uint_nonnil. simpl.
  by rewrite DecimalNat.Unsigned.of_to.
Qed.

Lemma decimal_nonempty (n : nat) : decimal n <> "".
Proof.
  intros Heq. pose proof (decimal_value_decimal n) as Hv.
  by rewrite Heq in Hv.
Qed.

Lemma decimal_value_zeros (k : nat) (s : string) :
  s <> "" -> decimal_value (zeros k ++ s)%string = decimal_value s.
Proof.
  intros Hs. induction k as [|k IH]; [done|].
  unfold decimal_value in *. simpl.
  change (NilZero.uint_of_string (String "0"%char ?r))
    with (uint_of_char "0"%char (NilEmpty.uint_of_string r)).
  assert (NilEmpty.uint_of_string (zeros k ++ s)
          = NilZero.uint_of_string (zeros k ++ s)) as ->.
  { destruct (zeros k ++ s)%string eqn:Hz; [|done].
    destruct k; simpl in Hz; [done|discriminate]. }
  rewrite <- IH. by destruct (NilZero.uint_of_string (zeros k ++ s)).
Qed.

Lemma string_length_app (s1 s2 : string) :
  String.length (s1 ++ s2) = (String.length s1 + String.length s2)%nat.
Proof. induction s1 as [|a s1 IH]; simpl; [done|by rewrite IH]. Qed.

Lemma zeros_length (k : nat) : String.length (zeros k) = k.
Proof. induction k as [|k IH]; simpl; [done|by rewrite IH]. Qed.

Lemma zfill_length (width : nat) (s : string) :
  String.length (zfill width s) = Nat.max width (String.length s).
Proof. unfold zfill. rewrite string_length_app, zeros_length. lia. Qed.

Lemma decimal_short (n : nat) :
  Z.of_nat n < 10000 -> (String.length (decimal n) <= 4)%nat.
Proof.
  intros Hn.
  assert (forallb (fun n => String.length (decimal n) <=? 4)%nat
                  (seq 0 (Z.to_nat 10000)) = true)
    as Hall by (vm_compute; reflexivity).
  rewrite forallb_forall in Hall.
  apply Nat.leb_le, Hall, in_seq. lia.
Qed.

(** The file name of the clip at index [i]: the decimal digits of [i],
    at least four of them, exactly four below 10000. *)
Lemma format_04d_spec (i : Z) :
  0 <= i ->
  decimal_value (format_04d i) = Some (Z.to_nat i) /\
  (4 <= String.length (format_04d i))%nat /\
  (i < 10000 -> String.length (format_04d i) = 4%nat).
Proof.
  intros Hi. unfold format_04d. destruct (Z.ltb_spec i 0); [lia|].
  split; [|split].
  - unfold zfill. rewrite decimal_value_zeros by apply decimal_nonempty.
    apply decimal_value_decimal.
  - rewrite zfill_length. lia.
  - intros Hlt. rewrite zfill_length.
    pose proof (decimal_short (Z.to_nat i)). lia.
Qed.

(** ** Audio Synthesis Scheduler: the node *)

Lemma schedule_positive total b :
  0 < b ->
  schedule total b
  = map (fun k => py_range1 (0 + Z.of_nat k * b)
                            (Z.min (0 + Z.of_nat k * b + b) total))
        (seq 0 (Z.to_nat ((total + b - 1) / b))).
Proof.
  intros Hb. unfold schedule. rewrite py_range_positive by done. simpl.
  by rewrite map_map.
Qed.

Lemma schedule_lookup total b (p : nat) batch :
  0 < b -> 0 <= total -> schedule total b !! p = Some batch ->
  Z.of_nat p * b < total /\
  batch = py_range1 (Z.of_nat p * b) (Z.min (Z.of_nat p * b + b) total).
Proof.
  intros Hb Ht. rewrite schedule_positive by done.
  change (map ?f ?l) with (f <$> l). rewrite list_lookup_fmap.
  destruct (seq 0 (Z.to_nat ((total + b - 1) / b)) !! p) as [k|] eqn:Hk;
    [|done].
  apply lookup_seq in Hk as [-> Hlt]. simpl. intros [= <-].
  pose proof (Z.mul_div_le (total + b - 1) b Hb).
  pose proof (Z.div_pos (total + b - 1) b).
  split; [nia|done].
Qed.

Lemma schedule_concat_from total b : forall (n k0 : nat),
  0 < b -> 0 <= total ->
  (n = 0%nat \/ (Z.of_nat (k0 + n) - 1) * b < total) ->
  concat (map (fun k => py_range1 (0 + Z.of_nat k * b)
                                  (Z.min (0 + Z.of_nat k * b + b) total))
              (seq k0 n))
  = py_range1 (Z.min (Z.of_nat k0 * b) total)
              (Z.min (Z.of_nat (k0 + n) * b) total).
Proof.
  induction n as [|n IH]; intros k0 Hb Ht Hlast.
  - simpl. rewrite Nat.add_0_r. unfold py_range1.
    by rewrite Z.sub_diag.
  - cbn [seq map concat]. rewrite (IH (S k0)); [|done|done|].
    + replace (Z.min (Z.of_nat k0 * b) total) with (0 + Z.of_nat k0 * b)
        by (destruct Hlast; [done|nia]).
      replace (Z.min (Z.of_nat (S k0) * b) total)
        with (Z.min (0 + Z.of_nat k0 * b + b) total) by (f_equal; lia).
      replace (S k0 + n)%nat with (k0 + S n)%nat by lia.
      apply py_range1_app. nia.
    + destruct n as [|n]; [by left|right].
      destruct Hlast as [?|Hlast]; [done|].
      by replace (S k0 + S n)%nat with (k0 + S (S n))%nat by lia.
Qed.

(** The batches are the consecutive runs of [b] indices, with a shorter
    last one when [b] does not divide the number of lines. *)
Lemma schedule_partition total b :
  0 < b -> 0 <= total ->
  concat (schedule total b) = py_range1 0 total /\
  forall (p : nat) batch, schedule total b !! p = Some batch ->
    batch = py_range1 (Z.of_nat p * b) (Z.min (Z.of_nat p * b + b) total) /\
    (1 <= length batch)%nat /\ Z.of_nat (length batch) <= b /\
    ((S p < length (schedule total b))%nat -> Z.of_nat (length batch) = b).
Proof.
  intros Hb Ht. split.
  - rewrite schedule_positive by done. rewrite schedule_concat_from; try done.
    + f_equal; [lia|].
      pose proof (Z.mul_succ_div_gt (total + b - 1) b Hb).
      pose proof (Z.div_pos (total + b - 1) b). lia.
    + destruct (decide (total = 0)) as [->|Hnz].
      * left. simpl. by rewrite Z.div_small by lia.
      * right. pose proof (Z.mul_div_le (total + b - 1) b Hb).
        pose proof (Z.div_pos (total + b - 1) b). lia.
  - intros p batch Hp.
    destruct (schedule_lookup total b p batch Hb Ht Hp) as [Hlt ->].
    split; [done|]. rewrite py_range1_length.
    split; [lia|]. split; [lia|].
    intros Hnext.
    destruct (lookup_lt_is_Some_2 _ _ Hnext) as [next Hnext'].
    destruct (schedule_lookup total b (S p) next Hb Ht Hnext') as [Hlt' _].
    lia.
Qed.

Lemma lines_in_order_batches dir total b t :
  0 < b -> 0 <= total ->
  lines_in_order dir b t -> batches_in_order dir (schedule total b) t.
Proof.
  intros Hb Ht Hord p q earlier later i j pre e post Hpq Hp Hq Hi Hj Heq Hstart.
  destruct (schedule_lookup total b p earlier Hb Ht Hp) as [_ ->].
  destruct (schedule_lookup total b q later Hb Ht Hq) as [_ ->].
  apply py_range1_elem in Hi, Hj.
  eapply (Hord pre e post j i Heq Hstart); [nia|].
  rewrite (same_batch b (Z.of_nat p) i), (same_batch b (Z.of_nat q) j) by lia.
  lia.
Qed.

Lemma generate_all_audio_sized_rule state (size : option Z) :
  0 < default 5 size ->
  wp (generate_all_audio_node state size) []
     (fun o t =>
        lines_in_order (st_output_dir state) (default 5 size) t /\
        forall paths, o = Returned paths ->
          paths = Some (map (clip_file (st_output_dir state))
                            (py_range1 0 (Z.of_nat (length (st_transcript state)))))).
Proof.
  intros Hb. destruct size as [b|]; simpl in *.
  - by apply generate_all_audio_rule.
  - by apply (generate_all_audio_rule state 5).
Qed.

(** C1 (as amended). With a batch size of at least 1 (the default 5
    included), a run of the scheduler that returns records exactly one
    clip path per transcript line, and the path at index i is
    {output_dir}/clips/ followed by the decimal digits of i, padded with
    zeros to four digits (exactly four below 10000), and ".mp3". *)
Theorem C1_clip_paths_index_aligned (w : World) (state : PodcastState)
    (size : option Z) :
  0 < default 5 size ->
  let m := generate_all_audio_node state size in
  outcome_of w m <> Returned None /\
  forall paths, outcome_of w m = Returned (Some paths) ->
    length paths = length (st_transcript state) /\
    forall i : nat, (i < length (st_transcript state))%nat ->
      exists digits : string,
        paths !! i = Some (st_output_dir state // "clips" // (digits ++ ".mp3")%string) /\
        decimal_value digits = Some i /\
        (4 <= String.length digits)%nat /\
        (Z.of_nat i < 10000 -> String.length digits = 4%nat).
Proof.
  intros Hb m.
  destruct (wp_sound m _ w (generate_all_audio_sized_rule state size Hb))
    as [_ Hres].
  split.
  - intros Hnone. by specialize (Hres _ Hnone).
  - intros paths Hp. specialize (Hres _ Hp). injection Hres as ->.
    split; [by rewrite length_map, py_range1_length; lia|].
    intros i Hi. exists (format_04d (Z.of_nat i)).
    destruct (format_04d_spec (Z.of_nat i)) as (Hval & Hlen & Hfour); [lia|].
    rewrite Nat2Z.id in Hval. split; [|done].
    change (map ?f ?l) with (f <$> l).
    rewrite list_lookup_fmap, py_range1_lookup by lia. done.
Qed.

Lemma C1_witness :
  let m := generate_all_audio_node state3 (Some 2) in
  outcome_of round_robin m <> Returned None /\
  forall paths, outcome_of round_robin m = Returned (Some paths) ->
    length paths = length (st_transcript state3) /\
    forall i : nat, (i < length (st_transcript state3))%nat ->
      exists digits : string,
        paths !! i = Some (st_output_dir state3 // "clips" // (digits ++ ".mp3")%string) /\
        decimal_value digits = Some i /\
        (4 <= String.length digits)%nat /\
        (Z.of_nat i < 10000 -> String.length digits = 4%nat).
Proof.
  apply (C1_clip_paths_index_aligned round_robin state3 (Some 2)).
  simpl. lia.
Defined.

(** With the batch size -1 the loop over the batch starts is empty: the
    run returns, and records no clip path for a transcript of three
    lines. *)
Lemma C1_negative_batch_size_records_nothing :
  length (st_transcript state3) = 3%nat /\
  outcome_of quiet_world (generate_all_audio_node state3 (Some (-1)))
  = Returned (Some []).
Proof. vm_compute. done. Qed.

(** Three lines in batches of two, under an event loop that takes the
    pending tasks in turn: the two tasks of the first batch are
    interleaved and the second line finishes first; the paths are in
    line order all the same, and one pause separates the batches. *)
Example three_clips_in_two_batches :
  outcome_of round_robin (generate_all_audio_node state3 (Some 2))
  = Returned (Some [["out"; "clips"; "0000.mp3"]; ["out"; "clips"; "0001.mp3"];
                    ["out"; "clips"; "0002.mp3"]]) /\
  logged INFO (trace_of round_robin (generate_all_audio_node state3 (Some 2)))
  = [batch_size_used 2; generating_clips 3 2; batch_started 1 2 0 1;
     clip_started 1 "Alice"; clip_started 0 "Alice";
     clip_generated ["out"; "clips"; "0001.mp3"];
     clip_generated ["out"; "clips"; "0000.mp3"];
     batch_completed 1 2; batch_started 2 2 2 2; clip_started 2 "Alice";
     clip_generated ["out"; "clips"; "0002.mp3"]; batch_completed 2 2;
     all_clips_generated 3] /\
  pauses (trace_of round_robin (generate_all_audio_node state3 (Some 2))) = [1%nat].
Proof. vm_compute. done. Qed.

(** ** Audio Synthesis Scheduler: the batches of a run *)

Lemma starts_line_cmd (c : Cmd) (r : ret_ty c) :
  starts_line (Ev c r) = cmd_start c.
Proof. destruct c as [lvl msg| | | | | | | | | | | | | | | | |]; try done. Qed.

Lemma silent_pending {B} (task : Coro B) :
  silent task -> starts_once task /\ pending_start task = None.
Proof. destruct task as [b|e|c k]; simpl; tauto. Qed.

Lemma omap_insert_perm {A B} (f : A -> option B) (l : list A) : forall i x y,
  l !! i = Some x -> f y = None ->
  omap f l ≡ₚ option_list (f x) ++ omap f (<[i := y]> l).
Proof.
  induction l as [|a l IH]; intros [|i] x y Hl Hy; simpl in *; try done.
  - injection Hl as ->. rewrite Hy. by destruct (f x).
  - destruct (f a) as [b|].
    + rewrite (IH i x y Hl Hy). apply Permutation_middle.
    + by apply IH.
Qed.

Lemma omap_cons_list {A B} (f : A -> option B) (x : A) (l : list A) :
  omap f (x :: l) = option_list (f x) ++ omap f l.
Proof. simpl. by destruct (f x). Qed.

(** Under [gather], the lines that start are lines whose tasks were
    waiting to start, each at most once; and all of them have started
    when [gather] returns. *)
Lemma gather_steps_starts {B} fuel : forall (tasks : list (Coro B)) t,
  Forall starts_once tasks ->
  wp (gather_steps fuel tasks) t
     (fun o t' => exists d,
        t' = t ++ d /\
        Forall (fun e => announces_batch e = false) d /\
        omap starts_line d ⊆+ omap pending_start tasks /\
        forall results, o = Returned (Some results) ->
          omap starts_line d ≡ₚ omap pending_start tasks).
Proof.
  induction fuel as [|fuel IH]; intros tasks t Hall; cbn [gather_steps];
    destruct (status_from 0 tasks) as [results|e|pending] eqn:Hst; simpl.
  1, 4: (exists []; rewrite app_nil_r; split; [done|]; split; [constructor|];
         apply status_from_AllDone in Hst as ->;
         assert (omap pending_start (map (@Ret B) results) = []) as ->
           by (clear; induction results; simpl; done);
         by split).
  1, 3: (exists []; rewrite app_nil_r; split; [done|];
         split; [constructor|]; split; [apply submseteq_nil_l|done]).
  - exists []. rewrite app_nil_r. split; [done|].
    split; [constructor|]. split; [apply submseteq_nil_l|done].
  - intros choice.
    destruct (picked_is_pending tasks pending choice Hst) as (c & k & Hlk).
    rewrite Hlk. simpl. intros r.
    set (i := nth (choice mod length pending) pending 0%nat) in *.
    pose proof (Forall_lookup_1 _ _ _ _ Hall Hlk) as [Hann Hk]. simpl in Hann.
    destruct (silent_pending (k r) (Hk r)) as [Honce Hnone].
    pose proof (omap_insert_perm pending_start tasks i _ (k r) Hlk Hnone)
      as Hperm. simpl in Hperm.
    eapply wp_mono; [|apply IH].
    + intros o t' (d & -> & Hd & Hsub & Hres).
      exists (Ev (CPick pending) choice :: Ev c r :: d).
      split; [by rewrite <- !app_assoc|].
      split; [by repeat constructor|].
      rewrite !omap_cons_list, !starts_line_cmd, Hperm. simpl.
      split; [by apply submseteq_app|].
      intros results Hr. by rewrite (Hres results Hr).
    + by apply Forall_insert.
Qed.

Lemma clip_task_starts_once info emo spd :
  starts_once (generate_single_audio_clip info emo spd) /\
  pending_start (generate_single_audio_clip info emo spd)
  = Some (di_index info).
Proof.
  unfold generate_single_audio_clip. split; [|reflexivity].
  split; [reflexivity|]. intros [].
  task_walk; done.
Qed.

Lemma batch_tasks_start env s e tasks :
  batch_tasks_of env s e = Some tasks ->
  Forall starts_once tasks /\ omap pending_start tasks = py_range1 s e.
Proof.
  unfold batch_tasks_of. generalize (py_range1 s e). intros idxs Hm.
  apply mapM_Some in Hm.
  induction Hm as [|i task idxs tasks Hi Hm [IHall IHeq]]; [done|].
  destruct (py_getitem (ae_transcript env) i) as [line|] eqn:Hline;
    [|done].
  injection Hi as <-.
  destruct (clip_task_starts_once (dialogue_info_of env i line)
              (ae_emotions_config env) (ae_speed_config env)) as [Honce Hpend].
  split; [by constructor|].
  rewrite omap_cons_list, Hpend, IHeq. done.
Qed.

Lemma batch_step_quiet (d : Trace) : forall current earlier,
  Forall (fun e => announces_batch e = false) d ->
  foldl batch_step (current :: earlier) d
  = (reverse (omap starts_line d) ++ current) :: earlier.
Proof.
  induction d as [|e d IH]; intros current earlier Hd; [done|].
  apply Forall_cons in Hd as [He Hd]. cbn [foldl].
  unfold batch_step at 2. rewrite He.
  rewrite omap_cons_list. destruct (starts_line e) as [j|]; simpl.
  - rewrite IH by done. by rewrite reverse_cons, <- app_assoc.
  - by rewrite IH.
Qed.

Lemma batches_started_snoc (t : Trace) (d : Trace) :
  Forall (fun e => announces_batch e = false) d ->
  forall ev, announces_batch ev = true ->
  batches_started (t ++ ev :: d) = batches_started t ++ [omap starts_line d].
Proof.
  intros Hd ev Hev. unfold batches_started.
  rewrite foldl_app. cbn [foldl]. unfold batch_step at 2. rewrite Hev.
  rewrite batch_step_quiet by done.
  rewrite app_nil_r, fmap_cons, reverse_cons, reverse_involutive. done.
Qed.

Lemma batches_started_quiet (t : Trace) (d : Trace) :
  Forall (fun e => announces_batch e = false) d ->
  omap starts_line d = [] ->
  batches_started (t ++ d) = batches_started t.
Proof.
  intros Hd Hs. unfold batches_started. rewrite foldl_app.
  destruct (foldl batch_step [] t) as [|current earlier] eqn:Hst.
  - clear Hst. induction d as [|e d IH]; [done|].
    apply Forall_cons in Hd as [He Hd]. rewrite omap_cons_list in Hs.
    apply app_eq_nil in Hs as [Hs1 Hs2].
    cbn [foldl]. unfold batch_step at 2. rewrite He.
    destruct (starts_line e); by apply IH.
  - rewrite batch_step_quiet by done. by rewrite Hs.
Qed.

Lemma batches_started_batch (t d tail : Trace) (ev : Event) :
  announces_batch ev = true ->
  Forall (fun e => announces_batch e = false) d ->
  Forall (fun e => announces_batch e = false) tail ->
  omap starts_line tail = [] ->
  batches_started (((t ++ [ev]) ++ d) ++ tail)
  = batches_started t ++ [omap starts_line d].
Proof.
  intros Hev Hd Htail Hnone. rewrite <- !app_assoc.
  change ([ev] ++ d ++ tail) with (ev :: (d ++ tail)).
  rewrite batches_started_snoc; [|by apply Forall_app|done].
  by rewrite omap_app, Hnone, app_nil_r.
Qed.

(** One batch: its announcement opens a new batch of started lines, which
    are lines of the batch, each started once, and are all of them when
    the batch returns. *)
Lemma audio_batch_starts env (s : Z) acc t :
  let e := Z.min (s + ae_batch_size env) (Z.of_nat (length (ae_transcript env))) in
  wp (audio_batch env s (Some acc)) t
     (fun o t' => exists started,
        batches_started t' = batches_started t ++ [started] /\
        started ⊆+ py_range1 s e /\
        forall ctl paths, o = Returned (ctl, paths) ->
          (ctl = Break /\ paths = None) \/
          (ctl = Continue /\ is_Some paths /\ started ≡ₚ py_range1 s e)).
Proof.
  intros e. unfold audio_batch. fold e. simpl. intros [].
  set (ev := Ev (CLog INFO (batch_started (s / ae_batch_size env + 1)
           ((Z.of_nat (length (ae_transcript env)) + ae_batch_size env - 1) /
            ae_batch_size env) s (e - 1))) tt).
  destruct (batch_tasks_of env s e) as [tasks|] eqn:Htasks; simpl.
  2: { exists []. split; [|split; [apply submseteq_nil_l|done]].
       by rewrite (batches_started_snoc t [] (Forall_nil_2 _) ev). }
  apply batch_tasks_start in Htasks as [Honce Hpend].
  apply wp_bind. unfold gather.
  eapply wp_mono; [|by apply gather_steps_starts].
  intros o t' (d & -> & Hd & Hsub & Hres). rewrite Hpend in Hsub, Hres.
  destruct o as [[results|]|ex]; simpl.
  - intros [].
    destruct (e <? Z.of_nat (length (ae_transcript env)))%Z; simpl.
    + intros []. exists (omap starts_line d). split; [|split; [done|]].
      * rewrite <- (app_assoc ((t ++ [ev]) ++ d)).
        apply batches_started_batch; by repeat constructor.
      * intros ctl paths [= <- <-]. right.
        split; [done|]. split; [by eexists|]. by eapply Hres.
    + exists (omap starts_line d). split; [|split; [done|]].
      * apply batches_started_batch; by repeat constructor.
      * intros ctl paths [= <- <-]. right.
        split; [done|]. split; [by eexists|]. by eapply Hres.
  - exists (omap starts_line d). split; [|split; [done|]].
    + rewrite <- (app_nil_r ((t ++ [ev]) ++ d)).
      apply batches_started_batch; by repeat constructor.
    + intros ctl paths [= <- <-]. by left.
  - exists (omap starts_line d). split; [|split; [done|done]].
    rewrite <- (app_nil_r ((t ++ [ev]) ++ d)).
    apply batches_started_batch; by repeat constructor.
Qed.

(** The loop over the batch starts [k * b], for [k] from [k0] on: every
    round opens one batch of started lines; the batches that were
    followed by another one are complete, and so are all of them when
    the loop returns the clip paths. *)
Lemma audio_loop_starts env : forall (n k0 : nat) acc t,
  let b := ae_batch_size env in
  let total := Z.of_nat (length (ae_transcript env)) in
  let batch := fun k : nat =>
    py_range1 (0 + Z.of_nat k * b) (Z.min (0 + Z.of_nat k * b + b) total) in
  wp (for_loop (map (fun k => 0 + Z.of_nat k * b) (seq k0 n))
               (audio_batch env) (Some acc)) t
     (fun o t' => exists news,
        batches_started t' = batches_started t ++ news /\
        (length news <= n)%nat /\
        (forall q started, news !! q = Some started ->
           started ⊆+ batch (k0 + q)%nat /\
           ((S q < length news)%nat -> started ≡ₚ batch (k0 + q)%nat)) /\
        (forall paths, o = Returned (Some paths) ->
           length news = n /\
           forall q started, news !! q = Some started ->
             started ≡ₚ batch (k0 + q)%nat)).
Proof.
  induction n as [|n IH]; intros k0 acc t b total batch.
  - simpl. exists []. rewrite app_nil_r. repeat split; try done.
  - cbn [seq map for_loop]. apply wp_bind.
    eapply wp_mono; [|apply audio_batch_starts].
    fold b total. intros o t1 (started & Hbs & Hsub & Hres).
    change (py_range1 (0 + Z.of_nat k0 * b)
              (Z.min (0 + Z.of_nat k0 * b + b) total)) with (batch k0)
      in Hsub, Hres.
    assert (forall news : list (list Z),
              news = [started] ->
              (length news <= S n)%nat /\
              (forall q started', news !! q = Some started' ->
                 started' ⊆+ batch (k0 + q)%nat /\
                 ((S q < length news)%nat -> started' ≡ₚ batch (k0 + q)%nat)))
      as Hone.
    { intros news ->. split; [simpl; lia|].
      intros [|q] started'; [|done]. intros [= <-].
      rewrite Nat.add_0_r. split; [done|]. simpl. lia. }
    destruct o as [[ctl paths]|ex].
    + destruct (Hres ctl paths eq_refl) as [[-> ->]|(-> & [paths' ->] & Hperm)].
      * simpl. exists [started]. split; [done|].
        destruct (Hone _ eq_refl) as [Hlen Hlk].
        split; [done|]. split; [done|]. by intros paths' [=].
      * eapply wp_mono; [|apply (IH (S k0) paths' t1)].
        fold b total. intros o t2 (news & Hbs2 & Hlen & Hlk & Hret).
        exists (started :: news). split; [|split; [simpl; lia|split]].
        -- by rewrite Hbs2, Hbs, <- app_assoc.
        -- intros [|q] started'.
           ++ intros [= <-]. rewrite Nat.add_0_r. split; [|done].
              by rewrite Hperm.
           ++ intros Hq. destruct (Hlk q started' Hq) as [Hs Hp].
              replace (k0 + S q)%nat with (S k0 + q)%nat by lia.
              split; [done|]. simpl. intros Hlt. apply Hp. lia.
        -- intros paths Hp. destruct (Hret paths Hp) as [Hlen' Hall].
           split; [simpl; lia|]. intros [|q] started'.
           ++ intros [= <-]. by rewrite Nat.add_0_r.
           ++ intros Hq. replace (k0 + S q)%nat with (S k0 + q)%nat by lia.
              by apply Hall.
    + exists [started]. split; [done|].
      destruct (Hone _ eq_refl) as [Hlen Hlk].
        split; [done|]. split; [done|]. by intros paths' [=].
Qed.

Lemma generate_all_audio_starts state (size : option Z) :
  0 < default 5 size ->
  wp (generate_all_audio_node state size) []
     (fun o t =>
        let batches :=
          schedule (Z.of_nat (length (st_transcript state))) (default 5 size) in
        (length (batches_started t) <= length batches)%nat /\
        (forall p started, batches_started t !! p = Some started ->
           exists batch, batches !! p = Some batch /\ started ⊆+ batch /\
             ((S p < length (batches_started t))%nat -> started ≡ₚ batch)) /\
        (forall paths, o = Returned (Some paths) ->
           Forall2 (fun started batch => started ≡ₚ batch)
                   (batches_started t) batches)).
Proof.
  intros Hb. unfold generate_all_audio_node.
  set (b := default 5 size) in *.
  set (total := Z.of_nat (length (st_transcript state))).
  rewrite schedule_positive by done.
  set (nb := Z.to_nat ((total + b - 1) / b)).
  simpl. intros [].
  destruct (st_speaker_profile state) as [profile|]; simpl.
  2: { split; [cbn; lia|]. split; [|done]. by intros p started [=]. }
  intros []. rewrite py_range_positive by done. simpl. fold total nb.
  apply wp_bind.
  eapply wp_mono; [|apply (audio_loop_starts (audio_env state b profile) nb 0 [])].
  simpl. fold total.
  intros o t' (news & Hbs & Hlen & Hlk & Hret).
  change (batches_started _ ++ news) with news in Hbs.
  assert (forall t2 : Trace,
            batches_started t2 = news ->
            (length (batches_started t2)
             <= length (map (fun k : nat =>
                    py_range1 (0 + Z.of_nat k * b)
                              (Z.min (0 + Z.of_nat k * b + b) total))
                  (seq 0 nb)))%nat /\
            (forall p started, batches_started t2 !! p = Some started ->
               exists batch,
                 map (fun k : nat =>
                    py_range1 (0 + Z.of_nat k * b)
                              (Z.min (0 + Z.of_nat k * b + b) total))
                  (seq 0 nb) !! p = Some batch /\
                 started ⊆+ batch /\
                 ((S p < length (batches_started t2))%nat -> started ≡ₚ batch)))
    as Hpart.
  { intros t2 ->. rewrite length_map, length_seq. split; [done|].
    intros p started Hp. pose proof (lookup_lt_Some _ _ _ Hp) as Hlt.
    eexists. split.
    - change (map ?f ?l) with (f <$> l).
      rewrite list_lookup_fmap, lookup_seq_lt by lia. reflexivity.
    - by apply Hlk. }
  destruct o as [[paths|]|ex]; simpl.
  - intros [].
    assert (batches_started
              (t' ++ [Ev (CLog INFO (all_clips_generated (length paths))) tt])
            = news) as Hfin.
    { rewrite batches_started_quiet; by repeat constructor. }
    destruct (Hpart _ Hfin) as [Hle Hp]. split; [done|]. split; [done|].
    intros paths' [= <-]. rewrite Hfin.
    destruct (Hret paths eq_refl) as [Hn Hall].
    apply Forall2_same_length_lookup_2.
    + by rewrite length_map, length_seq.
    + intros p started batch Hs. change (map ?f ?l) with (f <$> l).
      rewrite list_lookup_fmap.
      pose proof (lookup_lt_Some _ _ _ Hs) as Hlt.
      rewrite lookup_seq_lt by lia. intros [= <-]. by apply Hall.
  - destruct (Hpart _ Hbs) as [Hle Hp]. by repeat split.
  - destruct (Hpart _ Hbs) as [Hle Hp]. by repeat split.
Qed.

(** C5 (as amended). With a batch size b of at least 1 (the default 5
    included), the scheduler's batches partition the indices 0..N-1 into
    consecutive runs of b indices, the last one shorter when b does not
    divide N, and every run of the node follows them.  The lines started
    after the p-th announcement of a batch are lines of the p-th batch,
    each started once, and they are all the lines of that batch as soon
    as a later batch is announced; a run that returns the clip paths has
    announced every batch and started every line of it; and in every run
    no line of a later batch starts before every line of an earlier
    batch has finished. *)
Theorem C5_batches_partition_and_order (w : World) (state : PodcastState)
    (size : option Z) :
  0 < default 5 size ->
  let b := default 5 size in
  let total := Z.of_nat (length (st_transcript state)) in
  let m := generate_all_audio_node state size in
  let started := batches_started (trace_of w m) in
  (concat (schedule total b) = py_range1 0 total /\
   forall (p : nat) batch, schedule total b !! p = Some batch ->
     batch = py_range1 (Z.of_nat p * b) (Z.min (Z.of_nat p * b + b) total) /\
     (1 <= length batch)%nat /\ Z.of_nat (length batch) <= b /\
     ((S p < length (schedule total b))%nat -> Z.of_nat (length batch) = b)) /\
  ((length started <= length (schedule total b))%nat /\
   (forall (p : nat) lines, started !! p = Some lines ->
      exists batch, schedule total b !! p = Some batch /\
        lines ⊆+ batch /\
        ((S p < length started)%nat -> lines ≡ₚ batch)) /\
   (forall paths, outcome_of w m = Returned (Some paths) ->
      Forall2 (fun lines batch => lines ≡ₚ batch) started (schedule total b))) /\
  batches_in_order (st_output_dir state) (schedule total b) (trace_of w m).
Proof.
  intros Hb b total m started. split; [|split].
  - apply schedule_partition; [done|lia].
  - exact (wp_sound m _ w (generate_all_audio_starts state size Hb)).
  - apply lines_in_order_batches; [done|lia|].
    exact (proj1 (wp_sound _ _ w (generate_all_audio_sized_rule state size Hb))).
Qed.

Lemma C5_witness :
  let b := 2 in
  let total := Z.of_nat (length (st_transcript state3)) in
  let m := generate_all_audio_node state3 (Some 2) in
  let started := batches_started (trace_of round_robin m) in
  (concat (schedule total b) = py_range1 0 total /\
   forall (p : nat) batch, schedule total b !! p = Some batch ->
     batch = py_range1 (Z.of_nat p * b) (Z.min (Z.of_nat p * b + b) total) /\
     (1 <= length batch)%nat /\ Z.of_nat (length batch) <= b /\
     ((S p < length (schedule total b))%nat -> Z.of_nat (length batch) = b)) /\
  ((length started <= length (schedule total b))%nat /\
   (forall (p : nat) lines, started !! p = Some lines ->
      exists batch, schedule total b !! p = Some batch /\
        lines ⊆+ batch /\
        ((S p < length started)%nat -> lines ≡ₚ batch)) /\
   (forall paths, outcome_of round_robin m = Returned (Some paths) ->
      Forall2 (fun lines batch => lines ≡ₚ batch) started (schedule total b))) /\
  batches_in_order (st_output_dir state3) (schedule total b)
                   (trace_of round_robin m).
Proof.
  apply (C5_batches_partition_and_order round_robin state3 (Some 2)).
  simpl. lia.
Defined.

(** Twelve lines with the default batch size, under an event loop that
    takes the pending tasks in turn: batches of sizes 5, 5 and 2, whose
    lines start in the order the event loop picks them. *)
Example twelve_lines_in_batches_of_five :
  schedule 12 5 = [[0; 1; 2; 3; 4]; [5; 6; 7; 8; 9]; [10; 11]] /\
  batches_started (trace_of round_robin (generate_all_audio_node state12 None))
  = [[1; 2; 3; 4; 0]; [8; 9; 5; 6; 7]; [10; 11]] /\
  pauses (trace_of round_robin (generate_all_audio_node state12 None))
  = [1; 1]%nat.
Proof. vm_compute. done. Qed.

(** With the batch size -1 no batch is scheduled for a transcript of
    three lines: the indices 0, 1, 2 are in no batch, and no line is
    started in the run, which returns. *)
Lemma C5_negative_batch_size_schedules_nothing :
  py_range1 0 (Z.of_nat (length (st_transcript state3))) = [0; 1; 2] /\
  schedule (Z.of_nat (length (st_transcript state3))) (-1) = [] /\
  omap starts_line
       (trace_of quiet_world (generate_all_audio_node state3 (Some (-1)))) = [] /\
  outcome_of quiet_world (generate_all_audio_node state3 (Some (-1)))
  = Returned (Some []).
Proof. vm_compute. done. Qed.

(** ** White space and case (Python string operations) *)

Lemma lstrip_idem (s : Text) : lstrip (lstrip s) = lstrip s.
Proof.
  induction s as [|c s IH]; simpl; [done|].
  destruct (isspace c) eqn:Hc; [done|]. simpl. by rewrite Hc.
Qed.

Lemma lstrip_head (s : Text) c s' : lstrip s = c :: s' -> isspace c = false.
Proof.
  induction s as [|d s IH]; simpl; [done|].
  destruct (isspace d) eqn:Hd; [done|]. by intros [= <- _].
Qed.

Lemma lstrip_fixed (s : Text) :
  (forall c, head s = Some c -> isspace c = false) -> lstrip s = s.
Proof.
  destruct s as [|c s]; simpl; [done|]. intros H. by rewrite (H c eq_refl).
Qed.

Lemma lstrip_suffix (s : Text) :
  exists pre, s = pre ++ lstrip s /\ Forall (fun c => isspace c = true) pre.
Proof.
  induction s as [|c s (pre & IH & Hpre)]; simpl; [by exists []|].
  destruct (isspace c) eqn:Hc.
  - exists (c :: pre). split; [by rewrite IH at 1|by constructor].
  - by exists [].
Qed.

Lemma lstrip_last (s : Text) c : last (lstrip s) = Some c -> last s = Some c.
Proof.
  destruct (lstrip_suffix s) as (pre & Hs & _). intros Hl.
  rewrite Hs, last_app, Hl. done.
Qed.

(** The stripped text neither starts nor ends with white space. *)
Lemma strip_head (s : Text) c : head (strip s) = Some c -> isspace c = false.
Proof.
  unfold strip. rewrite head_reverse. intros Hl.
  apply lstrip_last in Hl. rewrite last_reverse in Hl.
  destruct (lstrip s) as [|d s'] eqn:Hs; [done|].
  injection Hl as <-. by eapply lstrip_head.
Qed.

Lemma strip_last (s : Text) c : last (strip s) = Some c -> isspace c = false.
Proof.
  unfold strip. rewrite last_reverse.
  destruct (lstrip (reverse (lstrip s))) as [|d s'] eqn:Hs; [done|].
  intros [= <-]. by eapply lstrip_head.
Qed.

Lemma strip_fixed (s : Text) :
  (forall c, head s = Some c -> isspace c = false) ->
  (forall c, last s = Some c -> isspace c = false) -> strip s = s.
Proof.
  intros Hh Hl. unfold strip. rewrite (lstrip_fixed s Hh).
  rewrite lstrip_fixed; [apply reverse_involutive|].
  intros c. rewrite head_reverse. apply Hl.
Qed.

Lemma strip_idem (s : Text) : strip (strip s) = strip s.
Proof. apply strip_fixed; [apply strip_head|apply strip_last]. Qed.

Lemma strip_spaces (s : Text) :
  strip s = [] <-> Forall (fun c => isspace c = true) s.
Proof.
  unfold strip. split.
  - intros H. apply (f_equal reverse) in H.
    rewrite reverse_involutive in H. change (reverse []) with (@nil N) in H.
    destruct (lstrip_suffix (reverse (lstrip s))) as (pre & Hs & Hpre).
    rewrite H, app_nil_r in Hs.
    destruct (lstrip_suffix s) as (pre' & Hs' & Hpre').
    rewrite Hs'. apply Forall_app. split; [done|].
    rewrite <- (reverse_involutive (lstrip s)), Hs.
    by apply Forall_reverse.
  - intros H. assert (lstrip s = []) as ->.
    { induction H as [|c s Hc _ IH]; simpl; [done|]. by rewrite Hc. }
    done.
Qed.

(** The same for identifiers. *)

Lemma lstrip_chars_head l c l' :
  lstrip_chars l = c :: l' -> isspace (N_of_ascii c) = false.
Proof.
  induction l as [|d l IH]; simpl; [done|].
  destruct (isspace (N_of_ascii d)) eqn:Hd; [done|]. by intros [= <- _].
Qed.

Lemma lstrip_chars_fixed l :
  (forall c, head l = Some c -> isspace (N_of_ascii c) = false) ->
  lstrip_chars l = l.
Proof.
  destruct l as [|c l]; simpl; [done|]. intros H. by rewrite (H c eq_refl).
Qed.

Lemma lstrip_chars_suffix l : exists pre, l = pre ++ lstrip_chars l.
Proof.
  induction l as [|c l (pre & IH)]; simpl; [by exists []|].
  destruct (isspace (N_of_ascii c)).
  - exists (c :: pre). by rewrite IH at 1.
  - by exists [].
Qed.

Lemma strip_chars_idem l : strip_chars (strip_chars l) = strip_chars l.
Proof.
  unfold strip_chars.
  set (a := lstrip_chars l). set (b := lstrip_chars (reverse a)).
  assert (lstrip_chars (reverse b) = reverse b) as ->.
  { apply lstrip_chars_fixed. intros c. rewrite head_reverse. intros Hl.
    destruct (lstrip_chars_suffix (reverse a)) as (pre & Hs). fold b in Hs.
    assert (last (reverse a) = Some c) as Hla by (rewrite Hs, last_app, Hl; done).
    rewrite last_reverse in Hla.
    destruct a as [|d a'] eqn:Ha; [done|]. injection Hla as <-.
    by eapply lstrip_chars_head. }
  rewrite reverse_involutive.
  assert (lstrip_chars b = b) as ->; [|done].
  apply lstrip_chars_fixed. intros c Hc.
  destruct b as [|d b'] eqn:Hb; [done|]. injection Hc as <-.
  by eapply lstrip_chars_head.
Qed.

Lemma lower_char_space c :
  isspace (N_of_ascii (lower_char c)) = isspace (N_of_ascii c).
Proof. destruct c as [[] [] [] [] [] [] [] []]; vm_compute; reflexivity. Qed.

Lemma lower_char_idem c : lower_char (lower_char c) = lower_char c.
Proof. destruct c as [[] [] [] [] [] [] [] []]; vm_compute; reflexivity. Qed.

Lemma lstrip_chars_lower l :
  lstrip_chars (map lower_char l) = map lower_char (lstrip_chars l).
Proof.
  induction l as [|c l IH]; simpl; [done|].
  rewrite lower_char_space. by destruct (isspace (N_of_ascii c)).
Qed.

Lemma strip_chars_lower l :
  strip_chars (map lower_char l) = map lower_char (strip_chars l).
Proof.
  unfold strip_chars. rewrite lstrip_chars_lower.
  change (map lower_char) with (fmap (M:=list) lower_char).
  rewrite <- fmap_reverse.
  change (fmap (M:=list) lower_char) with (map lower_char).
  rewrite lstrip_chars_lower.
  change (map lower_char) with (fmap (M:=list) lower_char).
  by rewrite <- fmap_reverse.
Qed.

(** Lower-casing and stripping a name twice is the same as doing it once. *)
Lemma str_strip_lower_idem (s : string) :
  str_strip (str_lower (str_strip (str_lower s))) = str_strip (str_lower s).
Proof.
  unfold str_strip, str_lower.
  rewrite !String.list_ascii_of_string_of_list_ascii.
  rewrite !strip_chars_lower, strip_chars_idem, map_map.
  f_equal. apply map_ext. intros c. apply lower_char_idem.
Qed.

(** ** Dialect tags (llm/dialect_utils.py) *)

Lemma startswith_prefix (s p : Text) : startswith s p = true <-> p `prefix_of` s.
Proof.
  revert s. induction p as [|c p IH]; intros s.
  - destruct s; simpl; split; try done; intros _; apply prefix_nil.
  - destruct s as [|d s]; simpl.
    + split; [done|]. intros [k Hk]. done.
    + rewrite andb_true_iff, IH, N.eqb_eq. split.
      * intros [-> Hp]. by apply prefix_cons.
      * intros Hp. split; [by apply prefix_cons_inv_1 in Hp|].
        by apply prefix_cons_inv_2 in Hp.
Qed.

Lemma startswith_app (p s : Text) : startswith (p ++ s) p = true.
Proof. apply startswith_prefix. by apply prefix_app_r. Qed.

Lemma startswith_true (s p : Text) :
  startswith s p = true -> s = p ++ drop (length p) s.
Proof.
  intros [k ->]%startswith_prefix. by rewrite drop_app_length.
Qed.

(** No dialect tag is the beginning of another. *)
Lemma tags_prefix_free :
  Forall (fun T => T = "" \/
     Forall (fun T' => T' = "" \/ T' = T \/
                (~ text_of T' `prefix_of` text_of T /\
                 ~ text_of T `prefix_of` text_of T'))
            (dict_values DIALECT_TAGS))
    (dict_values DIALECT_TAGS).
Proof. apply (bool_decide_unpack _). vm_compute. exact I. Qed.

Lemma startswith_other_tag (T T' : string) (s : Text) :
  ~ text_of T' `prefix_of` text_of T -> ~ text_of T `prefix_of` text_of T' ->
  startswith (text_of T ++ s) (text_of T') = false.
Proof.
  intros H1 H2. apply not_true_is_false. intros Hp%startswith_prefix.
  destruct (prefix_weak_total (text_of T') (text_of T) (text_of T ++ s));
    [done|by apply prefix_app_r|done..].
Qed.

Lemma remove_first_tag_hit (tags : list string) (T : string) (s : Text) :
  In T tags -> T <> "" ->
  Forall (fun T' => T' = "" \/ T' = T \/
             (~ text_of T' `prefix_of` text_of T /\
              ~ text_of T `prefix_of` text_of T')) tags ->
  remove_first_tag tags (text_of T ++ s) = lstrip s.
Proof.
  intros Hin HT Hall. induction Hall as [|T' tags HT' _ IH]; [done|].
  simpl. destruct HT' as [->| [->|[H1 H2]]].
  - simpl. apply IH. by destruct Hin.
  - destruct (String.eqb_spec T ""); [done|]. simpl.
    by rewrite startswith_app, drop_app_length.
  - rewrite startswith_other_tag, andb_false_r by done.
    apply IH. destruct Hin as [->|Hin]; [|done].
    exfalso. by apply H1.
Qed.

Lemma remove_first_tag_miss (tags : list string) (s : Text) :
  Forall (fun T => T = "" \/ startswith s (text_of T) = false) tags ->
  remove_first_tag tags s = s.
Proof.
  induction 1 as [|T tags [->|HT] _ IH]; simpl; [done|done|].
  by rewrite HT, andb_false_r.
Qed.

Lemma dict_get_value {V} (d : Dict V) k v :
  dict_get d k = Some v -> In v (dict_values d).
Proof.
  induction d as [|[k' v'] d IH]; simpl; [done|].
  destruct (String.eqb k' k); [intros [= <-]; by left|]. intros H. right. auto.
Qed.

(** A tag that [get_dialect_tag] returns is the empty string or one of
    the table's tags, and removing it from a text it heads leaves the
    rest, stripped on the left. *)
Lemma dialect_tag_cases (dialect : option string) :
  get_dialect_tag dialect = "" \/
  (In (get_dialect_tag dialect) (dict_values DIALECT_TAGS) /\
   forall s, remove_dialect_tag (text_of (get_dialect_tag dialect) ++ s)
             = lstrip s).
Proof.
  destruct (String.eqb_spec (get_dialect_tag dialect) "") as [|Hne]; [by left|].
  right.
  assert (In (get_dialect_tag dialect) (dict_values DIALECT_TAGS)) as Hin.
  { revert Hne. unfold get_dialect_tag.
    destruct (negb (truthy dialect)); [done|]. cbv zeta.
    destruct (dict_get DIALECT_TAGS _) as [tag|] eqn:Hget; [|done].
    intros _. by eapply dict_get_value. }
  split; [done|]. intros s. apply remove_first_tag_hit; [done..|].
  pose proof tags_prefix_free as Hfree.
  rewrite Forall_forall in Hfree.
  destruct (Hfree (get_dialect_tag dialect)); [by apply list_elem_of_In|done..].
Qed.

Lemma mandarin_has_no_tag (dialect : option string) :
  String.eqb (str_lower (default "" dialect)) "mandarin" = true ->
  get_dialect_tag dialect = "".
Proof.
  intros Heq%String.eqb_eq. unfold get_dialect_tag.
  destruct (negb (truthy dialect)); [done|]. cbv zeta. by rewrite Heq.
Qed.

Lemma add_dialect_tag_cases (text : Text) (dialect : option string) :
  (get_dialect_tag dialect = "" /\ add_dialect_tag_to_text text dialect = text) \/
  (get_dialect_tag dialect <> "" /\
   ((startswith text (text_of (get_dialect_tag dialect)) = true /\
     add_dialect_tag_to_text text dialect = text) \/
    (startswith text (text_of (get_dialect_tag dialect)) = false /\
     add_dialect_tag_to_text text dialect
     = text_of (get_dialect_tag dialect) ++ remove_dialect_tag text))).
Proof.
  unfold add_dialect_tag_to_text.
  destruct (negb (truthy dialect)) eqn:Htr; simpl.
  { left. split; [|done]. unfold get_dialect_tag. by rewrite Htr. }
  destruct (String.eqb (str_lower _) "mandarin") eqn:Hm.
  { left. split; [|done]. by apply mandarin_has_no_tag. }
  destruct (String.eqb_spec (get_dialect_tag dialect) "") as [He|Hne];
    [by left|right].
  split; [done|].
  destruct (startswith text _) eqn:Hsw; [by left|by right].
Qed.

Lemma detect_first_None (items : Dict string) (s : Text) :
  detect_first items s = None ->
  Forall (fun T => T = "" \/ startswith s (text_of T) = false) (dict_values items).
Proof.
  induction items as [|[k T] items IH]; simpl; [constructor|].
  destruct (String.eqb_spec T "") as [->|HT]; simpl.
  - intros H. constructor; [by left|auto].
  - destruct (startswith s (text_of T)) eqn:Hsw; [done|].
    intros H. constructor; [by right|auto].
Qed.

Lemma detect_first_Some (items : Dict string) (s : Text) k :
  detect_first items s = Some k ->
  exists T, In (k, T) items /\ T <> "" /\ startswith s (text_of T) = true.
Proof.
  induction items as [|[k' T] items IH]; simpl; [done|].
  destruct (String.eqb_spec T "") as [->|HT]; simpl.
  - intros H. destruct (IH H) as (T' & ? & ? & ?). eauto.
  - destruct (startswith s (text_of T)) eqn:Hsw.
    + intros [= <-]. eauto.
    + intros H. destruct (IH H) as (T' & ? & ? & ?). eauto.
Qed.

Lemma detect_first_hit (items : Dict string) (T : string) (s : Text) :
  In T (dict_values items) -> T <> "" ->
  Forall (fun T' => T' = "" \/ T' = T \/
             (~ text_of T' `prefix_of` text_of T /\
              ~ text_of T `prefix_of` text_of T')) (dict_values items) ->
  exists k, detect_first items (text_of T ++ s) = Some k /\ In (k, T) items.
Proof.
  intros Hin HT Hall. induction items as [|[k T'] items IH]; [done|].
  simpl in *. apply Forall_cons in Hall as [HT' Hall].
  destruct HT' as [->| [->|[H1 H2]]].
  - simpl. destruct Hin as [?|Hin]; [done|].
    destruct (IH Hin Hall) as (k' & ? & ?). eauto.
  - destruct (String.eqb_spec T ""); [done|]. simpl.
    rewrite startswith_app. eauto.
  - rewrite startswith_other_tag, andb_false_r by done.
    destruct Hin as [->|Hin]; [exfalso; by apply H1|].
    destruct (IH Hin Hall) as (k' & ? & ?). eauto.
Qed.

(** Every name of the table stands for its own tag. *)
Lemma table_names_canonical :
  Forall (fun kt => get_dialect_tag (Some kt.1) = kt.2) DIALECT_TAGS.
Proof. apply (bool_decide_unpack _). vm_compute. exact I. Qed.

Lemma text_of_nonempty (T : string) : T <> "" -> text_of T <> [].
Proof. by destruct T. Qed.

Lemma lstrip_length (s : Text) : (length (lstrip s) <= length s)%nat.
Proof.
  induction s as [|c s IH]; simpl; [done|].
  destruct (isspace c); simpl; lia.
Qed.

(** X1. Putting a dialect tag on a text and taking it off again gives
    the text back, up to what the two functions drop on the way (a tag
    the text already had, and white space after the tag): for a dialect
    with a tag the result is the text without its own tag, stripped on
    the left, so a text without a tag and without leading white space
    comes back unchanged; for a dialect without a tag nothing is added. *)
Theorem add_then_remove_dialect_tag (text : Text) (dialect : option string) :
  remove_dialect_tag (add_dialect_tag_to_text text dialect)
  = (if String.eqb (get_dialect_tag dialect) "" then remove_dialect_tag text
     else lstrip (remove_dialect_tag text)) /\
  (get_dialect_tag dialect <> "" -> detect_dialect_from_text text = None ->
   lstrip text = text ->
   remove_dialect_tag (add_dialect_tag_to_text text dialect) = text).
Proof.
  assert (remove_dialect_tag (add_dialect_tag_to_text text dialect)
          = (if String.eqb (get_dialect_tag dialect) ""
             then remove_dialect_tag text
             else lstrip (remove_dialect_tag text))) as Heq.
  { destruct (add_dialect_tag_cases text dialect)
      as [[Ht ->]|[Hne [[Hsw ->]|[Hsw ->]]]].
    - by rewrite Ht.
    - destruct (String.eqb_spec (get_dialect_tag dialect) ""); [done|].
      destruct (dialect_tag_cases dialect) as [?|[_ Hrm]]; [done|].
      rewrite (startswith_true _ _ Hsw), Hrm. by rewrite lstrip_idem.
    - destruct (String.eqb_spec (get_dialect_tag dialect) ""); [done|].
      destruct (dialect_tag_cases dialect) as [?|[_ Hrm]]; [done|].
      by rewrite Hrm. }
  split; [done|]. intros Hne Hnone Hstrip. rewrite Heq.
  destruct (String.eqb_spec (get_dialect_tag dialect) ""); [done|].
  unfold remove_dialect_tag. rewrite remove_first_tag_miss; [done|].
  by apply detect_first_None.
Qed.

Lemma add_dialect_tag_result_facts (text : Text) (dialect : option string) :
  let tagged := add_dialect_tag_to_text text dialect in
  startswith tagged (text_of (get_dialect_tag dialect)) = true /\
  add_dialect_tag_to_text tagged dialect = tagged /\
  (get_dialect_tag dialect <> "" ->
   exists k, detect_dialect_from_text tagged = Some k /\
             get_dialect_tag (Some k) = get_dialect_tag dialect).
Proof.
  intros tagged.
  assert (get_dialect_tag dialect = "" /\ tagged = text \/
          get_dialect_tag dialect <> "" /\
          exists rest, tagged = text_of (get_dialect_tag dialect) ++ rest)
    as [[Ht Htag]|[Hne [rest Htag]]].
  { unfold tagged.
    destruct (add_dialect_tag_cases text dialect)
      as [[Ht ->]|[Hne [[Hsw ->]|[Hsw ->]]]]; [by left|right..].
    - split; [done|]. eexists. by apply startswith_true.
    - split; [done|]. by eexists. }
  - rewrite Ht. split; [by destruct tagged|]. split; [|done].
    destruct (add_dialect_tag_cases tagged dialect)
      as [[_ ->]|[Hne _]]; done.
  - split; [rewrite Htag; apply startswith_app|]. split.
    + destruct (add_dialect_tag_cases tagged dialect)
        as [[_ ->]|[_ [[_ ->]|[Hsw _]]]]; [done..|].
      by rewrite Htag, startswith_app in Hsw.
    + intros _. rewrite Htag.
      destruct (dialect_tag_cases dialect) as [?|[Hin _]]; [done|].
      pose proof tags_prefix_free as Hfree. rewrite Forall_forall in Hfree.
      destruct (Hfree (get_dialect_tag dialect)) as [?|Hall];
        [by apply list_elem_of_In|done|].
      destruct (detect_first_hit DIALECT_TAGS _ rest Hin Hne Hall)
        as (k & Hk & Hkin).
      exists k. split; [done|].
      pose proof table_names_canonical as Hcan. rewrite Forall_forall in Hcan.
      apply (Hcan (k, _)). by apply list_elem_of_In.
Qed.

(** X2. [detect_dialect_from_text] and [remove_dialect_tag] agree: when
    no dialect is detected the text is returned as it is, and only then;
    when a dialect is detected, the text starts with the tag that name
    stands for, and what is returned is the rest of the text, stripped on
    the left.  One tag is removed, not every tag. *)
Theorem detect_names_the_removed_tag (text : Text) :
  (detect_dialect_from_text text = None <-> remove_dialect_tag text = text) /\
  (forall k, detect_dialect_from_text text = Some k ->
     get_dialect_tag (Some k) <> "" /\
     exists rest, text = text_of (get_dialect_tag (Some k)) ++ rest /\
                  remove_dialect_tag text = lstrip rest).
Proof.
  assert (forall k, detect_dialect_from_text text = Some k ->
     get_dialect_tag (Some k) <> "" /\
     exists rest, text = text_of (get_dialect_tag (Some k)) ++ rest /\
                  remove_dialect_tag text = lstrip rest) as Hsome.
  { intros k Hk. apply detect_first_Some in Hk as (T & Hin & HT & Hsw).
    pose proof table_names_canonical as Hcan. rewrite Forall_forall in Hcan.
    assert (get_dialect_tag (Some k) = T) as ->
      by (apply (Hcan (k, T)); by apply list_elem_of_In).
    split; [done|]. exists (drop (length (text_of T)) text).
    split; [by apply startswith_true|].
    rewrite (startswith_true _ _ Hsw) at 1.
    unfold remove_dialect_tag. apply remove_first_tag_hit; [|done|].
    - apply (in_map snd) in Hin. exact Hin.
    - pose proof tags_prefix_free as Hfree. rewrite Forall_forall in Hfree.
      destruct (Hfree T) as [?|Hall]; [|done..].
      apply list_elem_of_In. apply (in_map snd) in Hin. exact Hin. }
  split; [|done]. split.
  - intros Hnone. unfold remove_dialect_tag.
    apply remove_first_tag_miss. by apply detect_first_None.
  - intros Hsame.
    destruct (detect_dialect_from_text text) as [k|] eqn:Hk; [|done].
    exfalso. destruct (Hsome k eq_refl) as (Hne & rest & Htext & Hrm).
    rewrite Hrm in Hsame. apply (f_equal length) in Hsame.
    rewrite Htext, length_app in Hsame.
    pose proof (lstrip_length rest).
    apply text_of_nonempty in Hne.
    destruct (text_of (get_dialect_tag (Some k))); [done|]. simpl in Hsame. lia.
Qed.

Lemma truthy_Some (s : string) : truthy (Some s) = negb (String.eqb s "").
Proof. done. Qed.

Lemma str_strip_lower_empty :
  str_strip (str_lower "") = "".
Proof. reflexivity. Qed.

(** The name [normalize_dialect_name] returns for a name: its alias,
    or the name in lower case and stripped. *)
Lemma normalize_cases (d : string) :
  d <> "" ->
  let dl := str_strip (str_lower d) in
  (exists v, In (dl, v) alias_map /\ normalize_dialect_name (Some d) = Some v) \/
  (dict_get alias_map dl = None /\ normalize_dialect_name (Some d) = Some dl).
Proof.
  intros Hd dl. unfold normalize_dialect_name.
  rewrite truthy_Some. destruct (String.eqb_spec d ""); [done|].
  cbn [negb]. change (default "" (Some d)) with d. cbv zeta.
  fold dl. generalize dl. clear. intros dl. unfold alias_map.
  cbn [dict_get In].
  repeat (match goal with
          | |- context [String.eqb ?k dl] =>
              destruct (String.eqb_spec k dl) as [<-|?];
              [left; eexists; split; [|reflexivity]; tauto|]
          end).
  right. done.
Qed.

Lemma normalize_dialect_facts (dialect : option string) :
  get_dialect_tag (normalize_dialect_name dialect) = get_dialect_tag dialect /\
  is_dialect_supported (normalize_dialect_name dialect)
  = is_dialect_supported dialect /\
  is_dialect_supported dialect
  = truthy dialect
    && dict_in (str_strip (str_lower (default "" dialect))) DIALECT_TAGS.
Proof.
  assert (forall dl,
    name_in dl SUPPORTED_DIALECTS || dict_in dl DIALECT_TAGS
    = dict_in dl DIALECT_TAGS) as Hsup.
  { intros dl. destruct (dict_in dl DIALECT_TAGS) eqn:Hin;
      [apply orb_true_r|]. rewrite orb_false_r.
    revert Hin. unfold name_in, SUPPORTED_DIALECTS, dict_in, DIALECT_TAGS.
    cbn [dict_get existsb orb]. rewrite !(String.eqb_sym dl).
    repeat (match goal with
            | |- context [String.eqb ?k dl] => destruct (String.eqb k dl)
            end; try done). }
  destruct dialect as [d|]; [|done].
  destruct (String.eqb_spec d "") as [->|Hd]; [done|].
  assert (truthy (Some d) = true) as Htr
    by (rewrite truthy_Some; by destruct (String.eqb_spec d "")).
  assert (is_dialect_supported (Some d)
          = dict_in (str_strip (str_lower d)) DIALECT_TAGS) as Hsd.
  { unfold is_dialect_supported. rewrite Htr. cbn [negb]. apply Hsup. }
  assert (get_dialect_tag (Some d)
          = default "" (dict_get DIALECT_TAGS (str_strip (str_lower d)))) as Htd.
  { unfold get_dialect_tag. by rewrite Htr. }
  split; [|split]; [..|by rewrite Htr, Hsd].
  - rewrite Htd.
    destruct (normalize_cases d Hd) as [(v & Hin & ->)|[_ ->]].
    + simpl in Hin.
      repeat (destruct Hin as [[= <- <-]|Hin]; [by vm_compute|]). done.
    + destruct (String.eqb_spec (str_strip (str_lower d)) "") as [->|Hne];
        [done|].
      unfold get_dialect_tag. rewrite truthy_Some.
      destruct (String.eqb_spec (str_strip (str_lower d)) ""); [done|].
      cbn [negb]. cbv zeta.
      change (default "" (Some (str_strip (str_lower d))))
        with (str_strip (str_lower d)).
      by rewrite str_strip_lower_idem.
  - rewrite Hsd.
    destruct (normalize_cases d Hd) as [(v & Hin & ->)|[_ ->]].
    + simpl in Hin.
      repeat (destruct Hin as [[= <- <-]|Hin]; [by vm_compute|]). done.
    + destruct (String.eqb_spec (str_strip (str_lower d)) "") as [->|Hne];
        [done|].
      unfold is_dialect_supported. rewrite truthy_Some.
      destruct (String.eqb_spec (str_strip (str_lower d)) ""); [done|].
      cbn [negb]. cbv zeta.
      change (default "" (Some (str_strip (str_lower d))))
        with (str_strip (str_lower d)).
      by rewrite str_strip_lower_idem, Hsup.
Qed.

(** The prompts of a dialect all start with one tag. *)
Lemma default_prompts_tagged :
  Forall (fun kp =>
     Forall (fun prompt =>
        prompt <> [] /\
        exists T, In T (dict_values DIALECT_TAGS) /\ T <> "" /\
                  startswith prompt (text_of T) = true) kp.2)
    default_prompts.
Proof.
  repeat constructor; try done;
    [exists "<|Sichuan|>"|exists "<|Sichuan|>"|exists "<|Henan|>"
    |exists "<|Henan|>"|exists "<|Yue|>"|exists "<|Yue|>"
    |exists "<|Shanghai|>"|exists "<|Shanghai|>"];
    (split; [simpl; tauto|]); (split; [done|]); by vm_compute.
Qed.

(** What [get_default_dialect_prompt] looks up: the prompts of the
    normalised name. *)
Lemma default_prompt_lookup (d : string) (z : Z) :
  d <> "" -> String.eqb (str_lower d) "mandarin" = false ->
  let dl := str_strip (str_lower d) in
  exists key,
    (key = "" /\ dl = "" \/ normalize_dialect_name (Some d) = Some key) /\
    get_default_dialect_prompt (Some d) z
    = let prompts := default [] (dict_get default_prompts key) in
      if negb (bool_decide (prompts = []))
         && (z <? Z.of_nat (length prompts))%Z
      then match py_getitem prompts z with
           | Some prompt => inr prompt
           | None => inl IndexError
           end
      else match prompts with
           | prompt :: _ => inr prompt
           | [] => inr []
           end.
Proof.
  intros Hd Hm dl. unfold get_default_dialect_prompt.
  rewrite truthy_Some. destruct (String.eqb_spec d ""); [done|].
  cbn [negb orb]. change (default "" (Some d)) with d. rewrite Hm.
  cbv zeta. fold dl.
  destruct (String.eqb_spec dl "") as [Hdl|Hdl].
  - exists "". split; [by left|]. by rewrite Hdl.
  - assert (normalize_dialect_name (Some dl) = normalize_dialect_name (Some d))
      as Hn.
    { unfold normalize_dialect_name. rewrite !truthy_Some.
      destruct (String.eqb_spec d ""); [done|].
      destruct (String.eqb_spec dl ""); [done|].
      cbn [negb]. cbv zeta. change (default "" (Some d)) with d.
      change (default "" (Some dl)) with dl. fold dl.
      unfold dl at 1 2. by rewrite str_strip_lower_idem. }
    rewrite Hn.
    pose proof (normalize_cases d Hd) as Hc. cbv zeta in Hc. fold dl in Hc.
    destruct Hc as [(v & Hin & Hv)|[Hnone Hv]].
    + exists v. split; [by right|]. rewrite Hv.
      assert (str_or (Some v) dl = v) as ->; [|done].
      unfold alias_map in Hin. cbn [In] in Hin.
      repeat (destruct Hin as [[= <- <-]|Hin]; [done|]). done.
    + exists dl. split; [by right|]. rewrite Hv.
      assert (str_or (Some dl) dl = dl) as ->; [|done].
      unfold str_or. rewrite truthy_Some. by destruct (String.eqb_spec dl "").
Qed.

(** X3. Normalising a dialect name changes neither the tag the name
    stands for nor whether the name counts as supported; and a name is
    supported exactly when, in lower case and stripped, it is a key of
    the tag table: the list of supported dialects adds nothing to it. *)
Theorem normalize_keeps_the_dialect (dialect : option string) :
  get_dialect_tag (normalize_dialect_name dialect) = get_dialect_tag dialect /\
  is_dialect_supported (normalize_dialect_name dialect)
  = is_dialect_supported dialect /\
  is_dialect_supported dialect
  = truthy dialect
    && dict_in (str_strip (str_lower (default "" dialect))) DIALECT_TAGS.
Proof. apply normalize_dialect_facts. Qed.

Lemma pick_prompt (p0 p1 : Text) (i : nat) :
  exists p,
    (let prompts := [p0; p1] in
     if negb (bool_decide (prompts = []))
        && (Z.of_nat i <? Z.of_nat (length prompts))%Z
     then match py_getitem prompts (Z.of_nat i) with
          | Some prompt => inr prompt
          | None => inl IndexError
          end
     else match prompts with
          | prompt :: _ => inr prompt
          | [] => inr []
          end) = @inr Exn Text p /\ (p = p0 \/ p = p1).
Proof.
  cbv zeta. rewrite bool_decide_eq_false_2 by done. cbn [negb andb length].
  destruct i as [|[|i]].
  - exists p0. split; [done|by left].
  - exists p1. split; [done|by right].
  - exists p0. split; [|by left].
    destruct (Z.ltb_spec (Z.of_nat (S (S i))) (Z.of_nat 2)); [lia|done].
Qed.

Lemma default_prompt_facts (dialect : option string) (i : nat) :
  exists prompt,
    get_default_dialect_prompt dialect (Z.of_nat i) = inr prompt /\
    (prompt <> [] -> is_dialect_supported dialect = true ->
       get_dialect_tag dialect <> "" /\
       startswith prompt (text_of (get_dialect_tag dialect)) = true) /\
    (prompt <> [] -> is_dialect_supported dialect = false ->
       str_strip (str_lower (default "" dialect)) = "shanghai").
Proof.
  destruct dialect as [d|]; [|by exists []].
  destruct (String.eqb_spec d "") as [->|Hd]; [by exists []|].
  destruct (String.eqb (str_lower d) "mandarin") eqn:Hm.
  { exists []. split; [|done]. unfold get_default_dialect_prompt.
    change (default "" (Some d)) with d. by rewrite Hm, orb_true_r. }
  destruct (default_prompt_lookup d (Z.of_nat i) Hd Hm) as (key & Hkey & ->).
  destruct (dict_get default_prompts key) as [prompts|] eqn:Hget;
    [|by exists []].
  destruct Hkey as [[-> _]|Hnorm]; [done|].
  destruct (normalize_dialect_facts (Some d)) as (Htag & Hsup & _).
  rewrite Hnorm in Htag, Hsup. rewrite <- Htag, <- Hsup.
  change (default "" (Some d)) with d.
  revert Hget. unfold default_prompts. cbn [dict_get].
  repeat (match goal with
          | |- context [String.eqb ?k key] =>
              destruct (String.eqb_spec k key) as [<-|?]
          end);
    [intros [= <-]..|done];
    match goal with
    | |- context [default [] (Some [?p0; ?p1])] =>
        destruct (pick_prompt p0 p1 i) as (p & Hp & Hcase)
    end;
    (exists p; split; [exact Hp|]).
  1-3: (split; [intros _ _; destruct Hcase as [->| ->]; by vm_compute
               |intros _ Hno; by vm_compute in Hno]).
  split; [intros _ Hyes; by vm_compute in Hyes|]. intros _ _.
  pose proof (normalize_cases d Hd) as Hc. cbv zeta in Hc.
  destruct Hc as [(v & Hin & Hv)|[_ Hv]]; rewrite Hv in Hnorm.
  - injection Hnorm as ->. unfold alias_map in Hin. cbn [In] in Hin.
    repeat (destruct Hin as [[=]|Hin]). done.
  - by injection Hnorm.
Qed.

(** X4. For a speaker index that is not negative,
    [get_default_dialect_prompt] returns a prompt and never raises.  For
    a supported dialect the prompt, when it is not empty, starts with the
    tag the dialect name stands for.  A name that is not supported gets a
    prompt only when, in lower case and stripped, it is "shanghai";
    "shanghainese", which is supported, gets the empty prompt for every
    index.  For the dialect "yue", which has two prompts, an index below
    -2 raises [IndexError]. *)
Theorem default_dialect_prompt_spec (dialect : option string) (i : nat) :
  (exists prompt,
     get_default_dialect_prompt dialect (Z.of_nat i) = inr prompt /\
     (prompt <> [] -> is_dialect_supported dialect = true ->
        get_dialect_tag dialect <> "" /\
        startswith prompt (text_of (get_dialect_tag dialect)) = true) /\
     (prompt <> [] -> is_dialect_supported dialect = false ->
        str_strip (str_lower (default "" dialect)) = "shanghai")) /\
  (forall z, get_default_dialect_prompt (Some "shanghainese") z = inr []) /\
  (forall z, z < -2 ->
     get_default_dialect_prompt (Some "yue") z = inl IndexError).
Proof.
  split; [apply default_prompt_facts|]. split.
  - intros z. reflexivity.
  - intros z Hz.
    destruct (default_prompt_lookup "yue" z) as (key & Hkey & ->); [done..|].
    assert (normalize_dialect_name (Some "yue") = Some "yue") as Hn
      by reflexivity.
    rewrite Hn in Hkey. destruct Hkey as [[_ [=]]|[= <-]].
    destruct (dict_get default_prompts "yue") as [[|p0 [|p1 [|]]]|] eqn:Hget;
      try (by vm_compute in Hget).
    cbv zeta. rewrite bool_decide_eq_false_2 by done.
    cbn [negb andb length default from_option id]. unfold py_getitem.
    cbn [length].
    destruct (Z.ltb_spec z (Z.of_nat 2)); [|lia].
    destruct (Z.ltb_spec z 0); [|lia].
    destruct (Z.ltb_spec (Z.of_nat 2 + z) 0); [done|lia].
Qed.

(** X5. The text [add_dialect_tag_to_text] returns starts with the tag of
    the dialect (with nothing, for a dialect without a tag); tagging it
    again for the same dialect changes nothing; and
    [detect_dialect_from_text] finds in it a dialect name that stands for
    the same tag. *)
Theorem add_dialect_tag_result (text : Text) (dialect : option string) :
  let tagged := add_dialect_tag_to_text text dialect in
  startswith tagged (text_of (get_dialect_tag dialect)) = true /\
  add_dialect_tag_to_text tagged dialect = tagged /\
  (get_dialect_tag dialect <> "" ->
   exists k, detect_dialect_from_text tagged = Some k /\
             get_dialect_tag (Some k) = get_dialect_tag dialect).
Proof. apply add_dialect_tag_result_facts. Qed.

(** ** Voice tags (llm/soulx_tts.py) *)

Lemma convert_voice_tags_eq (text : Text) :
  convert_voice_tags_to_soulx_format text = sub_voice_tags 0 None text.
Proof.
  unfold convert_voice_tags_to_soulx_format.
  destruct (bool_decide_reflect (text = [])) as [->|]; done.
Qed.

Lemma tag_body_Some (s tag : Text) :
  tag_body s = Some tag ->
  s = tag ++ 93%N :: drop (S (length tag)) s /\ (91%N ∉ tag).
Proof.
  revert tag. induction s as [|c s IH]; intros tag; simpl; [done|].
  destruct (N.eqb_spec c 93) as [->|H93].
  { intros [= <-]. simpl. rewrite drop_0. split; [done|]. apply not_elem_of_nil. }
  destruct (N.eqb_spec c 91) as [->|H91]; [done|].
  destruct (c =? 60)%N; [done|]. destruct (c =? 62)%N; [done|]. simpl.
  destruct (tag_body s) as [tag'|] eqn:Hs; [|done]. simpl.
  intros [= <-]. destruct (IH tag' eq_refl) as [Heq Hno]. split.
  - simpl. by rewrite <- Heq.
  - rewrite not_elem_of_cons. done.
Qed.

Lemma sub_voice_tags_skip (xs s : Text) (prev : option N) :
  sub_voice_tags (length xs) prev (xs ++ s)
  = sub_voice_tags 0 (from_option Some prev (last xs)) s.
Proof.
  revert prev. induction xs as [|x xs IH]; intros prev; [done|].
  simpl. rewrite IH. f_equal. destruct xs as [|y xs']; [done|].
  rewrite last_cons_cons.
  destruct (last (y :: xs')) eqn:Hl; [done|]. by apply last_None in Hl.
Qed.

(** The text up to the first opening bracket is copied. *)
Lemma sub_voice_tags_copy (xs s : Text) (prev : option N) :
  91%N ∉ xs ->
  sub_voice_tags 0 prev (xs ++ s)
  = xs ++ sub_voice_tags 0 (from_option Some prev (last xs)) s.
Proof.
  revert prev. induction xs as [|x xs IH]; intros prev Hno; [done|].
  apply not_elem_of_cons in Hno as [Hx Hno].
  cbn [app sub_voice_tags]. destruct (N.eqb_spec x 91); [done|].
  cbn [andb]. rewrite IH by done. f_equal. f_equal.
  destruct xs as [|y xs']; [done|].
  rewrite last_cons_cons.
  destruct (last (y :: xs')) eqn:Hl; [done|]. by apply last_None in Hl.
Qed.

(** What the conversion does at the head of a text. *)
Lemma sub_voice_tags_head (prev : option N) (c : N) (s : Text) :
  (exists tag rest,
     c = 91%N /\ prev <> Some 60%N /\ tag <> [] /\ (91%N ∉ tag) /\
     tag_body s = Some tag /\ s = tag ++ 93%N :: rest /\
     sub_voice_tags 0 prev (c :: s)
     = [60; 124]%N ++ tag ++ [124; 62]%N ++ sub_voice_tags 0 (Some 93%N) rest) \/
  ((c <> 91%N \/ prev = Some 60%N \/ tag_body s = None \/ tag_body s = Some []) /\
   sub_voice_tags 0 prev (c :: s) = c :: sub_voice_tags 0 (Some c) s).
Proof.
  cbn [sub_voice_tags].
  destruct (N.eqb_spec c 91) as [->|Hc]; [|right; split; [by left|done]].
  destruct (bool_decide_reflect (prev = Some 60%N)) as [Hp|Hp];
    [right; split; [by right; left|done]|].
  cbn [andb negb].
  destruct (tag_body s) as [[|t tag]|] eqn:Hs;
    [right; split; [by right; right; right|done]| |
     right; split; [by right; right; left|done]].
  left. destruct (tag_body_Some _ _ Hs) as [Heq Hno].
  remember (drop (S (length (t :: tag))) s) as rest eqn:Hrest. clear Hrest.
  subst s. exists (t :: tag), rest.
  repeat split; try done.
  replace ((t :: tag) ++ 93%N :: rest) with (((t :: tag) ++ [93%N]) ++ rest)
    by (by rewrite <- app_assoc).
  replace (S (length (t :: tag))) with (length ((t :: tag) ++ [93%N]))
    by (rewrite length_app; simpl; lia).
  rewrite sub_voice_tags_skip, last_snoc. done.
Qed.

(** A bracket that opens no tag opens none after the conversion. *)
Lemma tag_body_sub (s : Text) : forall prev,
  (tag_body s = None -> tag_body (sub_voice_tags 0 prev s) = None) /\
  (tag_body s = Some [] -> tag_body (sub_voice_tags 0 prev s) = Some []).
Proof.
  induction s as [|c s IH]; intros prev; [done|].
  destruct (sub_voice_tags_head prev c s)
    as [(tag & rest & -> & _ & _ & _ & _ & _ & ->)|[_ ->]]; [done|].
  simpl.
  destruct (c =? 93)%N; [done|].
  destruct ((c =? 91) || (c =? 60) || (c =? 62))%N; [done|].
  destruct (IH (Some c)) as [Hn _]. split.
  - destruct (tag_body s) eqn:Hs; [done|]. intros _. by rewrite Hn.
  - by destruct (tag_body s).
Qed.

Lemma sub_voice_tags_idem (n : nat) : forall (s : Text) (prev prev' : option N),
  (length s <= n)%nat -> (prev = Some 60%N -> prev' = Some 60%N) ->
  sub_voice_tags 0 prev' (sub_voice_tags 0 prev s) = sub_voice_tags 0 prev s.
Proof.
  induction n as [|n IH]; intros s prev prev' Hlen Hp.
  { destruct s; [done|simpl in Hlen; lia]. }
  destruct s as [|c s]; [done|]. simpl in Hlen.
  destruct (sub_voice_tags_head prev c s)
    as [(tag & rest & -> & Hprev & Htag & Hno & _ & -> & ->)|[Hcase ->]].
  - replace ([60; 124]%N ++ tag ++ [124; 62]%N ++ sub_voice_tags 0 (Some 93%N) rest)
      with (([60; 124]%N ++ tag ++ [124; 62]%N) ++ sub_voice_tags 0 (Some 93%N) rest)
      by (by rewrite <- !app_assoc).
    rewrite sub_voice_tags_copy.
    + f_equal.
      replace ([60; 124]%N ++ tag ++ [124; 62]%N)
        with (([60; 124]%N ++ tag ++ [124%N]) ++ [62%N])
        by (by rewrite <- !app_assoc).
      rewrite last_snoc. simpl. apply IH; [|done].
      rewrite length_app in Hlen. simpl in Hlen. lia.
    + rewrite !not_elem_of_app, !not_elem_of_cons.
      repeat split; try done; apply not_elem_of_nil.
  - destruct (sub_voice_tags_head prev' c (sub_voice_tags 0 (Some c) s))
      as [(tag & rest & -> & Hprev' & Htag & _ & Hbody & _)|[_ ->]].
    + exfalso. destruct Hcase as [?|[?|Hcase]]; [done|by auto|].
      destruct (tag_body_sub s (Some 91%N)) as [Hn He].
      destruct Hcase as [Hnone|Hempty].
      * rewrite (Hn Hnone) in Hbody. done.
      * rewrite (He Hempty) in Hbody. by injection Hbody as <-.
    + f_equal. apply IH; [lia|done].
Qed.

Lemma convert_without_brackets (text : Text) :
  (91%N ∉ text) \/ (93%N ∉ text) ->
  convert_voice_tags_to_soulx_format text = text.
Proof.
  rewrite convert_voice_tags_eq. intros [Hno|Hno].
  - rewrite <- (app_nil_r text) at 1.
    rewrite sub_voice_tags_copy by done. simpl. by rewrite app_nil_r.
  - generalize (@None N). induction text as [|c text IH]; intros prev; [done|].
    apply not_elem_of_cons in Hno as [Hc Hno].
    destruct (sub_voice_tags_head prev c text)
      as [(tag & rest & _ & _ & _ & _ & _ & -> & _)|[_ ->]].
    + exfalso. apply Hno. rewrite elem_of_app, elem_of_cons. auto.
    + f_equal. by apply IH.
Qed.

Lemma convert_idem (text : Text) :
  convert_voice_tags_to_soulx_format (convert_voice_tags_to_soulx_format text)
  = convert_voice_tags_to_soulx_format text.
Proof.
  rewrite !convert_voice_tags_eq. by apply (sub_voice_tags_idem (length text)).
Qed.

Lemma convert_keeps_dialect_tag (text : Text) (dialect : option string) :
  startswith (convert_voice_tags_to_soulx_format
                (add_dialect_tag_to_text text dialect))
             (text_of (get_dialect_tag dialect)) = true.
Proof.
  rewrite convert_voice_tags_eq.
  destruct (add_dialect_tag_result_facts text dialect) as (Hsw & _).
  apply startswith_true in Hsw. rewrite Hsw.
  rewrite sub_voice_tags_copy; [apply startswith_app|].
  destruct (dialect_tag_cases dialect) as [->|[Hin _]];
    [apply not_elem_of_nil|].
  revert Hin. generalize (get_dialect_tag dialect). intros T Hin.
  simpl in Hin.
  repeat (destruct Hin as [<-|Hin];
          [apply (bool_decide_unpack _); by vm_compute|]).
  done.
Qed.

(** X6. [convert_voice_tags_to_soulx_format] leaves a text without an
    opening or without a closing square bracket as it is, a text already
    in the "<|tag|>" form included; converting twice is the same as
    converting once; and the dialect tag that [add_dialect_tag_to_text]
    puts at the head of a text is still at its head after the voice tags
    are converted, which is the order the SoulX engine applies the two. *)
Theorem voice_tag_conversion (text : Text) :
  ((91%N ∉ text) \/ (93%N ∉ text) ->
   convert_voice_tags_to_soulx_format text = text) /\
  convert_voice_tags_to_soulx_format (convert_voice_tags_to_soulx_format text)
  = convert_voice_tags_to_soulx_format text /\
  (forall dialect,
     startswith (convert_voice_tags_to_soulx_format
                   (add_dialect_tag_to_text text dialect))
                (text_of (get_dialect_tag dialect)) = true).
Proof.
  split; [apply convert_without_brackets|].
  split; [apply convert_idem|]. intros dialect. apply convert_keeps_dialect_tag.
Qed.

(** ** The data item of the SoulX engine *)

(** X7. When the caller gives no dialect prompt of its own, the SoulX
    engine always gets a data item; its text starts with the tag of the
    requested dialect (with nothing, for a dialect without a tag); and
    for a supported dialect the dialect prompt of the item, when there
    is one, starts with the same tag as the text. *)
Theorem soulx_text_and_prompt_agree (text : Text) (wav : string)
    (ref_text : option Text) (dialect : option string) :
  let param := {| sx_text := text; sx_spk_audio_prompt := wav;
                  sx_spk_text_prompt := ref_text; sx_dialect := dialect;
                  sx_dialect_prompt := None |} in
  let tag := text_of (get_dialect_tag dialect) in
  exists item t,
    soulx_dataitem param = inr item /\
    item_text item = [t] /\ startswith t tag = true /\
    (is_dialect_supported dialect = true ->
     forall p, item_dialect_prompt_text item = Some [p] ->
       tag <> [] /\ startswith p tag = true).
Proof.
  intros param tag. unfold soulx_dataitem, param. cbn [sx_dialect sx_text
    sx_dialect_prompt sx_spk_text_prompt sx_spk_audio_prompt truthy_text].
  destruct (normalize_dialect_facts dialect) as (Htag & Hsup & _).
  assert (forall t : Text, startswith t [] = true) as Hnil by (by intros []).
  destruct (truthy dialect) eqn:Htr.
  2: { eexists _, _. split; [done|]. split; [done|].
       assert (tag = []) as ->
         by (unfold tag, get_dialect_tag; by rewrite Htr).
       split; [done|]. intros _ p [=]. }
  destruct (truthy (normalize_dialect_name dialect)
            && negb (String.eqb (default "" (normalize_dialect_name dialect))
                                "mandarin")) eqn:Hnorm.
  2: { eexists _, _. split; [done|]. split; [done|].
       assert (tag = []) as ->; [|split; [done|]; intros _ p [=]].
       unfold tag. rewrite <- Htag.
       destruct (normalize_dialect_name dialect) as [n|]; [|done].
       apply andb_false_iff in Hnorm as [Hn|Hn].
       - rewrite truthy_Some in Hn. apply negb_false_iff in Hn.
         apply String.eqb_eq in Hn as ->. done.
       - apply negb_false_iff, String.eqb_eq in Hn. simpl in Hn.
         by rewrite Hn. }
  destruct (default_prompt_facts (normalize_dialect_name dialect) 0)
    as (prompt & Hprompt & Hyes & _).
  change (Z.of_nat 0) with 0 in Hprompt. rewrite Hprompt.
  eexists _, _. split; [done|]. split; [done|].
  unfold tag. rewrite <- Htag. split; [apply convert_keeps_dialect_tag|].
  intros Hs p. rewrite <- Hsup in Hs. cbn [item_dialect_prompt_text].
  destruct prompt as [|c prompt]; [done|]. cbn [truthy_text andb default
    from_option id].
  intros [= <-]. destruct (Hyes ltac:(done) Hs) as [Hne Hsw].
  split; [by apply text_of_nonempty|done].
Qed.

(** ** Speakers and profiles (speakers.py) *)

(** X8. [Speaker.validate_name] rejects a name exactly when it is empty
    or all white space; a name it accepts is the given one without its
    leading and trailing white space, is not empty, neither starts nor
    ends with white space, and is accepted again unchanged. *)
Theorem validate_name_strips (v : Text) :
  (Forall (fun c => isspace c = true) v <->
   validate_name v = inl (ValueError "Speaker name cannot be empty")) /\
  (forall n, validate_name v = inr n ->
     n = strip v /\ n <> [] /\
     (forall c, head n = Some c -> isspace c = false) /\
     (forall c, last n = Some c -> isspace c = false) /\
     validate_name n = inr n).
Proof.
  assert (forall u : Text,
            bool_decide (u = []) || (length (strip u) =? 0)%nat = true
            <-> Forall (fun c => isspace c = true) u) as Hrej.
  { intros u. rewrite <- strip_spaces, orb_true_iff, bool_decide_eq_true,
      Nat.eqb_eq, length_zero_iff_nil.
    split; [intros [->|H]; [done|exact H]|auto]. }
  unfold validate_name. split.
  - rewrite <- Hrej.
    destruct (bool_decide (v = []) || (length (strip v) =? 0)%nat);
      split; done.
  - intros n.
    destruct (bool_decide (v = []) || (length (strip v) =? 0)%nat) eqn:Hv;
      [done|].
    intros [= <-]. split; [done|].
    assert (strip v <> []) as Hne.
    { intros He. apply strip_spaces, Hrej in He. congruence. }
    split; [done|]. split; [apply strip_head|]. split; [apply strip_last|].
    rewrite strip_idem.
    destruct (bool_decide (strip v = []) || (length (strip v) =? 0)%nat)
      eqn:Hs; [|done].
    apply orb_true_iff in Hs as [Hs|Hs].
    + by apply bool_decide_eq_true in Hs.
    + by apply Nat.eqb_eq, length_zero_iff_nil in Hs.
Qed.

Lemma validate_speakers_names (v v' : list Speaker) :
  validate_speakers v = inr v' -> v' = v /\ NoDup (map name v).
Proof.
  unfold validate_speakers.
  destruct ((length v <? 1)%nat || (4 <? length v)%nat); [done|].
  destruct (negb (length (map name v) =? len_set (map name v))%nat) eqn:Hn;
    [done|].
  destruct (negb (length (map voice_key v) =? len_set (map voice_key v))%nat);
    [done|].
  intros [= <-]. split; [done|].
  by apply negb_false_iff, Nat.eqb_eq, len_set_NoDup in Hn.
Qed.

Lemma make_SpeakerProfile_names provider model v p :
  make_SpeakerProfile provider model v = inr p -> NoDup (map name (speakers p)).
Proof.
  unfold make_SpeakerProfile.
  destruct (validate_speakers v) as [e|v'] eqn:Hv; [by destruct e|].
  intros [= <-]. simpl. by apply validate_speakers_names in Hv as [-> ?].
Qed.

Lemma find_name_unique (l : list Speaker) (s : Speaker) :
  NoDup (map name l) -> s ∈ l ->
  find (fun speaker => String.eqb (name speaker) (name s)) l = Some s.
Proof.
  induction l as [|x l IH]; simpl; [by intros _ ?%elem_of_nil|].
  intros [Hx Hnd]%NoDup_cons [->|Hin]%elem_of_cons.
  - by rewrite String.eqb_refl.
  - destruct (String.eqb_spec (name x) (name s)) as [Heq|_]; [|by apply IH].
    exfalso. apply Hx. rewrite Heq. change (map name l) with (name <$> l).
    apply list_elem_of_fmap. eauto.
Qed.

Lemma find_name_None (l : list Speaker) (nm : string) :
  ~ In nm (map name l) ->
  find (fun speaker => String.eqb (name speaker) nm) l = None.
Proof.
  induction l as [|x l IH]; simpl; [done|]. intros Hno.
  destruct (String.eqb_spec (name x) nm) as [Heq|_]; [|apply IH; tauto].
  exfalso. apply Hno. by left.
Qed.

Lemma find_name_Some (l : list Speaker) (nm : string) s :
  find (fun speaker => String.eqb (name speaker) nm) l = Some s ->
  s ∈ l /\ name s = nm.
Proof.
  induction l as [|x l IH]; simpl; [done|].
  destruct (String.eqb_spec (name x) nm) as [Heq|_].
  - intros [= <-]. split; [by left|done].
  - intros H. destruct (IH H). split; [by right|done].
Qed.

(** X9. In a speaker profile that was constructed, [get_speaker_by_name]
    finds every speaker by its own name; whatever it returns is a speaker
    of the profile with the name asked for; and for a name that no
    speaker has it raises [ValueError]. *)
Theorem get_speaker_by_name_finds (provider model : string)
    (v : list Speaker) (p : SpeakerProfile) :
  make_SpeakerProfile provider model v = inr p ->
  (forall s, s ∈ speakers p -> get_speaker_by_name p (name s) = inr s) /\
  (forall nm s, get_speaker_by_name p nm = inr s ->
     s ∈ speakers p /\ name s = nm) /\
  (forall nm, ~ In nm (get_speaker_names p) ->
     exists msg, get_speaker_by_name p nm = inl (ValueError msg)).
Proof.
  intros Hnd%make_SpeakerProfile_names. unfold get_speaker_by_name.
  split; [|split].
  - intros s Hs. by rewrite find_name_unique.
  - intros nm s. destruct (find _ _) as [s'|] eqn:Hf; [|done].
    intros [= <-]. by apply find_name_Some in Hf.
  - intros nm Hno. rewrite find_name_None by done. eauto.
Qed.

Lemma profile0_constructed :
  make_SpeakerProfile "kokoro" "Kokoro-82M" [alice] = inr profile0.
Proof. vm_compute. reflexivity. Defined.

Lemma get_speaker_by_name_finds_witness :
  (forall s, s ∈ speakers profile0 ->
     get_speaker_by_name profile0 (name s) = inr s) /\
  (forall nm s, get_speaker_by_name profile0 nm = inr s ->
     s ∈ speakers profile0 /\ name s = nm) /\
  (forall nm, ~ In nm (get_speaker_names profile0) ->
     exists msg, get_speaker_by_name profile0 nm = inl (ValueError msg)).
Proof.
  exact (get_speaker_by_name_finds "kokoro" "Kokoro-82M" [alice] profile0
           profile0_constructed).
Defined.

(** The mappings that the scheduler reads off a profile. *)
Lemma voice_mapping_fold (l : list Speaker) : forall (m0 : gmap string string),
  NoDup (map name l) ->
  (forall nm, ~ In nm (map name l) ->
     foldl (fun m s => <[name s := voice_id s]> m) m0 l !! nm = m0 !! nm) /\
  (forall s, s ∈ l ->
     foldl (fun m s => <[name s := voice_id s]> m) m0 l !! name s
     = Some (voice_id s)) /\
  ((forall s, s ∈ l -> m0 !! name s = None) ->
   base.size (foldl (fun m s => <[name s := voice_id s]> m) m0 l)
   = (base.size m0 + length l)%nat).
Proof.
  induction l as [|x l IH]; intros m0 Hnd.
  { simpl. split; [done|]. split; [by intros s ?%elem_of_nil|]. intros _. lia. }
  apply NoDup_cons in Hnd as [Hx Hnd].
  destruct (IH (<[name x := voice_id x]> m0) Hnd) as (Hout & Hin & Hsize).
  cbn [foldl]. split; [|split].
  - intros nm Hno. rewrite Hout by (simpl in Hno; tauto).
    apply lookup_insert_ne. simpl in Hno. tauto.
  - intros s [->|Hs]%elem_of_cons; [|by apply Hin].
    rewrite Hout; [apply lookup_insert_eq|].
    intros H. apply Hx. by apply list_elem_of_In.
  - intros Hfresh. rewrite Hsize.
    + rewrite map_size_insert_None by (apply Hfresh; by left). simpl. lia.
    + intros s Hs. rewrite lookup_insert_ne; [apply Hfresh; by right|].
      intros Heq. apply Hx. rewrite Heq. change (map name l) with (name <$> l).
      apply list_elem_of_fmap. eauto.
Qed.

Lemma custom_voice_mapping_fold (l : list Speaker) :
  forall (m0 : gmap string string),
  NoDup (map name l) ->
  (forall nm, ~ In nm (map name l) ->
     foldl (fun m s => if truthy (custom_voice s)
                       then <[name s := default "" (custom_voice s)]> m else m)
           m0 l !! nm = m0 !! nm) /\
  (forall s, s ∈ l -> m0 !! name s = None ->
     foldl (fun m s => if truthy (custom_voice s)
                       then <[name s := default "" (custom_voice s)]> m else m)
           m0 l !! name s
     = if truthy (custom_voice s) then custom_voice s else None).
Proof.
  induction l as [|x l IH]; intros m0 Hnd.
  { simpl. split; [done|]. by intros s ?%elem_of_nil. }
  apply NoDup_cons in Hnd as [Hx Hnd]. cbn [foldl]. split.
  - intros nm Hno.
    destruct (IH (if truthy (custom_voice x)
                  then <[name x := default "" (custom_voice x)]> m0 else m0) Hnd)
      as (Hout & _).
    rewrite Hout by (simpl in Hno; tauto).
    destruct (truthy (custom_voice x)); [|done].
    apply lookup_insert_ne. simpl in Hno. tauto.
  - intros s [->|Hs]%elem_of_cons Hfresh.
    + destruct (IH (if truthy (custom_voice x)
                    then <[name x := default "" (custom_voice x)]> m0 else m0)
                  Hnd) as (Hout & _).
      rewrite Hout by (intros H; apply Hx; by apply list_elem_of_In).
      destruct (custom_voice x) as [cv|] eqn:Hcv; [|done].
      destruct (truthy (Some cv)); [apply lookup_insert_eq|done].
    + destruct (IH (if truthy (custom_voice x)
                    then <[name x := default "" (custom_voice x)]> m0 else m0)
                  Hnd) as (_ & Hin).
      apply Hin; [done|].
      destruct (truthy (custom_voice x)); [|done].
      rewrite lookup_insert_ne; [done|].
      intros Heq. apply Hx. rewrite Heq. change (map name l) with (name <$> l).
      apply list_elem_of_fmap. eauto.
Qed.

(** X10. In a speaker profile that was constructed, the voice mapping has
    one entry for each speaker, from the speaker's name to the speaker's
    own voice id, and no other entry; the custom-voice mapping has an
    entry for exactly the speakers with a non-empty custom voice, which
    it maps to that voice. *)
Theorem voice_mappings_of_a_profile (provider model : string)
    (v : list Speaker) (p : SpeakerProfile) :
  make_SpeakerProfile provider model v = inr p ->
  (forall s, s ∈ speakers p ->
     get_voice_mapping p !! name s = Some (voice_id s) /\
     get_custom_voice_mapping p !! name s
     = if truthy (custom_voice s) then custom_voice s else None) /\
  (forall nm, ~ In nm (get_speaker_names p) ->
     get_voice_mapping p !! nm = None /\
     get_custom_voice_mapping p !! nm = None) /\
  base.size (get_voice_mapping p) = length (speakers p).
Proof.
  intros Hnd%make_SpeakerProfile_names.
  unfold get_voice_mapping, get_custom_voice_mapping, get_speaker_names.
  destruct (voice_mapping_fold (speakers p) ∅ Hnd) as (Hout & Hin & Hsize).
  destruct (custom_voice_mapping_fold (speakers p) ∅ Hnd) as (Hcout & Hcin).
  split; [|split].
  - intros s Hs. split; [by apply Hin|]. by apply Hcin.
  - intros nm Hno. by rewrite Hout, Hcout.
  - rewrite Hsize by done. by rewrite map_size_empty.
Qed.

Lemma voice_mappings_of_a_profile_witness :
  (forall s, s ∈ speakers profile0 ->
     get_voice_mapping profile0 !! name s = Some (voice_id s) /\
     get_custom_voice_mapping profile0 !! name s
     = if truthy (custom_voice s) then custom_voice s else None) /\
  (forall nm, ~ In nm (get_speaker_names profile0) ->
     get_voice_mapping profile0 !! nm = None /\
     get_custom_voice_mapping profile0 !! nm = None) /\
  base.size (get_voice_mapping profile0) = length (speakers profile0).
Proof.
  exact (voice_mappings_of_a_profile "kokoro" "Kokoro-82M" [alice] profile0
           profile0_constructed).
Defined.

(** ** Emotions (emotions.py) *)

Lemma dict_get_Some_In {V} (d : Dict V) k v :
  dict_get d k = Some v -> In k (dict_keys d) /\ In v (dict_values d).
Proof.
  induction d as [|[k' v'] d IH]; simpl; [done|].
  destruct (String.eqb_spec k' k) as [->|Hne].
  - intros [= <-]. split; by left.
  - intros H. destruct (IH H). split; by right.
Qed.

(** X11. [get_emotion] returns an emotion exactly for the names that
    [get_emotions_names] lists, and the emotion is one of those that
    [get_all_emotions] lists; for any other name it raises [ValueError].
    So [get_default_emotion] fails on a configuration without an emotion
    called "Neutral", the empty configuration that [from_json_file]
    starts from included. *)
Theorem get_emotion_by_name (c : EmotionConfig) (nm : string) :
  (In nm (get_emotions_names c) <-> exists e, get_emotion c nm = inr e) /\
  (forall e, get_emotion c nm = inr e -> In e (get_all_emotions c)) /\
  (~ In nm (get_emotions_names c) ->
   exists msg, get_emotion c nm = inl (ValueError msg)) /\
  (~ In "Neutral" (get_emotions_names c) ->
   exists msg, get_default_emotion c = inl (ValueError msg)) /\
  (exists msg, get_default_emotion {| emotions := []; categories := [] |}
               = inl (ValueError msg)).
Proof.
  assert (forall n, ~ In n (get_emotions_names c) ->
            exists msg, get_emotion c n = inl (ValueError msg)) as Hmiss.
  { intros n Hno. unfold get_emotion.
    apply dict_get_None in Hno. rewrite Hno. eauto. }
  unfold get_emotions_names, get_all_emotions, get_emotion in *.
  split; [|split; [|split; [|split]]].
  - destruct (dict_get (emotions c) nm) as [e|] eqn:Hget.
    + split; [eauto|]. intros _. by apply dict_get_Some_In in Hget as [? _].
    + split; [|by intros [e [=]]]. intros Hin.
      by apply dict_get_None in Hget.
  - intros e. destruct (dict_get (emotions c) nm) as [e'|] eqn:Hget; [|done].
    intros [= <-]. by apply dict_get_Some_In in Hget as [_ ?].
  - apply Hmiss.
  - apply Hmiss.
  - simpl. eauto.
Qed.

(** ** Content Preprocessor: what it keeps and what it never does *)

Lemma pauses_app (t1 t2 : Trace) : pauses (t1 ++ t2) = pauses t1 ++ pauses t2.
Proof. apply omap_app. Qed.

Lemma no_retry_app {A B} calls1 calls2 (a : A) (o : Outcome B) :
  no_retry calls1 (Returned a) -> no_retry calls2 o ->
  no_retry (calls1 ++ calls2) o.
Proof.
  intros (g1 & Hg1 & [->|(p & e & _ & [=])]) (g2 & Hg2 & Hc).
  exists (g1 ++ g2). split; [by apply Forall_app|].
  destruct Hc as [->|(p & e & -> & ->)]; [by left|right].
  exists p, e. by rewrite app_assoc.
Qed.

(** A failed call is the last call of a run that does not retry, and
    the run ends with the call's error. *)
Lemma no_retry_last {A} calls (o : Outcome A) pre p e post :
  no_retry calls o -> calls = pre ++ (p, inl e) :: post ->
  post = [] /\ o = Raised e.
Proof.
  intros (good & Hgood & Hc) Heq.
  assert (forall l : list (Prompt * (Exn + AIMessage)),
            Forall call_answered l -> ~ In (p, inl e) l) as Hnot.
  { intros l Hl Hin. rewrite Forall_forall in Hl.
    apply list_elem_of_In, Hl in Hin. exact Hin. }
  destruct Hc as [->|(p' & e' & -> & ->)].
  - exfalso. apply (Hnot good Hgood). rewrite Heq. apply in_elt.
  - destruct post as [|x post _] using rev_ind.
    + apply app_inj_tail in Heq as [_ [= _ <-]]. done.
    + exfalso. rewrite app_comm_cons, app_assoc in Heq.
      apply app_inj_tail in Heq as [-> _].
      apply (Hnot _ Hgood). apply in_elt.
Qed.

Ltac no_retry_solve :=
  first [ eexists; split; [|left; reflexivity]; repeat constructor; exact I
        | exists []; split; [constructor|];
          right; eexists _, _; split; reflexivity
        | eexists [_]; split; [|right; eexists _, _; split; reflexivity];
          repeat constructor; exact I ].

Ltac item_leaf :=
  split; [reflexivity|];
  split; [simpl; lia|];
  split; [no_retry_solve|];
  first [ by intros ? ? [=]
        | intros ? ? [= <- <-]; split; [reflexivity|];
          eexists; split; [reflexivity|];
          first [ by left | right; by eexists _, _ ] ].

Lemma transform_list_item_shape qa briefing item acc :
  wp (transform_list_item qa briefing item acc) []
     (item_kept_or_replaced item acc).
Proof.
  unfold transform_list_item, item_kept_or_replaced.
  destruct item as [s|m|n]; [|simpl; item_leaf..].
  destruct (5000 <? length (strip s))%nat.
  { simpl. intros [] [] [e|m]; simpl; [item_leaf|]. intros []. item_leaf. }
  destruct (500 <=? length (strip s))%nat.
  { simpl. intros []. item_leaf. }
  simpl. intros [e|m]; simpl; [item_leaf|].
  destruct (contains xuyao (content m)); simpl.
  - intros [] [] [e|m']; simpl; item_leaf.
  - intros []. item_leaf.
Qed.

Lemma transform_items_shape qa briefing items : forall acc t,
  wp (for_loop items (transform_list_item qa briefing) acc) t
     (items_kept_or_replaced items acc t).
Proof.
  induction items as [|item items IH]; intros acc t.
  - simpl. exists []. rewrite app_nil_r. split; [done|]. split; [done|].
    split; [simpl; lia|]. split; [by exists []; split; [constructor|left]|].
    intros acc' [= <-]. exists []. rewrite app_nil_r. by repeat split.
  - cbn [for_loop]. apply wp_bind.
    eapply wp_mono; [|apply wp_frame_nil, transform_list_item_shape].
    intros o t' (d & -> & Hp & Hlen & Hno & Hres).
    assert (length (filter is_text_item (item :: items))
            = ((if is_text_item item then 1 else 0)
               + length (filter is_text_item items))%nat) as Hcount.
    { rewrite filter_cons. by destruct (is_text_item item). }
    destruct o as [[ctl acc1]|e].
    + destruct (Hres ctl acc1 eq_refl) as (-> & y & -> & Hy).
      eapply wp_mono; [|apply IH].
      intros o t' (d' & -> & Hp' & Hlen' & Hno' & Hres').
      exists (d ++ d'). split; [by rewrite app_assoc|].
      rewrite pauses_app, model_calls_app, length_app, Hp, Hp', Hcount.
      split; [done|]. split; [destruct (is_text_item item); lia|].
      split; [by eapply no_retry_app|].
      intros acc' ->. destruct (Hres' acc' eq_refl) as (ys & -> & Hlen'' & Hys).
      exists (y :: ys). split; [by rewrite <- app_assoc|].
      split; [simpl; lia|].
      intros [|i] x y' Hx Hy'; simplify_eq/=; [done|by eapply Hys].
    + exists d. split; [done|]. split; [done|].
      split; [rewrite Hcount; destruct (is_text_item item); lia|].
      split; [|done].
      destruct Hno as (good & Hgood & Hc). exists good. split; [done|].
      destruct Hc as [->|(p & e' & -> & [= ->])]; [by left|right; eauto].
Qed.

Lemma content_transform_shape_rule state cfg :
  wp (content_transform_node state cfg) []
     (fun o t =>
        pauses t = [] /\
        (length (model_calls t)
         <= 2 * length (filter is_text_item (content_items (st_content state))))%nat /\
        no_retry (model_calls t) o /\
        forall c', o = Returned c' ->
          is_one c' = is_one (st_content state) /\
          length (content_items c') = length (content_items (st_content state)) /\
          forall i x y, content_items (st_content state) !! i = Some x ->
            content_items c' !! i = Some y ->
            y = x \/ exists s m, x = IStr s /\ y = IMsg m).
Proof.
  unfold content_transform_node. simpl. intros [] [] [e|[]]; simpl.
  { split; [done|]. split; [lia|]. split; [no_retry_solve|]. by intros c' [=]. }
  destruct (st_content state) as [[s|m|n]|items] eqn:Hc; simpl.
  - destruct (5000 <? length (strip s))%nat.
    { simpl. intros [] [] [e|m]; simpl; [|intros []];
        (split; [reflexivity|]); (split; [simpl; lia|]);
        (split; [no_retry_solve|]); [by intros c' [=]|].
      intros c' [= <-]. split; [done|]. split; [done|].
      intros [|i] x y; simpl; [|done]. intros [= <-] [= <-]. right. eauto. }
    destruct (500 <=? length (strip s))%nat.
    { simpl. intros [].
      (split; [reflexivity|]); (split; [simpl; lia|]);
        (split; [no_retry_solve|]).
      intros c' [= <-]. split; [done|]. split; [done|].
      intros [|i] x y; simpl; [|done]. intros [= <-] [= <-]. by left. }
    simpl. intros [e|m]; simpl.
    { (split; [reflexivity|]); (split; [simpl; lia|]);
        (split; [no_retry_solve|]). by intros c' [=]. }
    destruct (contains xuyao (content m)); simpl.
    + intros [] [] [e|m']; simpl;
        (split; [reflexivity|]); (split; [simpl; lia|]);
        (split; [no_retry_solve|]); [by intros c' [=]|].
      intros c' [= <-]. split; [done|]. split; [done|].
      intros [|i] x y; simpl; [|done]. intros [= <-] [= <-]. right. eauto.
    + intros [].
      (split; [reflexivity|]); (split; [simpl; lia|]);
        (split; [no_retry_solve|]).
      intros c' [= <-]. split; [done|]. split; [done|].
      intros [|i] x y; simpl; [|done]. intros [= <-] [= <-]. by left.
  - (split; [reflexivity|]); (split; [simpl; lia|]);
      (split; [no_retry_solve|]).
    intros c' [= <-]. split; [done|]. split; [done|].
    intros [|i] x y; simpl; [|done]. intros [= <-] [= <-]. by left.
  - (split; [reflexivity|]); (split; [simpl; lia|]);
      (split; [no_retry_solve|]).
    intros c' [= <-]. split; [done|]. split; [done|].
    intros [|i] x y; simpl; [|done]. intros [= <-] [= <-]. by left.
  - apply (wp_bind (for_loop _ _ _)).
    eapply wp_mono; [|apply transform_items_shape].
    intros o t' (d & -> & Hp & Hlen & Hno & Hres).
    destruct o as [xs|e]; simpl.
    + split; [done|]. split; [lia|].
      split; [destruct Hno as (good & Hgood & [->|(p & e & _ & [=])]);
              exists good; by split; [|left]|].
      intros c' [= <-]. destruct (Hres xs eq_refl) as (ys & -> & Hl & Hys).
      simpl. split; [done|]. split; [done|]. exact Hys.
    + split; [done|]. split; [lia|]. split; [|done].
      destruct Hno as (good & Hgood & Hcase). exists good. split; [done|].
      destruct Hcase as [->|(p & e' & -> & [= ->])]; [by left|right; eauto].
Qed.

(** X12. Whatever the content and whatever the model answers, the
    Content Preprocessor never pauses and never retries: it makes at
    most two model calls for each string item and none for any other
    item, and a model call that fails is its last call, whose error ends
    the run.  When it returns, the content has the shape it had (one
    item, or a list of the same length), and every item is either the
    item it was or, for a string item, a model answer in its place. *)
Theorem preprocessor_keeps_the_shape (w : World) (state : PodcastState)
    (cfg : Configurable) :
  let m := content_transform_node state cfg in
  let items := content_items (st_content state) in
  pauses (trace_of w m) = [] /\
  (length (model_calls (trace_of w m))
   <= 2 * length (filter is_text_item items))%nat /\
  (forall pre p e post,
     model_calls (trace_of w m) = pre ++ (p, inl e) :: post ->
     post = [] /\ outcome_of w m = Raised e) /\
  (forall c', outcome_of w m = Returned c' ->
     is_one c' = is_one (st_content state) /\
     length (content_items c') = length items /\
     forall i x y, items !! i = Some x -> content_items c' !! i = Some y ->
       y = x \/ exists s m', x = IStr s /\ y = IMsg m').
Proof.
  intros m items.
  destruct (wp_sound m _ w (content_transform_shape_rule state cfg))
    as (Hp & Hlen & Hno & Hres).
  split; [done|]. split; [done|]. split; [|done].
  intros pre p e post Heq. by eapply no_retry_last.
Qed.

(** ** Transcript Generator: voice tags in the prompts *)

Lemma model_calls_of_beats (t : Trace) :
  model_calls t
  = omap (fun b => match b with
                   | Attempt q r => Some (q, r)
                   | Pause _ => None
                   end) (model_beats t).
Proof.
  induction t as [|[c r] t IH]; [done|].
  unfold model_calls, model_beats in *.
  destruct c; simpl; first [exact IH | f_equal; exact IH].
Qed.

Lemma retry_rule_prompts {Q R A} pause (q : Q) (res : R -> Exn + A) fatal n
    beats o :
  retry_rule pause q res fatal n beats o ->
  Forall (fun b => forall q' r, b = Attempt q' r -> q' = q) beats.
Proof.
  induction 1 as [n r a Hr|r e Hr|n r e beats o Hr Hrule IH];
    repeat constructor; try done; by intros q' r' [= <- _].
Qed.

Lemma segments_rule_prompts core env i segs beats o :
  segments_rule core env i segs beats o ->
  Forall (fun b => forall q r, b = Attempt q r ->
            exists j segment, q = segment_prompt env j segment) beats.
Proof.
  induction 1 as [i|i segment rest beats batch beats' o Hseg Hrest IH
                  |i segment rest beats e Hseg]; [constructor|..].
  - apply Forall_app. split; [|done].
    eapply Forall_impl; [by eapply retry_rule_prompts|].
    intros b Hb q r Heq. rewrite (Hb q r Heq). eauto.
  - eapply Forall_impl; [by eapply retry_rule_prompts|].
    intros b Hb q r Heq. rewrite (Hb q r Heq). eauto.
Qed.

(** What a loop does is made of what its rounds do. *)
Lemma for_loop_events {X S} (P : Trace -> Prop) (body : X -> S -> Coro (LoopCtl * S)) :
  P [] -> (forall d1 d2, P d1 -> P d2 -> P (d1 ++ d2)) ->
  (forall x s, wp (body x s) [] (fun _ d => P d)) ->
  forall xs s t,
    wp (for_loop xs body s) t (fun _ t' => exists d, t' = t ++ d /\ P d).
Proof.
  intros Hnil Happ Hbody xs. induction xs as [|x xs IH]; intros s t.
  - simpl. exists []. by rewrite app_nil_r.
  - cbn [for_loop]. apply wp_bind.
    eapply wp_mono; [|apply wp_frame_nil, Hbody].
    intros o t' (d & -> & Hd). destruct o as [[[] s']|e]; simpl.
    + by exists d.
    + eapply wp_mono; [|apply IH].
      intros o t' (d' & -> & Hd'). exists (d ++ d').
      split; [by rewrite app_assoc|by apply Happ].
    + by exists d.
Qed.

Lemma transcript_segment_quiet core env model entry acc :
  wp (transcript_segment core env model entry acc) []
     (fun _ d => omap tts_answer d = []).
Proof.
  destruct entry as [i segment].
  unfold transcript_segment. simpl. intros [].
  retry_walk; reflexivity.
Qed.

Lemma generate_transcript_caps_rule core state cfg :
  wp (generate_transcript_node core state cfg) []
     (fun o t =>
        Forall (fun call => prompt_voice_tags call.1 = Some (voice_tag_support t))
               (model_calls t) /\
        forall provider e,
          In (provider, inl e) (omap tts_answer t) ->
          In (capability_failed provider e) (logged WARNING t)).
Proof.
  unfold generate_transcript_node. simpl. intros [] [].
  destruct (st_outline state) as [outline|] eqn:Hout; simpl;
    [|split; [constructor|]; by intros ? ? []].
  destruct (st_speaker_profile state) as [profile|] eqn:Hprof; simpl;
    [|split; [constructor|]; by intros ? ? []].
  intros [e|[]]; simpl;
    [split; [constructor|]; by intros ? ? []|].
  destruct (st_emotions_config state) as [emo|] eqn:Hemo; simpl;
    [|split; [constructor|]; by intros ? ? []].
  destruct (st_speed_config state) as [spd|] eqn:Hspd; simpl;
    [|split; [constructor|]; by intros ? ? []].
  assert (forall caps t0,
    model_calls t0 = [] -> voice_tag_support t0 = caps ->
    (exists a, omap tts_answer t0 = [a]) ->
    (forall provider e,
       In (provider, inl e) (omap tts_answer t0) ->
       In (capability_failed provider e) (logged WARNING t0)) ->
    wp (for_loop (enumerate (segments outline))
          (transcript_segment core
             {| te_state := state; te_outline := outline; te_profile := profile;
                te_emotions := emo; te_speeds := spd;
                te_supports_voice_tags := fst caps;
                te_available_voice_tags := snd caps |}
             (default "openai" (cfg_transcript_provider cfg),
              default "gpt-4o-mini" (cfg_transcript_model cfg))) []
          ≫= (fun transcript =>
                log INFO (transcript_generated (length transcript));;
                mret transcript)) t0
       (fun o t =>
          Forall (fun call => prompt_voice_tags call.1
                              = Some (voice_tag_support t)) (model_calls t) /\
          forall provider e,
            In (provider, inl e) (omap tts_answer t) ->
            In (capability_failed provider e) (logged WARNING t)))
    as Hloop.
  { intros caps t0 Ht0 Hcaps [a Ha] Hwarn. apply wp_bind.
    eapply wp_mono;
      [|apply wp_and;
        [apply transcript_segments_rule
        |apply (for_loop_events (fun d => omap tts_answer d = []));
         [done
         |by intros d1 d2 H1 H2; rewrite omap_app, H1, H2
         |intros; apply transcript_segment_quiet]]].
    intros o t' [(d & os & -> & _ & Hrule & ->) (d' & Heq & Hquiet)].
    apply app_inv_head in Heq as <-.
    assert (Forall (fun call => prompt_voice_tags call.1 = Some caps)
                   (model_calls d)) as Hcalls.
    { rewrite model_calls_of_beats.
      apply segments_rule_prompts in Hrule.
      induction Hrule as [|b beats Hb _ IH]; [constructor|].
      destruct b as [q r|n]; cbn [omap]; [|done].
      constructor; [|done].
      destruct (Hb q r eq_refl) as (j & segment & ->). simpl.
      by destruct caps. }
    assert (forall d2, omap tts_answer d2 = [] ->
              voice_tag_support (t0 ++ d2) = caps /\
              (forall provider e,
                 In (provider, inl e) (omap tts_answer (t0 ++ d2)) ->
                 In (capability_failed provider e)
                    (logged WARNING (t0 ++ d2)))) as Hframe.
    { intros d2 Hd2. split.
      - rewrite <- Hcaps. unfold voice_tag_support.
        by rewrite omap_app, Ha, Hd2.
      - intros provider e'. rewrite omap_app, Hd2, app_nil_r. intros Hin.
        unfold logged. rewrite omap_app. apply in_or_app. left.
        by apply Hwarn. }
    destruct os as [tr|e']; simpl.
    - intros [].
      destruct (Hframe (d ++ [Ev (CLog INFO (transcript_generated
                                   (length tr))) tt])) as [Hc Hw].
      { by rewrite omap_app, Hquiet. }
      rewrite <- app_assoc. rewrite Hc. split; [|done].
      rewrite !model_calls_app, Ht0. simpl. by rewrite app_nil_r.
    - destruct (Hframe d Hquiet) as [Hc Hw]. rewrite Hc. split; [|done].
      by rewrite model_calls_app, Ht0. }
  intros [e|[cap|]]; simpl.
  - intros []. apply (Hloop (false, [])); [done|done|by eexists|].
    intros provider e' [[= <- <-]|[]]. simpl. tauto.
  - intros []. apply (Hloop (_, _)); [done|done|by eexists|].
    by intros provider e' [[=]|[]].
  - apply (Hloop (false, [])); [done|done|by eexists|].
    by intros provider e' [[=]|[]].
Qed.

(** X13. In every run of the Transcript Generator, every prompt sent to
    the model is rendered with the voice-tag support that the capability
    query of the run answered: the flag and the tags of the capability
    (no tags when the capability lists none), or "not supported" with no
    tags when the speech provider has no capability or could not be
    created.  Every capability query that fails is logged as a warning
    that names the provider and the error. *)
Theorem transcript_prompts_carry_voice_tags (w : World) (core : Core)
    (state : PodcastState) (cfg : Configurable) :
  let t := trace_of w (generate_transcript_node core state cfg) in
  Forall (fun call => prompt_voice_tags call.1 = Some (voice_tag_support t))
         (model_calls t) /\
  forall provider e,
    In (provider, inl e) (omap tts_answer t) ->
    In (capability_failed provider e) (logged WARNING t).
Proof.
  intros t.
  exact (wp_sound _ _ w (generate_transcript_caps_rule core state cfg)).
Qed.

(** ** Audio Synthesis Scheduler: the voice and the reference audio of a clip *)

Lemma clip_reference_rule (w : World) info emo spd :
  let t := trace_of w (generate_single_audio_clip info emo spd) in
  Forall (fun req => exists ref,
            req = clip_request info ref /\
            reference_resolved
              (di_custom_voices info !! speaker (di_dialogue info)) t ref)
         (speech_requests t).
Proof.
  intros t. unfold speech_requests.
  pose proof (wp_sound _ _ w (generate_single_audio_clip_rule info emo spd))
    as Hrun.
  fold t in Hrun.
  destruct Hrun as [(c & e & _ & _ & _ & Hnone)|(_ & ref & Href & Hrule)].
  - rewrite Hnone. constructor.
  - eapply Forall_impl; [by eapply retry_rule_requests|].
    intros req ->. by exists ref.
Qed.

Lemma clip_files_rule info emo spd :
  wp (generate_single_audio_clip info emo spd) []
     (fun o t =>
        (truthy (di_custom_voices info !! speaker (di_dialogue info)) = false ->
         omap exists_call t = [] /\ omap read_call t = []) /\
        (forall p e, In (p, inl e) (omap exists_call t) ->
           o = Raised e /\ speech_requests t = [])).
Proof.
  unfold generate_single_audio_clip.
  generalize (di_custom_voices info !! speaker (di_dialogue info)).
  intros custom. clip_walk.
  all: split; [first [done | intros; discriminate]|].
  all: intros p e' Hin; simpl in Hin.
  all: repeat (destruct Hin as [Hin|Hin]); try done; simplify_eq; by split.
Qed.

Lemma reference_resolved_truthy (cv : option string) t ref :
  reference_resolved (if truthy cv then cv else None) t ref ->
  reference_resolved cv t ref.
Proof.
  destruct cv as [s|]; [|done].
  destruct (truthy (Some s)) eqn:Hs; [done|].
  unfold reference_resolved. by rewrite Hs.
Qed.

Lemma profile_mappings_by_name (p : SpeakerProfile) (line : Dialogue) :
  NoDup (map name (speakers p)) ->
  default "default" (get_voice_mapping p !! speaker line) = voice_of p line /\
  get_custom_voice_mapping p !! speaker line
  = if truthy (custom_voice_of p line) then custom_voice_of p line else None.
Proof.
  intros Hnd. unfold voice_of, custom_voice_of, get_speaker_by_name,
    get_voice_mapping, get_custom_voice_mapping.
  destruct (voice_mapping_fold (speakers p) ∅ Hnd) as (Hout & Hin & _).
  destruct (custom_voice_mapping_fold (speakers p) ∅ Hnd) as (Hcout & Hcin).
  destruct (find _ (speakers p)) as [s|] eqn:Hf.
  - apply find_name_Some in Hf as [Hs <-].
    rewrite Hin by done. split; [done|]. by apply Hcin.
  - assert (~ In (speaker line) (map name (speakers p))) as Hno.
    { intros Hn. apply list_elem_of_In in Hn.
      change (map name (speakers p)) with (name <$> speakers p) in Hn.
      apply list_elem_of_fmap in Hn as (s & Heq & Hs).
      rewrite Heq, find_name_unique in Hf by done. done. }
    by rewrite Hout, Hcout.
Qed.

(** X14. The clip task that the scheduler creates for a line, with a
    profile that was constructed.  Every synthesis request carries the
    line's text, the clip's file, and the voice of the profile's speaker
    that the line names, or "default" when the profile has no speaker of
    that name.  The reference audio of the requests is resolved from that
    speaker's custom voice: absent when the speaker has none, and then no
    file is tested for or read; the base64 content of the file when the
    one existence test answers that the custom voice names a file; and
    the configured string itself when that test answers that it names
    none.  When the existence test raises an error instead, as it does
    for a string that is no usable path, that error ends the task and no
    request is made.  When every collaborator answers, the task makes
    exactly one request. *)
Theorem clip_uses_the_speakers_voice (w : World) (env : AudioEnv) (i : Z)
    (line : Dialogue) (provider model : string) (v : list Speaker) :
  make_SpeakerProfile provider model v = inr (ae_speaker_profile env) ->
  let profile := ae_speaker_profile env in
  let m := generate_single_audio_clip (dialogue_info_of env i line)
             (ae_emotions_config env) (ae_speed_config env) in
  let t := trace_of w m in
  Forall (fun req =>
            sr_text req = dialogue line /\
            sr_voice req = voice_of profile line /\
            sr_output_file req = clip_file (ae_output_dir env) i /\
            reference_resolved (custom_voice_of profile line) t
                               (reference_audio (sr_kwargs req)))
         (speech_requests t) /\
  (truthy (custom_voice_of profile line) = false ->
   omap exists_call t = [] /\ omap read_call t = []) /\
  (forall p e, In (p, inl e) (omap exists_call t) ->
     outcome_of w m = Raised e /\ speech_requests t = []) /\
  (Forall answered t -> exists req, speech_requests t = [req]).
Proof.
  intros Hnd%make_SpeakerProfile_names profile m t.
  destruct (profile_mappings_by_name profile line Hnd) as [Hvoice Hcustom].
  pose proof (clip_reference_rule w (dialogue_info_of env i line)
                (ae_emotions_config env) (ae_speed_config env)) as Hreq.
  destruct (wp_sound m _ w
              (clip_files_rule (dialogue_info_of env i line)
                 (ae_emotions_config env) (ae_speed_config env)))
    as [Hnone Hraise].
  pose proof (wp_sound m _ w
                (clip_answered_rule (dialogue_info_of env i line)
                   (ae_emotions_config env) (ae_speed_config env)))
    as Hans.
  fold m t in Hreq, Hnone, Hraise, Hans. cbv zeta in Hreq.
  simpl in Hreq, Hnone. fold profile in Hreq, Hnone.
  rewrite Hcustom in Hreq, Hnone. split; [|split; [|split]].
  - eapply Forall_impl; [exact Hreq|]. intros req (ref & -> & Href).
    unfold clip_request. cbn [sr_text sr_voice sr_output_file sr_kwargs
      reference_audio dialogue_info_of di_dialogue di_voices di_output_dir
      di_index].
    fold profile. rewrite Hvoice.
    split; [done|]. split; [done|]. split; [done|].
    by apply reference_resolved_truthy.
  - intros Hf. apply Hnone. by rewrite Hf.
  - exact Hraise.
  - intros Hall. destruct (Hans Hall) as [_ [ref Href]]. eauto.
Qed.

Lemma profile1_constructed :
  make_SpeakerProfile "kokoro" "Kokoro-82M" [alice; bob] = inr profile1.
Proof. vm_compute. reflexivity. Defined.

Lemma clip_uses_the_speakers_voice_witness :
  let env := audio_env state3 2 profile1 in
  let m := generate_single_audio_clip (dialogue_info_of env 1 line1)
             (ae_emotions_config env) (ae_speed_config env) in
  let t := trace_of voice_files m in
  Forall (fun req =>
            sr_text req = dialogue line1 /\
            sr_voice req = voice_of profile1 line1 /\
            sr_output_file req = clip_file (ae_output_dir env) 1 /\
            reference_resolved (custom_voice_of profile1 line1) t
                               (reference_audio (sr_kwargs req)))
         (speech_requests t) /\
  (truthy (custom_voice_of profile1 line1) = false ->
   omap exists_call t = [] /\ omap read_call t = []) /\
  (forall p e, In (p, inl e) (omap exists_call t) ->
     outcome_of voice_files m = Raised e /\ speech_requests t = []) /\
  (Forall answered t -> exists req, speech_requests t = [req]).
Proof.
  exact (clip_uses_the_speakers_voice voice_files (audio_env state3 2 profile1)
           1 line1 "kokoro" "Kokoro-82M" [alice; bob] profile1_constructed).
Defined.

(** Bob's custom voice in three worlds.  Where the file exists, the one
    request carries its base64 content; where the existence test answers
    that there is no such file, the request carries the configured
    string; where the test raises, the task raises that error and makes
    no request. *)
Example custom_voice_in_three_worlds :
  let m := generate_single_audio_clip
             (dialogue_info_of (audio_env state3 2 profile1) 1 line1)
             None None in
  map (fun req => (sr_voice req, reference_audio (sr_kwargs req)))
      (speech_requests (trace_of voice_files m))
  = [("custom", Some "UklGRg==")] /\
  map (fun req => (sr_voice req, reference_audio (sr_kwargs req)))
      (speech_requests (trace_of quiet_world m))
  = [("custom", Some "voices/bob.wav")] /\
  outcome_of no_paths m = Raised (External "OSError: File name too long") /\
  speech_requests (trace_of no_paths m) = [].
Proof. vm_compute. done. Qed.

(** ** Audio Synthesis Scheduler: batch sizes below 1 *)

Lemma py_range_nonpositive (total b : Z) :
  0 <= total -> b <= 0 ->
  py_range 0 total b = if (b =? 0)%Z then None else Some [].
Proof.
  intros Ht Hb. unfold py_range. destruct (Z.eqb_spec b 0) as [->|Hne]; [done|].
  destruct (Z.ltb_spec 0 b); [lia|].
  assert ((0 - total - b - 1) / - b <= 0) as Hq.
  { destruct (Z_le_gt_dec 0 (0 - total - b - 1)).
    - rewrite Z.div_small; lia.
    - pose proof (Z.div_lt_upper_bound (0 - total - b - 1) (- b) 0). lia. }
  by replace (Z.to_nat ((0 - total - b - 1) / - b)) with 0%nat by lia.
Qed.

Lemma nonpositive_batch_size_rule state (size : option Z) :
  default 5 size <= 0 ->
  wp (generate_all_audio_node state size) []
     (fun o t =>
        speech_beats t = [] /\ omap starts_line t = [] /\
        o = match st_speaker_profile state with
            | None => Raised (AssertionError "speaker_profile must be provided")
            | Some _ =>
                if (default 5 size =? 0)%Z
                then Raised (ValueError "range() arg 3 must not be zero")
                else Returned (Some [])
            end).
Proof.
  intros Hb. unfold generate_all_audio_node. simpl. intros [].
  destruct (st_speaker_profile state) as [profile|]; simpl; [|done].
  intros []. rewrite py_range_nonpositive by lia.
  destruct (default 5 size =? 0)%Z; simpl; [done|]. by intros [].
Qed.

(** X15. With a batch size below 1 the scheduler synthesises nothing,
    whatever the transcript: no line is started and no synthesis call is
    made.  Without a speaker profile the run raises [AssertionError];
    otherwise a batch size of 0 raises the [ValueError] of [range], and a
    negative batch size returns an empty list of clip paths. *)
Theorem nonpositive_batch_size_synthesises_nothing (w : World)
    (state : PodcastState) (size : option Z) :
  default 5 size <= 0 ->
  let m := generate_all_audio_node state size in
  speech_beats (trace_of w m) = [] /\
  omap starts_line (trace_of w m) = [] /\
  outcome_of w m
  = match st_speaker_profile state with
    | None => Raised (AssertionError "speaker_profile must be provided")
    | Some _ =>
        if (default 5 size =? 0)%Z
        then Raised (ValueError "range() arg 3 must not be zero")
        else Returned (Some [])
    end.
Proof.
  intros Hb m. exact (wp_sound m _ w (nonpositive_batch_size_rule state size Hb)).
Qed.

Lemma nonpositive_batch_size_synthesises_nothing_witness :
  let m := generate_all_audio_node state3 (Some 0) in
  speech_beats (trace_of quiet_world m) = [] /\
  omap starts_line (trace_of quiet_world m) = [] /\
  outcome_of quiet_world m
  = match st_speaker_profile state3 with
    | None => Raised (AssertionError "speaker_profile must be provided")
    | Some _ =>
        if (default 5 (Some 0) =? 0)%Z
        then Raised (ValueError "range() arg 3 must not be zero")
        else Returned (Some [])
    end.
Proof.
  apply (nonpositive_batch_size_synthesises_nothing quiet_world state3 (Some 0)).
  simpl. lia.
Defined.

(** ** Clip file names, continued *)

Lemma string_app_inv_tail (s1 s2 x : string) :
  (s1 ++ x = s2 ++ x)%string -> s1 = s2.
Proof.
  intros Heq.
  assert (String.length s1 = String.length s2) as Hlen.
  { apply (f_equal String.length) in Heq.
    rewrite !string_length_app in Heq. lia. }
  revert s2 Heq Hlen. induction s1 as [|a s1 IH]; intros [|b s2]; simpl;
    try done.
  intros [= -> Heq] [= Hlen]. f_equal. by apply IH.
Qed.

Lemma decimal_value_zfill (width n : nat) :
  decimal_value (zfill width (decimal n)) = Some n.
Proof.
  unfold zfill. rewrite decimal_value_zeros by apply decimal_nonempty.
  apply decimal_value_decimal.
Qed.

Lemma decimal_value_minus (s : string) :
  decimal_value ("-" ++ s)%string = None.
Proof.
  unfold decimal_value.
  change (NilZero.uint_of_string ("-" +:+ s))
    with (uint_of_char "-"%char (NilEmpty.uint_of_string s)).
  by destruct (NilEmpty.uint_of_string s).
Qed.

Lemma format_04d_injective (i j : Z) : format_04d i = format_04d j -> i = j.
Proof.
  unfold format_04d.
  destruct (Z.ltb_spec i 0) as [Hi|Hi], (Z.ltb_spec j 0) as [Hj|Hj]; intros Heq.
  - injection Heq as Heq. apply (f_equal decimal_value) in Heq.
    change ("" +:+ ?s) with s in Heq.
    rewrite !decimal_value_zfill in Heq. injection Heq as Heq. lia.
  - apply (f_equal decimal_value) in Heq.
    rewrite decimal_value_zfill, decimal_value_minus in Heq. discriminate.
  - apply (f_equal decimal_value) in Heq.
    rewrite decimal_value_zfill, decimal_value_minus in Heq. discriminate.
  - apply (f_equal decimal_value) in Heq.
    rewrite !decimal_value_zfill in Heq. injection Heq as Heq. lia.
Qed.

(** X16. Two lines have the same clip file exactly when they have the same
    index: no clip overwrites the clip of another line, in any output
    directory and for every index. *)
Theorem clip_files_are_distinct (output_dir : Path) (i j : Z) :
  clip_file output_dir i = clip_file output_dir j <-> i = j.
Proof.
  split; [|by intros ->].
  unfold clip_file, path_div. intros Heq.
  apply app_inj_tail in Heq as [_ Heq].
  by apply string_app_inv_tail, format_04d_injective in Heq.
Qed.

(** ** Back ends: voice selection and results *)

#[local] Arguments kokoro_selected : simpl never.
#[local] Arguments kokoro_ended : simpl never.
#[local] Arguments qwen_ended : simpl never.

Ltac table_walk :=
  repeat (simpl;
          match goal with
          | |- forall _ : unit, _ => intros []
          | |- forall _ : Exn + _, _ => intros [?e|?x]
          | |- context [match dict_get ?d ?k with _ => _ end] =>
              destruct (dict_get d k) eqn:?
          | |- context [if ?b then _ else _] => destruct b eqn:?
          end).

Ltac table_done :=
  solve [ repeat match goal with
                 | H : dict_get _ _ = _ |- _ => rewrite H
                 end;
          simpl; repeat split; first [done | tauto | congruence] ].

Ltac language_done :=
  first [ by split
        | eexists; split; [reflexivity|]; split;
          [ simpl;
            repeat match goal with
                   | H : (_ || _) = _ |- _ => rewrite H
                   end;
            reflexivity
          | simpl; split;
            [ first [ intros _; eexists; reflexivity
                    | intros H; exfalso; intuition discriminate ]
            | first [ intros _; tauto | intros [? [=]] ] ] ] ].

Lemma kokoro_selection_rule config a :
  wp (kokoro_generate_speech config a) []
     (fun o t => exists lang, kokoro_selected config a lang o t).
Proof.
  unfold kokoro_generate_speech, _detect_language, dict_item, convert_format.
  table_walk; simpl.
  all: unfold kokoro_selected, kokoro_text, kokoro_voice_for.
  all: repeat match goal with
              | H : dialect_utils_present _ = _ |- _ => rewrite H
              | H : has_cjk _ = _ |- _ => rewrite H
              end.
  all: first [ exists "zh"; cbn [String.eqb Ascii.eqb Bool.eqb];
               split; [language_done|]; split; [in_list|table_done]
             | exists "en"; cbn [String.eqb Ascii.eqb Bool.eqb];
               split; [language_done|]; split; [in_list|table_done]
             | exists "auto"; cbn [String.eqb Ascii.eqb Bool.eqb];
               split; [language_done|]; split; [in_list|table_done] ].
Qed.
(** X17. The Kokoro wrapper chooses the voice by the language it detects.
    A text with a CJK character is Chinese and the language detector is
    not asked; any other text is given to the detector once, and the
    language is Chinese for the answers "zh-cn" and "zh-tw", English for
    any other answer, and "auto" when the detector fails, which is
    logged as a warning.  The language is logged.  The voice is looked
    up in the table "kokoro_zh" for Chinese and in "kokoro" otherwise,
    with the table's "default" entry for an unknown voice.  A missing
    table or a table without "default" raises [KeyError], also for a
    voice that the table has, and then the engine is not called;
    otherwise the engine is called exactly once, with the text without
    its dialect tag, the chosen voice and the detected language. *)
Theorem kokoro_chooses_voice_by_language (w : World) (config : ServiceConfig)
    (a : SpeechArgs) :
  let m := kokoro_generate_speech config a in
  let t := trace_of w m in
  let text := kokoro_text config a in
  exists lang,
    (if has_cjk text then omap detect_call t = [] /\ lang = "zh"
     else exists r,
       omap detect_call t = [(text, r)] /\
       lang = match r with
              | inr answer =>
                  if String.eqb answer "zh-cn" || String.eqb answer "zh-tw"
                  then "zh" else "en"
              | inl _ => "auto"
              end /\
       (In (other_msg "Language detection failed") (logged WARNING t)
        <-> exists e, r = inl e)) /\
    In (language_detected lang) (logged INFO t) /\
    match kokoro_voice_for config lang (sa_voice a) with
    | inl e => outcome_of w m = Raised e /\ engine_calls t = []
    | inr v => engine_calls t = [CKokoroModel text v lang (sa_speed a)]
    end.
Proof.
  intros m t text.
  exact (wp_sound m _ w (kokoro_selection_rule config a)).
Qed.

(** A text without a CJK character, in a world whose language detector
    fails: the language is "auto", the voice is taken from the table
    "kokoro", and one warning is logged. *)
Example failed_detection_gives_auto :
  engine_calls (trace_of detector_down (kokoro_generate_speech service0 args_en))
  = [CKokoroModel [72; 105]%N "af_nova" "auto" (Some 1.0%float)] /\
  logged WARNING (trace_of detector_down (kokoro_generate_speech service0 args_en))
  = [other_msg "Language detection failed"].
Proof. vm_compute. done. Qed.

Lemma kokoro_ended_rule config a :
  wp (kokoro_generate_speech config a) [] (kokoro_ended a).
Proof.
  unfold kokoro_generate_speech, _detect_language, dict_item, convert_format.
  table_walk; simpl.
  all: unfold kokoro_ended; try reflexivity.
  all: split; [intros [? Hlog]; simpl in Hlog; intuition discriminate|].
  all: eexists; split; [reflexivity|].
  all: destruct (sa_output_format a =? "wav"); try discriminate.
  all: first [ split; reflexivity | eexists; split; reflexivity ].
Qed.

Lemma qwen_ended_rule model_name req :
  wp (qwen_generate_speech model_name req) [] (qwen_ended model_name req).
Proof.
  unfold qwen_generate_speech.
  table_walk; simpl.
  all: unfold qwen_ended; first [ by eexists | done ].
Qed.

(** X18. The Kokoro wrapper raises no error without reporting it: when a
    run raises, its last action was to log that error at level ERROR, and
    the error raised is the one logged.  When a run returns, no such
    error was logged and the WAV data was produced once; the result is
    the WAV data as "audio/wav" when the format asked for is "wav" (no
    conversion is asked for then), and otherwise what the single
    conversion to that format at 24000 Hz answered, or the WAV data as
    "audio/wav" when the conversion failed. *)
Theorem kokoro_result (w : World) (config : ServiceConfig) (a : SpeechArgs) :
  let m := kokoro_generate_speech config a in
  let t := trace_of w m in
  match outcome_of w m with
  | Raised e => last t = Some (Ev (CLog ERROR (backend_error "Kokoro" e)) tt)
  | Returned res =>
      ~ (exists e, In (backend_error "Kokoro" e) (logged ERROR t)) /\
      exists wav, omap wav_answer t = [wav] /\
        if String.eqb (sa_output_format a) "wav"
        then res = (wav, "audio/wav") /\ omap conversion t = []
        else exists r,
          omap conversion t = [(wav, sa_output_format a, 24000%N, r)] /\
          res = match r with
                | inr converted => converted
                | inl _ => (wav, "audio/wav")
                end
  end.
Proof.
  intros m t. exact (wp_sound m _ w (kokoro_ended_rule config a)).
Qed.

(** X19. The Qwen provider wraps every failure: when a run raises, the
    error is a [RuntimeError] "Failed to generate speech" around the
    error that occurred, which was logged last at level ERROR, and no
    file was written.  When a run returns, exactly one file was written,
    the output file of the request, and the bytes written are the audio
    data of the response, whose content type is "audio/wav" and whose
    voice and model are those asked for. *)
Theorem qwen_result (w : World) (model_name : string) (req : SpeechRequest) :
  let m := qwen_generate_speech model_name req in
  let t := trace_of w m in
  match outcome_of w m with
  | Raised e' =>
      exists e, e' = qwen_failure e /\
        last t = Some (Ev (CLog ERROR (backend_error "Qwen" e)) tt) /\
        omap written t = []
  | Returned r =>
      omap written t = [(sr_output_file req, audio_data r)] /\
      content_type r = "audio/wav" /\ ar_voice r = sr_voice req /\
      ar_model r = model_name /\ logged ERROR t = []
  end.
Proof.
  intros m t. exact (wp_sound m _ w (qwen_ended_rule model_name req)).
Qed.

(** ** SpeakerConfig (speakers.py) *)

Lemma dict_get_Some_pair {V} (d : Dict V) k v :
  dict_get d k = Some v -> In (k, v) d.
Proof.
  induction d as [|[k' v'] d IH]; simpl; [done|].
  destruct (String.eqb_spec k' k) as [->|Hne].
  - intros [= <-]. by left.
  - intros H. right. by apply IH.
Qed.

(** X20. A [SpeakerConfig] is constructed from every dictionary of
    profiles but the empty one, which is rejected with a validation
    error.  A configuration that was constructed lists at least one
    profile; [get_profile] returns a profile exactly for the names that
    [list_profiles] lists, the profile is the one stored under that name,
    and any other name raises [ValueError]. *)
Theorem speaker_config_profiles (v : Dict SpeakerProfile) :
  match make_SpeakerConfig v with
  | inl e =>
      v = [] /\
      e = ValidationError "At least one speaker profile must be defined"
  | inr c =>
      profiles c = v /\ list_profiles c <> [] /\
      forall nm,
        (In nm (list_profiles c) <-> exists p, get_profile c nm = inr p) /\
        (forall p, get_profile c nm = inr p -> In (nm, p) (profiles c)) /\
        (~ In nm (list_profiles c) ->
         exists msg, get_profile c nm = inl (ValueError msg))
  end.
Proof.
  unfold make_SpeakerConfig, validate_profiles.
  destruct v as [|[k p0] v]; [done|]. cbn [length Nat.eqb].
  split; [done|]. split; [done|]. intros nm.
  unfold list_profiles, get_profile. cbn [profiles].
  set (d := (k, p0) :: v).
  destruct (dict_get d nm) as [p|] eqn:Hget.
  - split; [|split].
    + split; [eauto|]. intros _. by apply dict_get_Some_In in Hget as [? _].
    + intros p' [= <-]. by apply dict_get_Some_pair.
    + intros Hno. by apply dict_get_None in Hno; rewrite Hno in Hget.
  - split; [|split].
    + split; [|by intros [p [=]]]. intros Hin. by apply dict_get_None in Hget.
    + by intros p [=].
    + eauto.
Qed.
